(** * Study manager of code_saturne: dependency graph, slurm batches, case runs

    Shallow embedding of the run-orchestration core of
    [src/python/code_saturne/studymanager/cs_studymanager_study.py]:
    the classes [Case], [Studies] and [dependency_graph].

    Python objects are mutable and shared by reference: a [Case] built once is
    inserted in the global graph, in the sub-graphs extracted from it and in
    the batches of the slurm scheduler.  Cases therefore live in a [store]
    addressed by references, and every method threads the store explicitly.
    Python exceptions are the [Raise] results of a small error monad.

    The file system, [os.path], the XML reader and the external commands
    ([sbatch], the solver, [get_case_state]) are parameters of the methods
    that call them.  Writes to files and to the report ([self.reporting],
    the log files, the slurm scripts on disk, [add_control_file]) change no
    case and no graph: the methods are modelled without them, and what
    [run_slurm_batches] hands to [sbatch] is kept as a list of
    submissions. *)

From Stdlib Require Import ZArith List String Ascii Bool Lia.
From Stdlib Require Import FunctionalExtensionality DecimalString DecimalNat
  FinFun.
Import ListNotations.

Open Scope Z_scope.

(** ** Python values and exceptions *)

Inductive exn : Type :=
| TypeError
| KeyError
| AttributeError
| IndexError
| UnboundLocalError.

Inductive result (A : Type) : Type :=
| Ok (a : A)
| Raise (e : exn).

Arguments Ok {A} a.
Arguments Raise {A} e.

Definition bind {A B : Type} (m : result A) (f : A -> result B) : result B :=
  match m with
  | Ok a => f a
  | Raise e => Raise e
  end.

Notation "x <- m ;; k" := (bind m (fun x => k))
  (at level 61, m at next level, right associativity).
Notation "' p <- m ;; k" := (bind m (fun p => k))
  (at level 61, p pattern, m at next level, right associativity).

Infix "^^" := String.append (at level 60, right associativity).

Definition nl : string := String (ascii_of_nat 10) EmptyString.

(** Truth value of a string-or-None attribute ([if case.depends:]). *)
Definition truthy_str (o : option string) : bool :=
  match o with
  | None => false
  | Some s => negb (String.eqb s EmptyString)
  end.

(** [max([a, b])] on integers. *)
Definition py_max (a b : Z) : Z := Z.max a b.

(** ** The Case object *)

(** References to [Case] objects.  [Case] defines neither [__eq__] nor
    [__hash__]: dictionary keys and the [in] test compare references. *)
Definition ref : Type := nat.

(** The attributes of [Case] that the modelled methods read or write.
    [n_procs] and [expected_time] hold the integer that [int(...)] and
    [float(...)] yield on the resolved attribute. *)
Record Case : Type := mkCase {
  repo : string;
  dest : string;
  study : string;
  label : string;
  run_id : string;
  resu : string;
  title : string;
  run_dir : string;
  n_procs : Z;
  data_n_procs : option string;
  depends : option string;
  expected_time : Z;
  parametric : option string;
  notebook : option string;
  kw_args : option string;
  compute : bool;
  compare : bool;
  plot : bool;
  sheet : bool;
  state : bool;
  is_compiled : option string;
  is_time : option Z;
  no_restart : bool;
  subdomains : option (list string);
  level : option Z;
  job_id : option string
}.

Definition set_level (c : Case) (v : option Z) : Case :=
  mkCase (repo c) (dest c) (study c) (label c) (run_id c) (resu c) (title c) (run_dir c)
    (n_procs c) (data_n_procs c) (depends c) (expected_time c) (parametric c)
    (notebook c) (kw_args c) (compute c) (compare c) (plot c) (sheet c)
    (state c) (is_compiled c) (is_time c) (no_restart c) (subdomains c)
    v (job_id c).

Definition set_job_id (c : Case) (v : option string) : Case :=
  mkCase (repo c) (dest c) (study c) (label c) (run_id c) (resu c) (title c) (run_dir c)
    (n_procs c) (data_n_procs c) (depends c) (expected_time c) (parametric c)
    (notebook c) (kw_args c) (compute c) (compare c) (plot c) (sheet c)
    (state c) (is_compiled c) (is_time c) (no_restart c) (subdomains c)
    (level c) v.

Definition set_depends (c : Case) (v : option string) : Case :=
  mkCase (repo c) (dest c) (study c) (label c) (run_id c) (resu c) (title c) (run_dir c)
    (n_procs c) (data_n_procs c) v (expected_time c) (parametric c)
    (notebook c) (kw_args c) (compute c) (compare c) (plot c) (sheet c)
    (state c) (is_compiled c) (is_time c) (no_restart c) (subdomains c)
    (level c) (job_id c).

Definition set_kw_args (c : Case) (v : option string) : Case :=
  mkCase (repo c) (dest c) (study c) (label c) (run_id c) (resu c) (title c) (run_dir c)
    (n_procs c) (data_n_procs c) (depends c) (expected_time c) (parametric c)
    (notebook c) v (compute c) (compare c) (plot c) (sheet c)
    (state c) (is_compiled c) (is_time c) (no_restart c) (subdomains c)
    (level c) (job_id c).

Definition set_compute (c : Case) (v : bool) : Case :=
  mkCase (repo c) (dest c) (study c) (label c) (run_id c) (resu c) (title c) (run_dir c)
    (n_procs c) (data_n_procs c) (depends c) (expected_time c) (parametric c)
    (notebook c) (kw_args c) v (compare c) (plot c) (sheet c)
    (state c) (is_compiled c) (is_time c) (no_restart c) (subdomains c)
    (level c) (job_id c).

Definition set_compare (c : Case) (v : bool) : Case :=
  mkCase (repo c) (dest c) (study c) (label c) (run_id c) (resu c) (title c) (run_dir c)
    (n_procs c) (data_n_procs c) (depends c) (expected_time c) (parametric c)
    (notebook c) (kw_args c) (compute c) v (plot c) (sheet c)
    (state c) (is_compiled c) (is_time c) (no_restart c) (subdomains c)
    (level c) (job_id c).

Definition set_plot (c : Case) (v : bool) : Case :=
  mkCase (repo c) (dest c) (study c) (label c) (run_id c) (resu c) (title c) (run_dir c)
    (n_procs c) (data_n_procs c) (depends c) (expected_time c) (parametric c)
    (notebook c) (kw_args c) (compute c) (compare c) v (sheet c)
    (state c) (is_compiled c) (is_time c) (no_restart c) (subdomains c)
    (level c) (job_id c).

Definition set_is_time (c : Case) (v : option Z) : Case :=
  mkCase (repo c) (dest c) (study c) (label c) (run_id c) (resu c) (title c) (run_dir c)
    (n_procs c) (data_n_procs c) (depends c) (expected_time c) (parametric c)
    (notebook c) (kw_args c) (compute c) (compare c) (plot c) (sheet c)
    (state c) (is_compiled c) v (no_restart c) (subdomains c)
    (level c) (job_id c).

Definition set_no_restart (c : Case) (v : bool) : Case :=
  mkCase (repo c) (dest c) (study c) (label c) (run_id c) (resu c) (title c) (run_dir c)
    (n_procs c) (data_n_procs c) (depends c) (expected_time c) (parametric c)
    (notebook c) (kw_args c) (compute c) (compare c) (plot c) (sheet c)
    (state c) (is_compiled c) (is_time c) v (subdomains c)
    (level c) (job_id c).

Definition set_is_compiled (c : Case) (v : option string) : Case :=
  mkCase (repo c) (dest c) (study c) (label c) (run_id c) (resu c) (title c) (run_dir c)
    (n_procs c) (data_n_procs c) (depends c) (expected_time c) (parametric c)
    (notebook c) (kw_args c) (compute c) (compare c) (plot c) (sheet c)
    (state c) v (is_time c) (no_restart c) (subdomains c)
    (level c) (job_id c).

(** The heap of [Case] objects. *)
Definition store : Type := ref -> Case.

Definition upd (s : store) (r : ref) (c : Case) : store :=
  fun r' => if Nat.eqb r' r then c else s r'.

(** The composite key [study/label/resu/run_id] that [add_node] rebuilds for
    every neighbor. *)
Definition neighbor_name (c : Case) : string :=
  study c ^^ "/" ^^ label c ^^ "/" ^^ resu c ^^ "/" ^^ run_id c.

(** ** class dependency_graph *)

Module Graph.

(** An [OrderedDict] from cases to [None] or to the case they depend on:
    an association list in insertion order, without duplicate keys. *)
Definition dict : Type := list (ref * option ref).

Fixpoint dict_get (d : dict) (k : ref) : option (option ref) :=
  match d with
  | [] => None
  | (k', v) :: d' => if Nat.eqb k' k then Some v else dict_get d' k
  end.

Definition dict_mem (k : ref) (d : dict) : bool :=
  match dict_get d k with
  | Some _ => true
  | None => false
  end.

(** [d[k] = v]: an existing key keeps its position, a new key goes last. *)
Fixpoint dict_set (d : dict) (k : ref) (v : option ref) : dict :=
  match d with
  | [] => [(k, v)]
  | (k', v') :: d' =>
      if Nat.eqb k' k then (k', v) :: d' else (k', v') :: dict_set d' k v
  end.

Definition dict_keys (d : dict) : list ref := map fst d.

Record dependency_graph : Type := mkGraph {
  graph_dict : dict;
  max_level : Z;
  max_proc : Z
}.

(** [__init__] *)
Definition init : dependency_graph := mkGraph [] 0 0.

Definition with_dict (g : dependency_graph) (d : dict) : dependency_graph :=
  mkGraph d (max_level g) (max_proc g).

Definition with_max_level (g : dependency_graph) (l : Z) : dependency_graph :=
  mkGraph (graph_dict g) l (max_proc g).

Definition with_max_proc (g : dependency_graph) (p : Z) : dependency_graph :=
  mkGraph (graph_dict g) (max_level g) p.

(** Truth value of a dictionary value: [None] is false, a [Case] object is
    true since the class defines neither [__bool__] nor [__len__]. *)
Definition truthy_node (v : option ref) : bool :=
  match v with
  | None => false
  | Some _ => true
  end.

(** [add_dependency(self, (node1, node2))]: the new graph and the returned
    message ([None] when the method falls off its end). *)
Definition add_dependency (g : dependency_graph) (s : store)
    (node1 node2 : ref) : result (dependency_graph * option string) :=
  match dict_get (graph_dict g) node1 with
  | None => Raise KeyError
  | Some v =>
      if negb (truthy_node v) then
        Ok (with_dict g (dict_set (graph_dict g) node1 (Some node2)), None)
      else
        Ok (g, Some ("Error in dependency graph" ^^ title (s node1)
                       ^^ " can only" ^^ " have one dependency." ^^ nl))
  end.

(** The [for neighbor in self.graph_dict] loop of [add_node], left at the
    first neighbor whose name is [case.depends]. *)
Fixpoint add_node_scan (keys : list ref) (g : dependency_graph) (s : store)
    (case : ref) (dep : string) : result (dependency_graph * store) :=
  match keys with
  | [] => Ok (g, s)
  | neighbor :: keys' =>
      if String.eqb (neighbor_name (s neighbor)) dep then
        '(g1, _) <- add_dependency g s case neighbor ;;
        match level (s neighbor) with
        | None => Raise TypeError
        | Some l =>
            let s1 := upd s case (set_level (s case) (Some (l + 1))) in
            Ok (with_max_level g1 (py_max (max_level g1) (l + 1)), s1)
        end
      else add_node_scan keys' g s case dep
  end.

Definition dangling_msg (c : Case) (dep : string) : string :=
  "Dependency " ^^ dep ^^ " was not found in the list "
    ^^ "of considered cases. " ^^ title c ^^ " will be considered "
    ^^ "without dependency in the graph. Please check that the "
    ^^ "required results exist." ^^ nl.

(** [add_node(self, case)] *)
Definition add_node (g : dependency_graph) (s : store) (case : ref)
    : result (dependency_graph * store * option string) :=
  if dict_mem case (graph_dict g) then Ok (g, s, None)
  else
    let g0 := with_dict g (dict_set (graph_dict g) case None) in
    '(g1, s1, msg) <-
      (if truthy_str (depends (s case)) then
         let dep := match depends (s case) with Some d => d | None => EmptyString end in
         '(g1, s1) <- add_node_scan (dict_keys (graph_dict g0)) g0 s case dep ;;
         match level (s1 case) with
         | None =>
             Ok (g1, upd s1 case (set_level (s1 case) (Some 0)),
                 Some (dangling_msg (s1 case) dep))
         | Some _ => Ok (g1, s1, None)
         end
       else
         Ok (g0, upd s case (set_level (s case) (Some 0)), None)) ;;
    Ok (with_max_proc g1 (py_max (max_proc g1) (n_procs (s1 case))), s1, msg).

(** Successive calls of [add_node], as in the loops of [dump_graph]: the
    warnings are collected in the order of the calls. *)
Fixpoint add_nodes (g : dependency_graph) (s : store) (cases : list ref)
    : result (dependency_graph * store * list (option string)) :=
  match cases with
  | [] => Ok (g, s, [])
  | case :: cases' =>
      '(g1, s1, msg) <- add_node g s case ;;
      '(g2, s2, msgs) <- add_nodes g1 s1 cases' ;;
      Ok (g2, s2, msg :: msgs)
  end.

(** [nodes(self)] *)
Definition nodes (g : dependency_graph) : list ref := dict_keys (graph_dict g).

(** Iterating a dictionary value in [for neighbor in self.graph_dict[node]]:
    [None] is not iterable, and neither is a [Case] object, whose class
    defines neither [__iter__] nor [__getitem__]. *)
Definition iter_node (v : option ref) : result (list ref) :=
  match v with
  | None => Raise TypeError
  | Some _ => Raise TypeError
  end.

Fixpoint pair_in (p : ref * ref) (l : list (ref * ref)) : bool :=
  match l with
  | [] => false
  | q :: l' =>
      (Nat.eqb (fst q) (fst p) && Nat.eqb (snd q) (snd p)) || pair_in p l'
  end.

Fixpoint dependencies_inner (node : ref) (neighbors : list ref)
    (acc : list (ref * ref)) : list (ref * ref) :=
  match neighbors with
  | [] => acc
  | neighbor :: rest =>
      dependencies_inner node rest
        (if negb (pair_in (neighbor, node) acc) then acc ++ [(node, neighbor)]
         else acc)
  end.

Fixpoint dependencies_loop (g : dependency_graph) (keys : list ref)
    (acc : list (ref * ref)) : result (list (ref * ref)) :=
  match keys with
  | [] => Ok acc
  | node :: keys' =>
      match dict_get (graph_dict g) node with
      | None => Raise KeyError
      | Some v =>
          neighbors <- iter_node v ;;
          dependencies_loop g keys' (dependencies_inner node neighbors acc)
      end
  end.

(** [dependencies(self)] *)
Definition dependencies (g : dependency_graph) : result (list (ref * ref)) :=
  dependencies_loop g (dict_keys (graph_dict g)) [].

(** [__str__(self)] *)
Definition str (g : dependency_graph) (s : store) : result string :=
  let res := nl ^^ "List of cases: " in
  let res := fold_left (fun r node => r ^^ title (s node) ^^ " ") (nodes g) res in
  let res := res ^^ nl ^^ "List of dependencies: " in
  deps <- dependencies g ;;
  Ok (fold_left
        (fun r (d : ref * ref) =>
           r ^^ nl ^^ title (s (fst d)) ^^ " depends on " ^^ title (s (snd d)))
        deps res).

(** One iteration of [extract_sub_graph]: the two filters, then [add_node]
    on the sub-graph.  A warning of [add_node] reaches [self.reporting],
    which [dependency_graph] does not define. *)
Definition extract_step (filter_level filter_n_procs : option Z)
    (acc : dependency_graph * store) (node : ref)
    : result (dependency_graph * store) :=
  let '(sub_graph, s) := acc in
  keep_node_l <-
    match filter_level with
    | None => Ok true
    | Some fl =>
        match level (s node) with
        | None => Raise TypeError
        | Some l => Ok (Z.eqb l fl)
        end
    end ;;
  let keep_node_p :=
    match filter_n_procs with
    | None => true
    | Some fp => Z.eqb (n_procs (s node)) fp
    end in
  if keep_node_l && keep_node_p then
    '(sub_graph1, s1, msg) <- add_node sub_graph s node ;;
    if truthy_str msg then Raise AttributeError else Ok (sub_graph1, s1)
  else Ok (sub_graph, s).

Fixpoint extract_loop (filter_level filter_n_procs : option Z)
    (keys : list ref) (acc : dependency_graph * store)
    : result (dependency_graph * store) :=
  match keys with
  | [] => Ok acc
  | node :: keys' =>
      acc1 <- extract_step filter_level filter_n_procs acc node ;;
      extract_loop filter_level filter_n_procs keys' acc1
  end.

(** [extract_sub_graph(self, filter_level, filter_n_procs)] *)
Definition extract_sub_graph (g : dependency_graph) (s : store)
    (filter_level filter_n_procs : option Z)
    : result (dependency_graph * store) :=
  extract_loop filter_level filter_n_procs (dict_keys (graph_dict g)) (init, s).

End Graph.

(** ** Python string and list helpers *)

Definition dq : string := String (ascii_of_nat 34) EmptyString.

(** [s.find(" ") < 0] *)
Definition no_space (s : string) : bool :=
  match String.index 0 " " s with
  | Some _ => false
  | None => true
  end.

(** [s.split(sep)] for a one-character separator. *)
Fixpoint split_sep (sep : ascii) (s : string) : list string :=
  match s with
  | EmptyString => [EmptyString]
  | String c s' =>
      if Ascii.eqb c sep then EmptyString :: split_sep sep s'
      else
        match split_sep sep s' with
        | [] => [String c EmptyString]
        | w :: ws => String c w :: ws
        end
  end.

(** [c.isspace()].  A character of a modelled string is a code point below
    256; among these, the white space of [str] is the space, the controls
    9 to 13 and 28 to 31, the next-line control U+0085 and the no-break
    space U+00A0. *)
Definition is_space (c : ascii) : bool :=
  let n := nat_of_ascii c in
  (Nat.eqb n 32 || (Nat.leb 9 n && Nat.leb n 13) || (Nat.leb 28 n && Nat.leb n 31)
   || Nat.eqb n 133 || Nat.eqb n 160)%bool.

(** [s.split()]: runs of white space separate the words, none is empty. *)
Fixpoint split_ws_aux (s : string) (cur : string) : list string :=
  match s with
  | EmptyString =>
      if String.eqb cur EmptyString then [] else [cur]
  | String c s' =>
      if is_space c then
        if String.eqb cur EmptyString then split_ws_aux s' EmptyString
        else cur :: split_ws_aux s' EmptyString
      else split_ws_aux s' (cur ^^ String c EmptyString)
  end.

Definition split_ws (s : string) : list string := split_ws_aux s EmptyString.

(** [l[-k]] for [k >= 1]. *)
Definition nth_back (l : list string) (k : nat) : result string :=
  if Nat.ltb (List.length l) k then Raise IndexError
  else
    match nth_error l (List.length l - k) with
    | Some x => Ok x
    | None => Raise IndexError
    end.

Fixpoint str_in (x : string) (l : list string) : bool :=
  match l with
  | [] => false
  | y :: l' => (String.eqb y x || str_in x l')%bool
  end.

(** [l.index(x)] once [x in l] holds. *)
Fixpoint list_index (x : string) (l : list string) : nat :=
  match l with
  | [] => 0
  | y :: l' => if String.eqb y x then 0%nat else S (list_index x l')
  end.

(** ** States of a run directory ([cs_case.case_state]) *)

(** Modelled from the spec: the enumeration [case_state] of
    [code_saturne.base.cs_case], which is not part of the sources at hand; its
    members are those named in [Studies.report_state] and in the section on
    the state inspector. *)
Inductive case_state : Type :=
| UNKNOWN
| STAGING
| STAGED
| PREPROCESSED
| RUNNING
| COMPUTED
| FINALIZING
| FINALIZED
| EXCEEDED_TIME_LIMIT
| FAILED.

Definition is_finalized (st : case_state) : bool :=
  match st with
  | FINALIZED => true
  | _ => false
  end.

(** ** Methods of class Case *)

Module CaseM.

Section Methods.

(** The file system, the [os.path] functions and the external commands are
    the environment of a case. *)
Variable os_path_join : list string -> string.
Variable os_path_normpath : string -> string.
Variable os_path_isdir : string -> bool.
Variable os_path_isfile : string -> bool.
Variable os_listdir : string -> list string.

(** [pkg.get_dir('bindir')] and [self.exe]. *)
Variable bindir : string.
Variable exe : string.

(** The [path] attribute of the [restart] node of a [setup.xml] file, [None]
    when [calculation_management], [start_restart] or [restart] is missing. *)
Variable restart_path : string -> option string.

(** [get_case_state(run_folder, coupling, run_timeout)], of [cs_case]. *)
Variable info : Type.
Variable get_case_state : string -> bool -> Z -> case_state * info.

(** The result [(return code, elapsed time)] of the [n]-th call of
    [run_studymanager_command], on the command it is given. *)
Variable run_studymanager_command : nat -> string -> Z * Z.

(** [str(t)] on an elapsed time. *)
Variable str_time : Z -> string.

(** [s.split()]: the words of [s] that its white space separates.
    [split_ws] computes them on strings of code points below 256. *)
Variable str_split : string -> list string.

(** The part of [__query_dependence__] that reads [DATA/setup.xml]. *)
Definition setup_restart_path (c : Case) : option string :=
  let data_folder := os_path_join [repo c; label c; "DATA"%string] in
  let data_file :=
    if os_path_isdir data_folder then
      if str_in "setup.xml" (os_listdir data_folder) then
        os_path_join [repo c; label c; "DATA"%string; "setup.xml"%string]
      else EmptyString
    else EmptyString in
  if os_path_isfile data_file then restart_path data_file else None.

(** The dependency declared by the restart path of [setup.xml]. *)
Definition depends_of_path (c : Case) (path : option string)
    : result (option string) :=
  if truthy_str path then
    let list_path :=
      split_sep "/" (match path with Some p => p | None => EmptyString end) in
    if Nat.ltb 4 (List.length list_path) then
      run_id_depends <- nth_back list_path 2 ;;
      case_depends <- nth_back list_path 4 ;;
      resu_depends <- nth_back list_path 3 ;;
      Ok (Some (os_path_join [study c; case_depends; resu_depends; run_id_depends]))
    else Ok None
  else Ok None.

(** The loop [for tag in ["-r", "--restart"]] on the parametric arguments. *)
Fixpoint depends_of_tags (c : Case) (list_param : list string)
    (tags : list string) (depends : option string) : result (option string) :=
  match tags with
  | [] => Ok depends
  | tag :: tags' =>
      if str_in tag list_param then
        match nth_error list_param (list_index tag list_param + 1) with
        | None => Raise IndexError
        | Some run_id_depends =>
            let run_path :=
              os_path_join [study c; label c; resu c; run_id_depends] in
            depends_of_tags c list_param tags' (Some (os_path_normpath run_path))
        end
      else depends_of_tags c list_param tags' depends
  end.

(** The dependency inferred from [setup.xml], overwritten by the one of the
    parametric arguments: the value of [depends] when [__query_dependence__]
    reaches the check of the run folder. *)
Definition infer_depends (c : Case) : result (option string) :=
  depends <- depends_of_path c (setup_restart_path c) ;;
  if truthy_str (parametric c) then
    depends_of_tags c
      (str_split
         (match parametric c with Some p => p | None => EmptyString end))
      ["-r"%string; "--restart"%string] depends
  else Ok depends.

Definition run_folder (c : Case) (depends : string) : string :=
  os_path_normpath (os_path_join [dest c; ".."%string; depends]).

(** [__query_dependence__(self)]: the returned dependency and the case as the
    method leaves it. *)
Definition query_dependence (c : Case) : result (option string * Case) :=
  depends <- infer_depends c ;;
  if truthy_str depends then
    let d := match depends with Some d => d | None => EmptyString end in
    if os_path_isdir (run_folder c d) then
      let is_coupling :=
        match subdomains c with Some _ => true | None => false end in
      let '(st, _) := get_case_state (run_folder c d) is_coupling 3600 in
      if is_finalized st then Ok (None, c)
      else
        Ok (depends,
            set_plot (set_compare (set_compute (set_no_restart c true) false)
                        false) false)
    else Ok (depends, c)
  else Ok (None, c).

(** The end of [__init__]: a dependency of the smgr file is kept, otherwise
    it is queried. *)
Definition init_depends (c : Case) : result Case :=
  if negb (truthy_str (depends c)) then
    '(d, c1) <- query_dependence c ;;
    Ok (set_depends c1 d)
  else Ok c.

(** The [kw_args] part shared by the command builders, with its write to
    [self.kw_args]. *)
Definition add_kw_args (c : Case) (cmd : string) : string * Case :=
  if truthy_str (kw_args c) then
    let kw := match kw_args c with Some k => k | None => EmptyString end in
    let kw1 := if no_space kw then kw ^^ " " else kw in
    (cmd ^^ " --kw-args " ^^ dq ^^ kw1 ^^ dq, set_kw_args c (Some kw1))
  else (cmd, c).

(** [build_run_cmd(self, resource_name, mem_log)] *)
Definition build_run_cmd (c : Case) (resource_name : option string)
    (mem_log : bool) : string * Case :=
  let e := os_path_join [bindir; exe] in
  let refdir := os_path_join [repo c; label c] in
  let run_cmd := e ^^ " run --no-stage" ^^ " --case " ^^ refdir
                   ^^ " --dest " ^^ dest c ^^ " --id " ^^ run_id c in
  let run_cmd := if mem_log then run_cmd ^^ " --mem-log" else run_cmd in
  let '(run_cmd, c1) := add_kw_args c run_cmd in
  let run_cmd :=
    match data_n_procs c1 with
    | Some n => if truthy_str (Some n) then run_cmd ^^ " -n " ^^ n else run_cmd
    | None => run_cmd
    end in
  let run_cmd :=
    match resource_name with
    | Some r => if truthy_str (Some r) then run_cmd ^^ " --with-resource " ^^ r
                else run_cmd
    | None => run_cmd
    end in
  (run_cmd, c1).

(** [build_run_batch(self, resource_name, mem_log)] *)
Definition build_run_batch (c : Case) (resource_name : option string)
    (mem_log : bool) : string * Case :=
  let run_cmd_batch := "cd " ^^ run_dir c ^^ nl in
  let '(cmd, c1) := build_run_cmd c resource_name mem_log in
  (run_cmd_batch ^^ cmd ^^ " >> run_case.log 2>&1" ^^ nl ^^ nl, c1).


(** [run(self, resource_name, mem_log)] on the case at [r], as the [n]-th
    external command: the store it leaves and the pair it returns. *)
Definition run (n : nat) (s : store) (r : ref) (resource_name : option string)
    (mem_log : bool) : store * (Z * bool) :=
  let '(run_cmd, c1) := build_run_cmd (s r) resource_name mem_log in
  let '(error, t) := run_studymanager_command n run_cmd in
  let c2 := set_is_time c1 (Some t) in
  let mem_log_leak_code := 2 in
  let '(error, mem_log_leak) :=
    if mem_log then
      if negb (Z.eqb (Z.land error mem_log_leak_code) 0)
      then (error - mem_log_leak_code, true)
      else (error, false)
    else (error, false) in
  let c3 :=
    if negb (Z.eqb error 0) then set_plot (set_compare c2 false) false
    else c2 in
  (upd s r c3, (error, mem_log_leak)).

(** The staging command of [prepare_run_folder], built the same way in its
    two branches, with the write to [self.kw_args]. *)
Definition stage_cmd (c : Case) : string * Case :=
  let e := os_path_join [bindir; exe] in
  let refdir := os_path_join [repo c; label c] in
  let cmd := e ^^ " run --stage --case " ^^ refdir
               ^^ " --dest " ^^ dest c ^^ " --id " ^^ run_id c in
  let cmd :=
    if truthy_str (notebook c) then
      cmd ^^ " --notebook-args "
          ^^ match notebook c with Some x => x | None => EmptyString end
    else cmd in
  let cmd :=
    if truthy_str (parametric c) then
      cmd ^^ " --parametric-args " ^^ dq
          ^^ match parametric c with Some x => x | None => EmptyString end ^^ dq
    else cmd in
  add_kw_args c cmd.

(** The loop of [prepare_run_folder] on [os.listdir(refdir)] for a coupled
    case.  The state is the number of external commands issued so far, the
    case (its [kw_args] may be completed), [retval] and the time [t] of the
    last command, unbound before the first one. *)
Fixpoint stage_subdomains (listing : list string) (doms : list string)
    (n : nat) (c : Case) (retval : Z) (t : option Z)
    : nat * Case * Z * option Z :=
  match listing with
  | [] => (n, c, retval, t)
  | node :: listing' =>
      if str_in node doms then
        let '(cmd, c1) := stage_cmd c in
        let '(node_retval, t1) := run_studymanager_command n cmd in
        stage_subdomains listing' doms (S n) c1 (Z.min node_retval retval)
          (Some t1)
      else stage_subdomains listing' doms n c retval t
  end.

(** The return codes that the staging commands of the sub-domains give to
    the loop above, in the order of the calls. *)
Fixpoint subdomain_retvals (listing : list string) (doms : list string)
    (n : nat) (c : Case) : list Z :=
  match listing with
  | [] => []
  | node :: listing' =>
      if str_in node doms then
        let '(cmd, c1) := stage_cmd c in
        fst (run_studymanager_command n cmd)
          :: subdomain_retvals listing' doms (S n) c1
      else subdomain_retvals listing' doms n c
  end.

Definition truthy_list (o : option (list string)) : bool :=
  match o with
  | Some (_ :: _) => true
  | _ => false
  end.

(** [prepare_run_folder(self)] on the case at [r], the external commands
    being numbered from [n]: the log lines it returns and the store it
    leaves.  The copies and moves of files are not part of the model. *)
Definition prepare_run_folder (n : nat) (s : store) (r : ref)
    : result (list string * store) :=
  let c := s r in
  let log_path :=
    os_path_join [dest c; "run_" ^^ label c ^^ "_" ^^ run_id c ^^ ".log"] in
  let '(c1, retval, t, have_status_prepared) :=
    if truthy_list (subdomains c) then
      let doms := match subdomains c with Some d => d | None => [] end in
      let refdir := os_path_join [repo c; label c] in
      let '(_, c1, retval, t) :=
        stage_subdomains (os_listdir refdir) doms n c 1 None in
      (c1, retval, t, false)
    else
      let '(cmd, c1) := stage_cmd c in
      let have_status_prepared :=
        os_path_isfile (os_path_join [run_dir c1; "run_status.prepared"%string]) in
      let '(retval, t) := run_studymanager_command n cmd in
      (c1, retval, Some t, have_status_prepared) in
  match t with
  | None => Raise UnboundLocalError
  | Some t =>
      if Z.eqb retval 0 then
        Ok (["      * prepare run folder: " ^^ title c1 ^^ " --> OK ("
               ^^ str_time t ^^ " s)"],
            upd s r c1)
      else
        let have_case_log :=
          os_path_isfile (os_path_join [run_dir c1; "run_case.log"%string]) in
        let fail_info :=
          if have_case_log then
            if have_status_prepared then "SKIPPED (already prepared)"%string
            else "SKIPPED (already present)"%string
          else "FAILED"%string in
        let log_lines :=
          ["      * prepare run folder: " ^^ title c1 ^^ " --> " ^^ fail_info
             ^^ " (" ^^ str_time t ^^ " s)"] in
        if negb have_status_prepared then
          Ok (log_lines ++ ["        - see " ^^ log_path],
              upd s r (set_compute c1 false))
        else Ok (log_lines, upd s r c1)
  end.

End Methods.

End CaseM.

(** ** Slurm batches of class Studies *)

Module Slurm.

(** [range(n)] *)
Definition range (n : Z) : list Z := map Z.of_nat (seq 0 (Z.to_nat n)).

(** The batch under construction in [run_slurm_batches]. *)
Record batch : Type := mkBatch {
  batch_cmd : string;
  cur_batch_size : Z;
  batch_total_time : Z;
  dep_job_id_list : list (option string);
  cases_list : list ref
}.

Definition empty_batch : batch := mkBatch EmptyString 0 0 [] [].

(** One call of [sbatch]: the content of the script and the dependency
    list of the command line. *)
Record submission : Type := mkSubmission {
  sub_batch_id : Z;
  sub_ntasks : Z;
  sub_hh : Z;
  sub_mm : Z;
  sub_options : list string;
  sub_dependency : list (option string);
  sub_script : string;
  sub_time : Z;
  sub_cases : list ref
}.

(** What [run_slurm_batches] carries from one case to the next. *)
Record sched : Type := mkSched {
  sc_store : store;
  sc_batch : batch;
  cur_batch_id : Z;
  tot_job_id_list : list string;
  submitted : list submission
}.

Definition opt_str_eqb (a b : option string) : bool :=
  match a, b with
  | None, None => true
  | Some x, Some y => String.eqb x y
  | _, _ => false
  end.

Fixpoint opt_str_in (x : option string) (l : list (option string)) : bool :=
  match l with
  | [] => false
  | y :: l' => (opt_str_eqb y x || opt_str_in x l')%bool
  end.

Fixpoint stamp_job_id (s : store) (cases : list ref) (j : string) : store :=
  match cases with
  | [] => s
  | item :: cases' =>
      stamp_job_id (upd s item (set_job_id (s item) (Some j))) cases' j
  end.

Section Studies.

Variable os_path_join : list string -> string.
Variable bindir : string.
Variable exe : string.

(** The job identifier that [re.search] finds in the output of the [sbatch]
    call for a batch file, [None] when the output holds none. *)
Variable sbatch_job_id : Z -> option string.

(** The attributes of [Studies] read by the slurm methods. *)
Variable slurm_batch_wtime : Z.
Variable slurm_batch_args : list string.
Variable mem_log : bool.
Variable n_study : Z.
Variable final_batch : string.

(** The graph [self.graph] of the studies. *)
Variable graph : Graph.dependency_graph.

(** *** check_slurm_batches *)

Definition count_short (s : store) (cases : list ref) (nb : Z) : Z :=
  fold_left
    (fun nb case => if Z.ltb (expected_time (s case)) 5 then nb + 1 else nb)
    cases nb.

Fixpoint check_nproc_loop (level : Z) (nprocs : list Z) (acc : Z * store)
    : result (Z * store) :=
  match nprocs with
  | [] => Ok acc
  | nproc :: nprocs' =>
      let '(nb, s) := acc in
      '(sub, s1) <-
        Graph.extract_sub_graph graph s (Some level) (Some (nproc + 1)) ;;
      check_nproc_loop level nprocs' (count_short s1 (Graph.nodes sub) nb, s1)
  end.

Fixpoint check_level_loop (levels : list Z) (acc : Z * store)
    : result (Z * store) :=
  match levels with
  | [] => Ok acc
  | level :: levels' =>
      acc1 <- check_nproc_loop level (range (Graph.max_proc graph)) acc ;;
      check_level_loop levels' acc1
  end.

(** [check_slurm_batches(self)]: the value of [self.__slurm_batch_size]
    and the store when the method returns. *)
Definition check_slurm_batches (slurm_batch_size : Z) (s : store)
    : result (Z * store) :=
  if Z.eqb slurm_batch_size 1 then
    '(nb_cases_short, s1) <-
      check_level_loop (range (Graph.max_level graph + 1)) (0, s) ;;
    if Z.ltb 50 nb_cases_short then Ok (50, s1) else Ok (slurm_batch_size, s1)
  else Ok (slurm_batch_size, s).

(** *** run_slurm_batches *)

(** The statements that put a case in the current batch; the source writes
    them twice, before and after the submission of the previous batch. *)
Definition append_case (level : Z) (st : sched) (case : ref) : result sched :=
  let s := sc_store st in
  let b := sc_batch st in
  let '(cmd, c1) := CaseM.build_run_batch os_path_join bindir exe (s case) None mem_log in
  let s1 := upd s case c1 in
  deps <-
    (if Z.ltb 0 level then
       match Graph.dict_get (Graph.graph_dict graph) case with
       | None => Raise KeyError
       | Some None => Raise AttributeError
       | Some (Some parent) =>
           let depend_id := job_id (s1 parent) in
           if negb (opt_str_in depend_id (dep_job_id_list b))
           then Ok (dep_job_id_list b ++ [depend_id])
           else Ok (dep_job_id_list b)
       end
     else Ok (dep_job_id_list b)) ;;
  Ok (mkSched s1
        (mkBatch (batch_cmd b ^^ cmd) (cur_batch_size b + 1)
           (batch_total_time b + expected_time (s1 case)) deps
           (cases_list b ++ [case]))
        (cur_batch_id st) (tot_job_id_list st) (submitted st)).

(** The submission of the current batch.  [in_loop] tells the submission in
    the loop on the cases from the one after it, whose script has no
    [--nodes] lines. *)
Definition submit (in_loop : bool) (level nproc : Z) (st : sched)
    : result sched :=
  let b := sc_batch st in
  let opts :=
    (if Z.ltb 5 (nproc + 1) then ["#SBATCH --exclusive"%string]
     else if in_loop then ["#SBATCH --nodes=1"%string;
                           "#SBATCH --ntasks-per-core=1"%string]
          else [])
      ++ map (fun p => "#SBATCH " ^^ p) slurm_batch_args in
  let dependency := if Z.ltb level 1 then [] else dep_job_id_list b in
  match sbatch_job_id (cur_batch_id st) with
  | None => Raise AttributeError
  | Some j =>
      Ok (mkSched (stamp_job_id (sc_store st) (cases_list b) j)
            empty_batch
            (cur_batch_id st + 1)
            (tot_job_id_list st ++ [j])
            (submitted st ++
               [mkSubmission (cur_batch_id st) (nproc + 1)
                  (batch_total_time b / 60) (batch_total_time b mod 60)
                  opts dependency (batch_cmd b) (batch_total_time b)
                  (cases_list b)]))
  end.

(** The body of the loop on the cases of one (level, nproc) cell. *)
Definition case_step (slurm_batch_size level nproc : Z) (st : sched)
    (case : ref) : result sched :=
  let c := sc_store st case in
  if (compute c && negb (opt_str_eqb (is_compiled c) (Some "KO"%string)))%bool then
    let b := sc_batch st in
    let fits :=
      (Z.eqb (cur_batch_size b) 0
       || Z.ltb (batch_total_time b + expected_time c) slurm_batch_wtime)%bool in
    st1 <- (if fits then append_case level st case else Ok st) ;;
    let submit_prev := negb fits in
    let b1 := sc_batch st1 in
    st2 <-
      (if (Z.leb slurm_batch_size (cur_batch_size b1) || submit_prev
           || Z.leb slurm_batch_wtime (batch_total_time b1))%bool
       then submit true level nproc st1 else Ok st1) ;;
    if submit_prev then append_case level st2 case else Ok st2
  else Ok st.

Fixpoint cases_loop (slurm_batch_size level nproc : Z) (cases : list ref)
    (st : sched) : result sched :=
  match cases with
  | [] => Ok st
  | case :: cases' =>
      st1 <- case_step slurm_batch_size level nproc st case ;;
      cases_loop slurm_batch_size level nproc cases' st1
  end.

(** One (level, nproc) cell on the cases it holds: the loop, then the
    submission of the batch left open. *)
Definition run_cell_cases (slurm_batch_size level nproc : Z)
    (cases : list ref) (st : sched) : result sched :=
  st1 <- cases_loop slurm_batch_size level nproc cases
           (mkSched (sc_store st) empty_batch (cur_batch_id st)
              (tot_job_id_list st) (submitted st)) ;;
  if Z.ltb 0 (cur_batch_size (sc_batch st1))
  then submit false level nproc st1 else Ok st1.

(** One (level, nproc) cell of [run_slurm_batches]. *)
Definition run_cell (slurm_batch_size level nproc : Z) (st : sched)
    : result sched :=
  '(sub, s1) <-
    Graph.extract_sub_graph graph (sc_store st) (Some level) (Some (nproc + 1)) ;;
  run_cell_cases slurm_batch_size level nproc (Graph.nodes sub)
    (mkSched s1 (sc_batch st) (cur_batch_id st) (tot_job_id_list st)
       (submitted st)).

Fixpoint run_nproc_loop (slurm_batch_size level : Z) (nprocs : list Z)
    (st : sched) : result sched :=
  match nprocs with
  | [] => Ok st
  | nproc :: nprocs' =>
      st1 <- run_cell slurm_batch_size level nproc st ;;
      run_nproc_loop slurm_batch_size level nprocs' st1
  end.

Fixpoint run_level_loop (slurm_batch_size : Z) (levels : list Z) (st : sched)
    : result sched :=
  match levels with
  | [] => Ok st
  | level :: levels' =>
      st1 <- run_nproc_loop slurm_batch_size level
               (range (Graph.max_proc graph)) st ;;
      run_level_loop slurm_batch_size levels' st1
  end.

(** [run_slurm_batches(self, state_file_name, job_name)]: the batches of
    the cells, then the final submission, which reads [batch_cmd] and finds
    it unbound when no cell was visited. *)
Definition run_slurm_batches (slurm_batch_size : Z) (s : store)
    : result sched :=
  st <- run_level_loop slurm_batch_size (range (Graph.max_level graph + 1))
          (mkSched s empty_batch 0 [] []) ;;
  if (Z.leb (Graph.max_proc graph) 0 || Z.leb (Graph.max_level graph + 1) 0)%bool
  then Raise UnboundLocalError
  else
    Ok (mkSched (sc_store st) (sc_batch st) (cur_batch_id st)
          (tot_job_id_list st)
          (submitted st ++
             [mkSubmission (cur_batch_id st) 1
                (n_study * 10 / 60) ((n_study * 10) mod 60)
                (map (fun p => "#SBATCH " ^^ p) slurm_batch_args)
                (map Some (tot_job_id_list st))
                (batch_cmd (sc_batch st) ^^ final_batch)
                (n_study * 10) []])).

End Studies.

End Slurm.

(** ** Checks of the result directories (class Case) *)

Module CaseChecks.

(** [nodot(item)]: the first character of an empty name does not exist. *)
Definition nodot (item : string) : result bool :=
  match item with
  | EmptyString => Raise IndexError
  | String c _ => Ok (negb (Ascii.eqb c "."))
  end.

(** [list(filter(nodot, l))] *)
Fixpoint filter_nodot (l : list string) : result (list string) :=
  match l with
  | [] => Ok []
  | item :: l' =>
      b <- nodot item ;;
      rest <- filter_nodot l' ;;
      Ok (if b then item :: rest else rest)
  end.

Section Checks.

Variable os_path_join : list string -> string.
Variable os_path_basename : string -> string.
Variable os_path_isdir : string -> bool.
Variable os_path_isfile : string -> bool.
Variable os_listdir : string -> list string.

(** [run_ok(self, run_dir)] *)
Definition run_ok (c : Case) (run_dir : string) : bool * string :=
  if negb (os_path_isdir run_dir) then
    (false, "Error: the result directory " ^^ run_dir ^^ " does not exist.")
  else
    let msg := EmptyString in
    let ok := true in
    let f_error := os_path_join [run_dir; "error"%string] in
    let '(ok, msg) :=
      if os_path_isfile f_error then
        (false, msg ^^ "the result directory " ^^ os_path_basename run_dir
                  ^^ " in case " ^^ title c ^^ " contains an error file.")
      else (ok, msg) in
    let f_summary := os_path_join [run_dir; "summary"%string] in
    let '(ok, msg) :=
      if negb (os_path_isfile f_summary) then
        (false, msg ^^ "the result directory " ^^ os_path_basename run_dir
                  ^^ " in case " ^^ title c
                  ^^ " does not contain any summary file.")
      else (ok, msg) in
    (ok, msg).

(** The end of the two branches of [check_dir], once [rep] is known: the
    directory must exist and [run_ok] must hold. *)
Definition check_rep (c : Case) (result_dir rep msg : string)
    : option string * option string :=
  let rep_f := os_path_join [result_dir; rep] in
  if negb (os_path_isdir rep_f) then
    (None, Some (msg ^^ "the result directory " ^^ rep_f ^^ " does not exist."))
  else
    let '(ok, msg1) := run_ok c rep_f in
    if negb ok then (None, Some (msg ^^ msg1)) else (Some rep, None).

(** [check_dir(self, node, result, rep, attr)]: the pair [(rep, msg)]. *)
Definition check_dir (c : Case) (result_dir rep : string)
    : result (option string * option string) :=
  let msg := "Warning: "%string in
  if negb (os_path_isdir result_dir) then
    Ok (None, Some (msg ^^ "the directory " ^^ result_dir ^^ " does not exist."))
  else if negb (String.eqb rep EmptyString) then
    Ok (check_rep c result_dir rep msg)
  else
    entries <- filter_nodot (os_listdir result_dir) ;;
    if Nat.eqb (List.length entries) 0 then
      Ok (None, Some (msg ^^ "there is no result directory in " ^^ result_dir
                        ^^ "."))
    else if (Nat.ltb 1 (List.length entries)
             && String.eqb (run_id c) "run1")%bool then
      Ok (None, Some (msg ^^ "there are several result directories in "
                        ^^ result_dir ^^ " and no run id specified."))
    else
      let rep := run_id c in
      rep <- (if String.eqb rep "run1" then
                match entries with
                | first :: _ => Ok first
                | [] => Raise IndexError
                end
              else Ok rep) ;;
      Ok (check_rep c result_dir rep msg).

(** [check_dirs(self, node, repo, dest, reference)] *)
Definition check_dirs (c : Case) (repo_rep dest_rep reference : option string)
    : result (option string) :=
  msg <-
    match repo_rep with
    | Some rep =>
        let result_dir :=
          if truthy_str reference then
            os_path_join [match reference with Some x => x | None => EmptyString end;
                          label c; resu c]
          else os_path_join [repo c; label c; resu c] in
        '(_, msg) <- check_dir c result_dir rep ;;
        Ok msg
    | None => Ok None
    end ;;
  match dest_rep with
  | Some rep =>
      let result_dir := os_path_join [dest c; label c; resu c] in
      '(_, msg) <- check_dir c result_dir rep ;;
      Ok msg
  | None => Ok msg
  end.

(** [check_file(self, folder, dest, file_name)] *)
Definition check_file (folder dest_dir file_name : string) : option string :=
  let file_addr := os_path_join [folder; dest_dir; file_name] in
  if negb (os_path_isfile file_addr) then
    Some ("    The file " ^^ file_addr ^^ " does not exist.")
  else None.

End Checks.

End CaseChecks.

(** ** Resources of a case ([Case.__query_config__]) *)

Module QueryConfig.

Section Resolve.

(** [str.lower] and the keys of [run_conf.sections]. *)
Variable lower : string -> string.
Variable sections : list string.

Definition specific_resource_name_rid (resource_name run_id : string)
    : string :=
  resource_name ^^ "/run_id=" ^^ lower run_id.

Definition specific_resource_name_tag (resource_name : string)
    (tags : list string) : list string :=
  map (fun tag => resource_name ^^ "/tag=" ^^ lower tag) tags.

(** [[tmp for tmp in specific_resource_name_tag if tmp in run_conf.sections]] *)
Definition common_tag (specific : list string) : list string :=
  filter (fun tmp => str_in tmp sections) specific.

(** The test [not resource_name or (not resource_name in run_conf.sections
    and not common_tag and not specific_resource_name_rid in
    run_conf.sections)], which sends the search to the next name. *)
Definition rejected (resource_name : option string) (run_id : string)
    (tags : list string) : bool :=
  match resource_name with
  | None => true
  | Some n =>
      (negb (truthy_str (Some n))
       || (negb (str_in n sections)
           && match common_tag (specific_resource_name_tag n tags) with
              | [] => true
              | _ :: _ => false
              end
           && negb (str_in (specific_resource_name_rid n run_id) sections)))%bool
  end.

(** The name that the search settles on: [resource_config['resource_name']]
    in lower case, then [resource_config['batch_name']], then
    [job_defaults]. *)
Definition resource_base (resource_name batch_name : option string)
    (run_id : string) (tags : list string) : string :=
  let resource_name :=
    if truthy_str resource_name then option_map lower resource_name
    else resource_name in
  if rejected resource_name run_id tags then
    if rejected batch_name run_id tags then "job_defaults"%string
    else match batch_name with Some n => n | None => EmptyString end
  else match resource_name with Some n => n | None => EmptyString end.

(** The section of [run.cfg] that [__query_config__] reads [n_procs],
    [job_header] and [expected_time] from. *)
Definition resource_section (resource_name batch_name : option string)
    (run_id : string) (tags : list string) : string :=
  let resource_name := resource_base resource_name batch_name run_id tags in
  if str_in (specific_resource_name_rid resource_name run_id) sections then
    specific_resource_name_rid resource_name run_id
  else
    match common_tag (specific_resource_name_tag resource_name tags) with
    | first :: _ => first
    | [] => resource_name
    end.

End Resolve.

Section ExpectedTime.

(** [int(...)] on a string. *)
Variable py_int : string -> result Z.

(** [tmp[:ind]] for [ind = tmp.find(":")]: without colon [ind] is -1 and the
    slice leaves the last character out. *)
Definition before_colon (tmp : string) : string :=
  match String.index 0 ":" tmp with
  | Some ind => String.substring 0 ind tmp
  | None => String.substring 0 (String.length tmp - 1) tmp
  end.

(** [tmp[-2:]] *)
Definition last_two (tmp : string) : string :=
  if Nat.leb 2 (String.length tmp)
  then String.substring (String.length tmp - 2) 2 tmp
  else tmp.

(** The expected time in minutes: the value [expected_time] of the section,
    a string of [run.cfg], or [resource_config['resource_exp_time']]. *)
Definition expected_time_minutes (value : option string)
    (resource_exp_time : Z) : result Z :=
  if truthy_str value then
    let tmp := match value with Some v => v | None => EmptyString end in
    hours <- py_int (before_colon tmp) ;;
    minutes <- py_int (last_two tmp) ;;
    Ok (hours * 60 + minutes)
  else Ok resource_exp_time.

End ExpectedTime.

End QueryConfig.

(** ** Compilation test and direct runs *)

Module StudiesM.

(** The test [case.compute or case.compare or case.plot or case.sheet or
    case.state] of [dump_graph]. *)
Definition active (c : Case) : bool :=
  (compute c || compare c || plot c || sheet c || state c)%bool.

(** The first loop of [dump_graph(self)], on the cases of all the studies:
    the global graph, the store and the lines reported.  The filters of
    [dump_graph], which compare with [is], are not part of the model. *)
Fixpoint global_graph (cases : list ref) (g : Graph.dependency_graph)
    (s : store) : result (Graph.dependency_graph * store * list string) :=
  match cases with
  | [] => Ok (g, s, [])
  | case :: cases' =>
      '(g1, s1, lines1) <-
        (if active (s case) then
           '(g1, s1, msg) <- Graph.add_node g s case ;;
           Ok (g1, s1,
               if truthy_str msg then
                 ["Warning in global graph: "
                    ^^ match msg with Some m => m | None => EmptyString end]
               else [])
         else Ok (g, s, [])) ;;
      lines2 <-
        (if no_restart (s1 case) then
           match depends (s1 case) with
           | Some d =>
               Ok [" WARNING: " ^^ title (s1 case) ^^ " was cancelled.";
                   " The restart folder seems problematic. See " ^^ d]
           | None => Raise TypeError
           end
         else Ok []) ;;
      '(g2, s2, lines3) <- global_graph cases' g1 s1 ;;
      Ok (g2, s2, lines1 ++ lines2 ++ lines3)
  end.

Section Compilation.

Variable os_path_join : list string -> string.

(** [files_to_compile(src_dir)] and the return code of [compile_and_link] on
    a source directory, of [cs_compile]. *)
Variable files_to_compile : string -> list string.
Variable compile_and_link : string -> Z.

(** The source directories of a case: one by sub-domain for a coupled
    case. *)
Definition source_dirs (c : Case) (study_path : string) : list string :=
  if CaseM.truthy_list (subdomains c) then
    map (fun sd => os_path_join [study_path; label c; sd; "SRC"%string])
        (match subdomains c with Some d => d | None => [] end)
  else [os_path_join [study_path; label c; "SRC"%string]].

(** The loop of [test_compilation] on the source directories: the value of
    [is_compiled] and [retcode]. *)
Fixpoint compile_loop (sdirs : list string) (is_compiled : option string)
    (retcode : Z) : option string * Z :=
  match sdirs with
  | [] => (is_compiled, retcode)
  | s :: sdirs' =>
      if Nat.ltb 0 (List.length (files_to_compile s)) then
        compile_loop sdirs' (Some "OK"%string) (retcode + compile_and_link s)
      else compile_loop sdirs' is_compiled retcode
  end.

(** [Case.test_compilation(self, study_path, log)]: the case it leaves and
    the status it returns. *)
Definition case_test_compilation (c : Case) (study_path : string)
    : Case * option string :=
  let '(is_compiled, retcode) :=
    compile_loop (source_dirs c study_path) None 0 in
  let is_compiled :=
    if Z.ltb 0 retcode then Some "KO"%string else is_compiled in
  (set_is_compiled c is_compiled, is_compiled).

(** The loop of [Studies.test_compilation] on the cases of the studies:
    the store and the count [iko] of the failures. *)
Fixpoint test_compilation (repo_dir : string) (cases : list ref) (s : store)
    (iko : Z) : store * Z :=
  match cases with
  | [] => (s, iko)
  | case :: cases' =>
      let study_path := os_path_join [repo_dir; study (s case)] in
      let '(c1, is_compiled) := case_test_compilation (s case) study_path in
      let s1 := upd s case c1 in
      let iko1 :=
        if Slurm.opt_str_eqb is_compiled (Some "OK"%string) then iko
        else if Slurm.opt_str_eqb is_compiled (Some "KO"%string) then iko + 1
             else iko in
      test_compilation repo_dir cases' s1 iko1
  end.

End Compilation.

Section Run.

Variable os_path_join : list string -> string.
Variable bindir : string.
Variable exe : string.
Variable run_studymanager_command : nat -> string -> Z * Z.
Variable resource_name : option string.
Variable mem_log : bool.

(** The loop of [Studies.run] on the nodes of the graph: [n] external
    commands have been issued so far. *)
Fixpoint run_loop (cases : list ref) (n : nat) (s : store) : nat * store :=
  match cases with
  | [] => (n, s)
  | case :: cases' =>
      let c := s case in
      if (compute c
          && negb (Slurm.opt_str_eqb (is_compiled c) (Some "KO"%string)))%bool
      then
        let '(s1, _) :=
          CaseM.run os_path_join bindir exe run_studymanager_command n s case
            resource_name mem_log in
        run_loop cases' (S n) s1
      else run_loop cases' n s
  end.

(** [Studies.run(self)] on the graph of the studies. *)
Definition run (graph : Graph.dependency_graph) (s : store) : nat * store :=
  run_loop (Graph.nodes graph) 0 s.

End Run.

End StudiesM.

(** ** Vocabulary of the properties *)

Module Spec.

Import Graph.

(** The two tests of [extract_sub_graph] on a node, read in the store the
    extraction starts from. *)
Definition keep (s : store) (filter_level filter_n_procs : option Z)
    (x : ref) : bool :=
  (match filter_level with
   | None => true
   | Some fl =>
       match level (s x) with
       | Some l => Z.eqb l fl
       | None => false
       end
   end
   &&
   match filter_n_procs with
   | None => true
   | Some fp => Z.eqb (n_procs (s x)) fp
   end)%bool.

(** The nodes up to the first occurrence of [x], [x] included: what the
    scan of [add_node] can meet when [x] is added after them. *)
Fixpoint upto (x : ref) (l : list ref) : list ref :=
  match l with
  | [] => []
  | y :: l' => if Nat.eqb y x then [y] else y :: upto x l'
  end.

(** A graph as successive [add_node] build it from fresh cases with
    distinct names: the nodes are distinct, levels and process counts are
    within the bounds of the graph, a case without dependency is at level 0
    and a case is one level above the node, met before it, that its
    dependency names. *)
Record well_formed (g : dependency_graph) (s : store) : Prop := {
  wf_nodup : NoDup (nodes g);
  wf_max : 0 <= max_level g;
  wf_level : forall x, In x (nodes g) ->
    exists l, level (s x) = Some l /\ 0 <= l <= max_level g;
  wf_procs : forall x, In x (nodes g) -> 1 <= n_procs (s x) <= max_proc g;
  wf_root : forall x, In x (nodes g) ->
    truthy_str (depends (s x)) = false -> level (s x) = Some 0;
  wf_child : forall x y l, In x (nodes g) -> In y (upto x (nodes g)) ->
    depends (s x) = Some (neighbor_name (s y)) ->
    level (s y) = Some l -> level (s x) = Some (l + 1)
}.

(** The cases of [l] have distinct composite keys. *)
Definition unique_names (s : store) (l : list ref) : Prop :=
  forall x y, In x l -> In y l ->
    neighbor_name (s x) = neighbor_name (s y) -> x = y.

(** A case as [Case.__init__] leaves it, ready for its first [add_node]:
    no level yet, at least one process, and a dependency that is not the
    case itself. *)
Definition fresh (s : store) (x : ref) : Prop :=
  level (s x) = None /\ 1 <= n_procs (s x) /\
  depends (s x) <> Some (neighbor_name (s x)).

(** What an extraction started in the store [s] has done to a node [x] that
    it has put in [sub], [cur] being the store it leaves: a node without
    dependency is at level 0; a node whose dependency is the name of no
    node put in [sub] up to itself has its level of [s] and no edge. *)
Definition settled (s : store) (sub : dependency_graph) (cur : store)
    (x : ref) : Prop :=
  (truthy_str (depends (s x)) = false -> level (cur x) = Some 0) /\
  (forall d, depends (s x) = Some d -> d <> EmptyString ->
     (forall y, In y (upto x (nodes sub)) -> neighbor_name (s y) <> d) ->
     level (cur x) = level (s x) /\ dict_get (graph_dict sub) x = Some None).

(** The test [case.expected_time < 5] of [check_slurm_batches]. *)
Definition short (s : store) (x : ref) : bool :=
  Z.ltb (expected_time (s x)) 5.

Definition cnt (f : ref -> bool) (l : list ref) : Z :=
  Z.of_nat (List.length (filter f l)).

Fixpoint memZ (z : Z) (l : list Z) : bool :=
  match l with
  | [] => false
  | y :: l' => (Z.eqb y z || memZ z l')%bool
  end.

Definition level_in (s : store) (levels : list Z) (x : ref) : bool :=
  match level (s x) with
  | Some l => memZ l levels
  | None => false
  end.

(** The cases and the summed expected time of the batches submitted. *)
Definition batches (subs : list Slurm.submission) : list (list ref * Z) :=
  map (fun sb => (Slurm.sub_cases sb, Slurm.sub_time sb)) subs.

(** What the methods of the slurm batches never write in a case. *)
Definition static (s s' : store) : Prop :=
  forall r,
    expected_time (s' r) = expected_time (s r) /\
    compute (s' r) = compute (s r) /\
    is_compiled (s' r) = is_compiled (s r).

(** Above level 0, [c] has an edge in the graph of the studies, which
    [run_slurm_batches] follows to the job of the dependency. *)
Definition has_parent (graph : dependency_graph) (level : Z) (c : ref)
    : Prop :=
  level <= 0 \/ exists p, dict_get (graph_dict graph) c = Some (Some p).

(** The test [case.compute and case.is_compiled != "KO"]. *)
Definition eligible (s : store) (c : ref) : bool :=
  (compute (s c)
   && negb (Slurm.opt_str_eqb (is_compiled (s c)) (Some "KO"%string)))%bool.

(** The packing of [run_slurm_batches] seen from outside: the size, the
    summed time and the cases of the batch under construction, and the
    cases and times of the batches submitted. *)
Record shape : Type := mkShape {
  sh_size : Z;
  sh_time : Z;
  sh_cases : list ref;
  sh_done : list (list ref * Z)
}.

Definition shape_of (st : Slurm.sched) : shape :=
  mkShape (Slurm.cur_batch_size (Slurm.sc_batch st))
    (Slurm.batch_total_time (Slurm.sc_batch st))
    (Slurm.cases_list (Slurm.sc_batch st))
    (batches (Slurm.submitted st)).

Definition add_shape (c : ref) (t : Z) (sh : shape) : shape :=
  mkShape (sh_size sh + 1) (sh_time sh + t) (sh_cases sh ++ [c]) (sh_done sh).

Definition flush_shape (sh : shape) : shape :=
  mkShape 0 0 [] (sh_done sh ++ [(sh_cases sh, sh_time sh)]).

(** One case of a cell, on shapes, with the flags and the expected time of
    the store [s]. *)
Definition pack_step (size wtime : Z) (s : store) (sh : shape) (c : ref)
    : shape :=
  if eligible s c then
    let t := expected_time (s c) in
    let fits := (Z.eqb (sh_size sh) 0 || Z.ltb (sh_time sh + t) wtime)%bool in
    let sh1 := if fits then add_shape c t sh else sh in
    let sh2 :=
      if (Z.leb size (sh_size sh1) || negb fits
          || Z.leb wtime (sh_time sh1))%bool
      then flush_shape sh1 else sh1 in
    if negb fits then add_shape c t sh2 else sh2
  else sh.

Definition pack (size wtime : Z) (s : store) (cases : list ref) (sh : shape)
    : shape :=
  fold_left (pack_step size wtime s) cases sh.

(** The batches of one cell, after those already [done]. *)
Definition pack_cell (size wtime : Z) (s : store) (cases : list ref)
    (done : list (list ref * Z)) : list (list ref * Z) :=
  let sh := pack size wtime s cases (mkShape 0 0 [] done) in
  sh_done (if Z.ltb 0 (sh_size sh) then flush_shape sh else sh).

(** The level of a case as an integer, 0 while it is [None]. *)
Definition level_or_0 (s : store) (x : ref) : Z :=
  match level (s x) with
  | Some l => l
  | None => 0
  end.

(** [max] of a list of integers and of 0, the initial value of [max_level]
    and of [max_proc]. *)
Definition max_list (l : list Z) : Z := fold_right Z.max 0 l.

(** The edges of a graph agree with its levels: a node without edge is at
    level 0, and an edge leads to another node, met before, whose name is
    the dependency and whose level is one less. *)
Definition edges_ok (g : dependency_graph) (s : store) : Prop :=
  forall x, In x (nodes g) ->
    match dict_get (graph_dict g) x with
    | None => False
    | Some None => level (s x) = Some 0
    | Some (Some p) =>
        In p (upto x (nodes g)) /\ p <> x /\
        depends (s x) = Some (neighbor_name (s p)) /\
        exists l, level (s p) = Some l /\ level (s x) = Some (l + 1)
    end.

(** [max_proc] and [max_level] are the greatest number of processes and
    the greatest level of the nodes, 0 for a graph without node. *)
Definition maxima_ok (g : dependency_graph) (s : store) : Prop :=
  max_proc g = max_list (map (fun x => n_procs (s x)) (nodes g)) /\
  max_level g = max_list (map (level_or_0 s) (nodes g)).

(** The summed expected time of a list of cases. *)
Definition total_time (s : store) (cases : list ref) : Z :=
  fold_right (fun c acc => expected_time (s c) + acc) 0 cases.

(** What holds of a batch submitted, given as its cases and its time: it is
    not empty, its time is the sum of the expected times of its cases, it has
    at most [slurm_batch_size] cases (one when that size is below 1), and it
    stays under the wall time unless it is a single case. *)
Definition batch_ok (size wtime : Z) (s : store) (b : list ref * Z) : Prop :=
  fst b <> [] /\
  snd b = total_time s (fst b) /\
  Z.of_nat (List.length (fst b)) <= Z.max 1 size /\
  (snd b < wtime \/ List.length (fst b) = 1%nat).

(** What holds of the batch under construction between two cases. *)
Definition open_ok (size wtime : Z) (s : store) (sh : shape) : Prop :=
  sh_size sh = Z.of_nat (List.length (sh_cases sh)) /\
  sh_time sh = total_time s (sh_cases sh) /\
  (sh_cases sh = [] \/
   (sh_size sh < size /\ (sh_time sh < wtime \/ sh_size sh = 1))).

(** The return codes that [compile_and_link] gives for the source
    directories that hold files to compile, and the sum of a list of
    codes. *)
Definition compile_codes (files_to_compile : string -> list string)
    (compile_and_link : string -> Z) (sdirs : list string) : list Z :=
  map compile_and_link
    (filter (fun d => Nat.ltb 0 (List.length (files_to_compile d))) sdirs).

Definition sumZ (l : list Z) : Z := fold_right Z.add 0 l.

(** A result directory that [run_ok] accepts: it exists, holds no [error]
    file and holds a [summary] file. *)
Definition accepted (os_path_join : list string -> string)
    (os_path_isdir os_path_isfile : string -> bool) (run_dir : string)
    : bool :=
  (os_path_isdir run_dir
   && negb (os_path_isfile (os_path_join [run_dir; "error"%string]))
   && os_path_isfile (os_path_join [run_dir; "summary"%string]))%bool.

(** [a in s] for a character and a string. *)
Fixpoint has_char (a : ascii) (s : string) : bool :=
  match s with
  | EmptyString => false
  | String c s' => (Ascii.eqb c a || has_char a s')%bool
  end.

(** The cases of the batches submitted, in the order of submission. *)
Definition all_cases (subs : list Slurm.submission) : list ref :=
  List.concat (map Slurm.sub_cases subs).

(** The job identifier that [sbatch] printed for a batch. *)
Definition job_of (sbatch_job_id : Z -> option string)
    (sb : Slurm.submission) : option string :=
  sbatch_job_id (Slurm.sub_batch_id sb).

(** What the graph, the extraction and the packing read of a case; the
    slurm methods write [kw_args] and [job_id] only. *)
Definition frame (s s' : store) : Prop :=
  forall r,
    level (s' r) = level (s r) /\
    n_procs (s' r) = n_procs (s r) /\
    depends (s' r) = depends (s r) /\
    neighbor_name (s' r) = neighbor_name (s r) /\
    expected_time (s' r) = expected_time (s r) /\
    compute (s' r) = compute (s r) /\
    is_compiled (s' r) = is_compiled (s r).

(** The state of [run_slurm_batches] between two statements, [s0] being the
    store it started from: the batches are numbered from 0 in the order of
    submission and each has its job in [tot_job_id_list]; no case is in two
    batches; a case submitted bears the job of its batch, another case the
    job it had; and the dependency list of a batch, submitted or under
    construction, holds the job of the node that the edge of each of its
    cases leads to. *)
Record sched_ok (graph : dependency_graph)
    (sbatch_job_id : Z -> option string) (s0 : store) (st : Slurm.sched)
    : Prop := {
  so_frame : frame s0 (Slurm.sc_store st);
  so_next :
    Slurm.cur_batch_id st = Z.of_nat (List.length (Slurm.submitted st));
  so_ids :
    map Slurm.sub_batch_id (Slurm.submitted st) =
    map Z.of_nat (seq 0 (List.length (Slurm.submitted st)));
  so_jobs :
    map Some (Slurm.tot_job_id_list st) =
    map (job_of sbatch_job_id) (Slurm.submitted st);
  so_nodup :
    NoDup (all_cases (Slurm.submitted st)
           ++ Slurm.cases_list (Slurm.sc_batch st));
  so_stamped : forall sb c,
    In sb (Slurm.submitted st) -> In c (Slurm.sub_cases sb) ->
    job_id (Slurm.sc_store st c) = job_of sbatch_job_id sb;
  so_unstamped : forall r,
    ~ In r (all_cases (Slurm.submitted st)) ->
    job_id (Slurm.sc_store st r) = job_id (s0 r);
  so_deps : forall sb c q,
    In sb (Slurm.submitted st) -> In c (Slurm.sub_cases sb) ->
    dict_get (graph_dict graph) c = Some (Some q) ->
    In (job_id (Slurm.sc_store st q)) (Slurm.sub_dependency sb);
  so_open_deps : forall c q,
    In c (Slurm.cases_list (Slurm.sc_batch st)) ->
    dict_get (graph_dict graph) c = Some (Some q) ->
    In (job_id (Slurm.sc_store st q))
       (Slurm.dep_job_id_list (Slurm.sc_batch st));
  so_size :
    Slurm.cur_batch_size (Slurm.sc_batch st) =
    Z.of_nat (List.length (Slurm.cases_list (Slurm.sc_batch st)));
  so_tasks : forall sb c,
    In sb (Slurm.submitted st) -> In c (Slurm.sub_cases sb) ->
    n_procs (s0 c) = Slurm.sub_ntasks sb
}.

(** A name that the search of [__query_config__] settles on: it is not
    empty, and the run configuration has a section of that name, a section
    of that name for a tag of the case, or one for the run id of the
    case. *)
Definition usable (lower : string -> string) (sections : list string)
    (name : option string) (run_id : string) (tags : list string) : bool :=
  match name with
  | None => false
  | Some n =>
      (negb (String.eqb n EmptyString)
       && (str_in n sections
           || existsb (fun tag => str_in (n ^^ "/tag=" ^^ lower tag) sections)
                tags
           || str_in (n ^^ "/run_id=" ^^ lower run_id) sections))%bool
  end.

End Spec.

(** Case analysis on the integer tests of a goal, then on what is left of
    its booleans. *)
Ltac split_tests :=
  repeat match goal with
         | |- context [Z.eqb ?a ?b] => destruct (Z.eqb_spec a b)
         end;
  try lia;
  repeat match goal with
         | |- context [Spec.short ?s ?x] => destruct (Spec.short s x)
         | |- context [Spec.memZ ?a ?b] => destruct (Spec.memZ a b)
         end;
  try reflexivity; try lia.

(** The side conditions of a step of the packing, once the expected times
    are known. *)
Ltac pack_side :=
  repeat match goal with
         | H : expected_time _ = _ |- _ => rewrite H
         end;
  trivial; lia.

(** ** Sample cases *)

Module Examples.

(** A case as [__init__] leaves it when it is not coupled and every command
    option is on: [resu] is [RESU], the level and the job are unset. *)
Definition new_case (study label run_id : string) (n_procs : Z)
    (depends : option string) (expected_time : Z) : Case :=
  mkCase "/repo/S" "/dest/S" study label run_id "RESU"
    (study ^^ "/" ^^ label ^^ "/" ^^ "RESU" ^^ "/" ^^ run_id)
    ("/dest/S/" ^^ label ^^ "/RESU/" ^^ run_id)
    n_procs None depends expected_time None None None
    true true true true true (Some "not done"%string) None false None
    None None.

(** A chain: [S/A/RESU/run1], [S/B/RESU/run1] that depends on it, and
    [S/C/RESU/run1] that depends on [S/B/RESU/run1]. *)
Definition chain : store :=
  fun r =>
    match r with
    | 0%nat => new_case "S" "A" "run1" 4 None 2
    | 1%nat => new_case "S" "B" "run1" 4 (Some "S/A/RESU/run1"%string) 2
    | _ => new_case "S" "C" "run1" 8 (Some "S/B/RESU/run1"%string) 20
    end.

(** A case that names itself as its dependency. *)
Definition self_dependent : store :=
  fun _ => new_case "S" "A" "run1" 1 (Some "S/A/RESU/run1"%string) 2.



(** A case of study [S] that restarts from run [run0] of the same case
    through its parametric arguments. *)
Definition restarting : Case :=
  mkCase "/repo/S" "/dest/S" "S" "B" "run1" "RESU" "S/B/RESU/run1"
    "/dest/S/B/RESU/run1" 1 None None 2 (Some "-r run0"%string) None None
    true true true true true (Some "not done"%string) None false None
    None None.

(** A stand-in for [os.path.join] on relative components. *)
Definition join : list string -> string := String.concat "/".

(** A staging command that succeeds on its first call and fails with code 1
    on the others. *)
Definition first_call_only (n : nat) (cmd : string) : Z * Z :=
  match n with
  | O => (0, 7)
  | _ => (1, 7)
  end.

(** A coupled case with the two sub-domains [fluid] and [solid]. *)
Definition coupled : Case :=
  mkCase "/repo/S" "/dest/S" "S" "M" "run1" "RESU_COUPLING"
    "S/M/RESU_COUPLING/run1" "/dest/S/M/RESU_COUPLING/run1" 2 None None 5
    None None None true true true true true (Some "not done"%string) None
    false (Some ["fluid"%string; "solid"%string]) None None.


(** A destination where every run folder exists, in the state [RUNNING]. *)
Definition all_running (folder : string) (coupling : bool) (timeout : Z)
    : case_state * unit := (RUNNING, tt).

(** The graph and the store that [add_node] builds from [chain]. *)
Definition chain_graph : Graph.dependency_graph :=
  Graph.mkGraph [(0%nat, None); (1%nat, Some 0%nat); (2%nat, Some 1%nat)] 2 8.

Definition chain_built : store :=
  fun r =>
    set_level (chain r)
      (Some match r with 0%nat => 0 | 1%nat => 1 | _ => 2 end).

(** A sweep of short cases without dependency, [S/A/RESU/r0],
    [S/A/RESU/r1], ..., of 3 minutes each on one process. *)
Definition sweep : store :=
  fun r =>
    new_case "S" "A" ("r" ^^ NilEmpty.string_of_uint (Nat.to_uint r)) 1 None 3.

(** The batch size after [check_slurm_batches], on the graph of the first
    [n] cases of the sweep. *)
Definition sweep_batch_size (n : nat) (slurm_batch_size : Z) : option Z :=
  match Graph.add_nodes Graph.init sweep (seq 0 n) with
  | Ok (g, s, _) =>
      match Slurm.check_slurm_batches g slurm_batch_size s with
      | Ok (size, _) => Some size
      | Raise _ => None
      end
  | Raise _ => None
  end.

(** The graph of the first four cases of the sweep. *)
Definition sweep_graph : Graph.dependency_graph :=
  Graph.mkGraph
    [(0%nat, None); (1%nat, None); (2%nat, None); (3%nat, None)] 0 1.

(** An [sbatch] that numbers the jobs from 10000000. *)
Definition job_numbers (batch_id : Z) : option string :=
  Some ("1000000" ^^ NilEmpty.string_of_uint (N.to_uint (Z.to_N batch_id))).


(** The batches that [run_slurm_batches] submits for the first [n] cases
    of the sweep, under a wall time of 10 minutes. *)
Definition sweep_batches (n : nat) (slurm_batch_size : Z)
    : option (list (list ref * Z)) :=
  match Graph.add_nodes Graph.init sweep (seq 0 n) with
  | Ok (g, s, _) =>
      match Slurm.run_slurm_batches join "bin" "code_saturne" job_numbers
              10 [] false 1 "cd /dest" g slurm_batch_size s with
      | Ok st => Some (Spec.batches (Slurm.submitted st))
      | Raise _ => None
      end
  | Raise _ => None
  end.

End Examples.

(** * Properties *)

(** ** The store and the dictionary *)

Lemma upd_same (s : store) (r : ref) (c : Case) : upd s r c r = c.
Proof. unfold upd. now rewrite Nat.eqb_refl. Qed.

Lemma upd_other (s : store) (r r' : ref) (c : Case) :
  r' <> r -> upd s r c r' = s r'.
Proof.
  intros H. unfold upd. destruct (Nat.eqb r' r) eqn:E; [|reflexivity].
  apply Nat.eqb_eq in E. contradiction.
Qed.

Lemma neighbor_name_truthy (c : Case) :
  truthy_str (Some (neighbor_name c)) = true.
Proof.
  unfold truthy_str, neighbor_name. destruct (study c); reflexivity.
Qed.

Module GraphFacts.

Import Graph.

Lemma dict_mem_false (d : dict) (k : ref) :
  ~ In k (dict_keys d) -> dict_mem k d = false.
Proof.
  unfold dict_mem. induction d as [|[k' v] d IH]; simpl; intros H.
  - reflexivity.
  - destruct (Nat.eqb k' k) eqn:E.
    + apply Nat.eqb_eq in E. exfalso. apply H. now left.
    + apply IH. intros Hin. apply H. now right.
Qed.

Lemma dict_mem_true (d : dict) (k : ref) :
  In k (dict_keys d) -> dict_mem k d = true.
Proof.
  unfold dict_mem. induction d as [|[k' v] d IH]; simpl; intros H.
  - contradiction.
  - destruct (Nat.eqb k' k) eqn:E; [reflexivity|].
    destruct H as [H|H].
    + subst. now rewrite Nat.eqb_refl in E.
    + now apply IH.
Qed.

Lemma dict_keys_set_new (d : dict) (k : ref) (v : option ref) :
  ~ In k (dict_keys d) -> dict_keys (dict_set d k v) = dict_keys d ++ [k].
Proof.
  induction d as [|[k' v'] d IH]; simpl; intros H.
  - reflexivity.
  - destruct (Nat.eqb k' k) eqn:E.
    + apply Nat.eqb_eq in E. exfalso. apply H. now left.
    + simpl. f_equal. apply IH. intros Hin. apply H. now right.
Qed.

Lemma dict_keys_set_old (d : dict) (k : ref) (v : option ref) :
  In k (dict_keys d) -> dict_keys (dict_set d k v) = dict_keys d.
Proof.
  induction d as [|[k' v'] d IH]; simpl; intros H.
  - contradiction.
  - destruct (Nat.eqb k' k) eqn:E; simpl.
    + reflexivity.
    + f_equal. apply IH. destruct H as [H|H]; [|assumption].
      subst. now rewrite Nat.eqb_refl in E.
Qed.

Lemma dict_get_set_same (d : dict) (k : ref) (v : option ref) :
  dict_get (dict_set d k v) k = Some v.
Proof.
  induction d as [|[k' v'] d IH]; simpl.
  - now rewrite Nat.eqb_refl.
  - destruct (Nat.eqb k' k) eqn:E; simpl; rewrite E; [reflexivity|assumption].
Qed.

Lemma dict_get_set_other (d : dict) (k k' : ref) (v : option ref) :
  k' <> k -> dict_get (dict_set d k v) k' = dict_get d k'.
Proof.
  intros Hne. induction d as [|[k0 v0] d IH]; simpl.
  - destruct (Nat.eqb k k') eqn:E; [|reflexivity].
    apply Nat.eqb_eq in E. congruence.
  - destruct (Nat.eqb k0 k) eqn:E; simpl.
    + apply Nat.eqb_eq in E. subst k0.
      destruct (Nat.eqb k k') eqn:E'; [|reflexivity].
      apply Nat.eqb_eq in E'. congruence.
    + destruct (Nat.eqb k0 k'); [reflexivity|assumption].
Qed.

(** The scan of [add_node] passes the neighbors whose name differs from the
    dependency. *)
Lemma add_node_scan_skip (pre keys : list ref) (g : dependency_graph)
    (s : store) (case : ref) (dep : string) :
  (forall y, In y pre -> neighbor_name (s y) <> dep) ->
  add_node_scan (pre ++ keys) g s case dep = add_node_scan keys g s case dep.
Proof.
  induction pre as [|y pre IH]; simpl; intros H.
  - reflexivity.
  - assert (E : String.eqb (neighbor_name (s y)) dep = false).
    { apply String.eqb_neq. apply H. now left. }
    rewrite E. apply IH. intros z Hz. apply H. now right.
Qed.

Lemma add_node_scan_none (keys : list ref) (g : dependency_graph)
    (s : store) (case : ref) (dep : string) :
  (forall y, In y keys -> neighbor_name (s y) <> dep) ->
  add_node_scan keys g s case dep = Ok (g, s).
Proof.
  intros H. rewrite <- (app_nil_r keys). now rewrite add_node_scan_skip.
Qed.

End GraphFacts.

Import Graph.
Import GraphFacts.

(** ** Levels along a chain of dependencies *)

(** [add_node] on a case that is not in the graph and has no dependency. *)
Lemma add_node_root (g : dependency_graph) (s : store) (a : ref) :
  ~ In a (nodes g) ->
  truthy_str (depends (s a)) = false ->
  add_node g s a =
    Ok (with_max_proc (with_dict g (dict_set (graph_dict g) a None))
          (py_max (max_proc g) (n_procs (s a))),
        upd s a (set_level (s a) (Some 0)), None).
Proof.
  intros Hin Hdep. unfold add_node.
  rewrite (dict_mem_false _ _ Hin), Hdep. simpl.
  now rewrite upd_same.
Qed.

(** [add_node] on a case that is not in the graph and whose dependency is
    the name of [p], the first node of that name, already at level [l]. *)
Lemma add_node_child (g : dependency_graph) (s : store) (x p : ref)
    (pre post : list ref) (l : Z) :
  ~ In x (nodes g) ->
  depends (s x) = Some (neighbor_name (s p)) ->
  nodes g ++ [x] = pre ++ p :: post ->
  (forall y, In y pre -> neighbor_name (s y) <> neighbor_name (s p)) ->
  level (s p) = Some l ->
  add_node g s x =
    Ok (mkGraph (dict_set (dict_set (graph_dict g) x None) x (Some p))
          (py_max (max_level g) (l + 1))
          (py_max (max_proc g) (n_procs (s x))),
        upd s x (set_level (s x) (Some (l + 1))), None).
Proof.
  intros Hin Hdep Hnodes Hpre Hl. unfold add_node.
  rewrite (dict_mem_false _ _ Hin), Hdep, neighbor_name_truthy.
  cbn [graph_dict with_dict].
  rewrite (dict_keys_set_new _ _ _ Hin).
  unfold nodes in Hnodes. rewrite Hnodes.
  rewrite (add_node_scan_skip _ _ _ _ _ _ Hpre).
  cbn [app add_node_scan]. rewrite String.eqb_refl.
  unfold add_dependency. cbn [graph_dict with_dict].
  rewrite dict_get_set_same. cbn [truthy_node negb bind].
  rewrite Hl. cbn [bind]. rewrite !upd_same.
  cbn [level set_level bind with_max_proc with_max_level with_dict
       graph_dict max_level max_proc].
  rewrite !upd_same. reflexivity.
Qed.

(** C1. Along a chain A, B, C added in this order, where A has no
    dependency, B names A and C names B by their composite keys, the names
    of A and B differ and belong to no node already in the graph, and the
    graph is not yet deeper than 2: the three calls of [add_node] raise
    nothing and return no warning, the levels of A, B, C are 0, 1, 2 and
    [max_level] is 2. *)
Theorem chain_levels (g : dependency_graph) (s : store) (a b c : ref) :
  NoDup [a; b; c] ->
  (forall x, In x [a; b; c] -> ~ In x (nodes g)) ->
  (forall y, In y (nodes g) ->
     neighbor_name (s y) <> neighbor_name (s a) /\
     neighbor_name (s y) <> neighbor_name (s b)) ->
  max_level g <= 2 ->
  truthy_str (depends (s a)) = false ->
  depends (s b) = Some (neighbor_name (s a)) ->
  depends (s c) = Some (neighbor_name (s b)) ->
  neighbor_name (s a) <> neighbor_name (s b) ->
  exists g3 s3,
    add_nodes g s [a; b; c] = Ok (g3, s3, [None; None; None]) /\
    level (s3 a) = Some 0 /\
    level (s3 b) = Some 1 /\
    level (s3 c) = Some 2 /\
    max_level g3 = 2.
Proof.
  intros Hnd Hfresh Hnames Hmax Ha Hb Hc Hab.
  assert (Hxa : ~ In a (nodes g)) by (apply Hfresh; simpl; auto).
  assert (Hxb : ~ In b (nodes g)) by (apply Hfresh; simpl; auto).
  assert (Hxc : ~ In c (nodes g)) by (apply Hfresh; simpl; auto).
  assert (Hba : b <> a).
  { intros ->. inversion Hnd as [|? ? H1 _]. apply H1. simpl. auto. }
  assert (Hca : c <> a).
  { intros ->. inversion Hnd as [|? ? H1 _]. apply H1. simpl. auto. }
  assert (Hcb : c <> b).
  { intros ->. inversion Hnd as [|? ? _ H2]. inversion H2 as [|? ? H3 _].
    apply H3. simpl. auto. }
  unfold add_nodes.
  rewrite (add_node_root g s a Hxa Ha). cbn [bind].
  set (s1 := upd s a (set_level (s a) (Some 0))).
  set (g1 := with_max_proc _ _).
  assert (Hs1a : neighbor_name (s1 a) = neighbor_name (s a)).
  { unfold s1. now rewrite upd_same. }
  assert (Hs1 : forall y, y <> a -> s1 y = s y).
  { intros y Hy. unfold s1. now apply upd_other. }
  assert (Hg1 : nodes g1 = nodes g ++ [a]).
  { unfold g1, nodes. cbn [graph_dict with_max_proc with_dict].
    now apply dict_keys_set_new. }
  rewrite (add_node_child g1 s1 b a (nodes g) [b] 0).
  2:{ rewrite Hg1. intros Hin. apply in_app_or in Hin as [Hin|[Hin|[]]]; auto. }
  2:{ rewrite (Hs1 b Hba), Hs1a. exact Hb. }
  2:{ rewrite Hg1. now rewrite <- app_assoc. }
  2:{ intros y Hy. rewrite Hs1a. rewrite Hs1.
      - now apply Hnames.
      - intros ->. contradiction. }
  2:{ unfold s1. now rewrite upd_same. }
  cbn [bind].
  set (s2 := upd s1 b _).
  set (g2 := mkGraph _ _ _).
  assert (Hs2b : neighbor_name (s2 b) = neighbor_name (s b)).
  { unfold s2. rewrite upd_same. cbn. now rewrite (Hs1 b Hba). }
  assert (Hs2 : forall y, y <> b -> s2 y = s1 y).
  { intros y Hy. unfold s2. now apply upd_other. }
  assert (Hxb1 : ~ In b (nodes g1)).
  { rewrite Hg1. intros Hin. apply in_app_or in Hin as [Hin|[Hin|[]]]; auto. }
  assert (Hg2 : nodes g2 = (nodes g ++ [a]) ++ [b]).
  { rewrite <- Hg1. unfold g2. unfold nodes at 1. cbn [graph_dict].
    rewrite dict_keys_set_old.
    - now rewrite dict_keys_set_new by exact Hxb1.
    - rewrite dict_keys_set_new by exact Hxb1. apply in_or_app. right. now left. }
  rewrite (add_node_child g2 s2 c b (nodes g ++ [a]) [c] 1).
  2:{ rewrite Hg2. intros Hin.
      apply in_app_or in Hin as [Hin|[Hin|[]]]; auto.
      apply in_app_or in Hin as [Hin|[Hin|[]]]; auto. }
  2:{ rewrite (Hs2 c Hcb), (Hs1 c Hca), Hs2b. exact Hc. }
  2:{ rewrite Hg2. now rewrite <- app_assoc. }
  2:{ intros y Hy. rewrite Hs2b.
      apply in_app_or in Hy as [Hy|[Hy|[]]].
      - rewrite Hs2, Hs1.
        + now apply Hnames.
        + intros ->. contradiction.
        + intros ->. contradiction.
      - subst y. rewrite (Hs2 a (not_eq_sym Hba)), Hs1a. exact Hab. }
  2:{ unfold s2. rewrite upd_same. reflexivity. }
  cbn [bind].
  eexists _, _. split; [reflexivity|].
  repeat split.
  - rewrite upd_other by (apply not_eq_sym; exact Hca).
    rewrite (Hs2 a (not_eq_sym Hba)). unfold s1. now rewrite upd_same.
  - rewrite upd_other by (apply not_eq_sym; exact Hcb).
    unfold s2. now rewrite upd_same.
  - now rewrite upd_same.
  - cbn [max_level]. unfold g2, g1. cbn [max_level with_max_proc with_dict].
    unfold py_max. lia.
Qed.

(** The chain of [Examples.chain], added to an empty graph. *)
Lemma chain_levels_witness :
  exists g3 s3,
    add_nodes init Examples.chain [0%nat; 1%nat; 2%nat]
      = Ok (g3, s3, [None; None; None]) /\
    level (s3 0%nat) = Some 0 /\
    level (s3 1%nat) = Some 1 /\
    level (s3 2%nat) = Some 2 /\
    max_level g3 = 2.
Proof.
  apply (chain_levels init Examples.chain 0%nat 1%nat 2%nat).
  - repeat constructor; simpl; intuition discriminate.
  - intros x _ [].
  - intros y [].
  - simpl. lia.
  - reflexivity.
  - reflexivity.
  - reflexivity.
  - vm_compute. discriminate.
Defined.

(** ** A second dependency is refused *)

(** C2. When a dependency is already recorded for a node, [add_dependency]
    returns a message and the graph as it was: the first dependency stays. *)
Theorem add_dependency_second_rejected (g : dependency_graph) (s : store)
    (node1 first second : ref) :
  dict_get (graph_dict g) node1 = Some (Some first) ->
  exists msg,
    add_dependency g s node1 second = Ok (g, Some msg) /\
    msg <> EmptyString /\
    dict_get (graph_dict g) node1 = Some (Some first).
Proof.
  intros H. unfold add_dependency. rewrite H. cbn.
  eexists. split; [reflexivity|]. split; [discriminate|reflexivity].
Qed.

(** A graph where case 1 depends on case 0, asked to make it depend on
    case 2. *)
Lemma add_dependency_second_rejected_witness :
  exists msg,
    add_dependency (mkGraph [(0%nat, None); (1%nat, Some 0%nat); (2%nat, None)] 1 8)
      Examples.chain 1%nat 2%nat
    = Ok (mkGraph [(0%nat, None); (1%nat, Some 0%nat); (2%nat, None)] 1 8, Some msg) /\
    msg <> EmptyString /\
    dict_get [(0%nat, None); (1%nat, Some 0%nat); (2%nat, None)] 1%nat
    = Some (Some 0%nat).
Proof.
  apply (add_dependency_second_rejected
           (mkGraph [(0%nat, None); (1%nat, Some 0%nat); (2%nat, None)] 1 8)
           Examples.chain 1%nat 0%nat 2%nat).
  reflexivity.
Defined.

(** ** A dependency that names no case *)

(** A fresh case whose dependency is the name of no node of the graph and
    is not its own name joins the graph at level 0, with a warning. *)
Lemma add_node_unmatched (g : dependency_graph) (s : store) (x : ref)
    (d : string) :
  ~ In x (nodes g) ->
  level (s x) = None ->
  depends (s x) = Some d ->
  d <> EmptyString ->
  (forall y, In y (nodes g) -> neighbor_name (s y) <> d) ->
  neighbor_name (s x) <> d ->
  exists g1,
    add_node g s x =
      Ok (g1, upd s x (set_level (s x) (Some 0)), Some (dangling_msg (s x) d)) /\
    nodes g1 = nodes g ++ [x] /\
    dict_get (graph_dict g1) x = Some None /\
    max_level g1 = max_level g /\
    max_proc g1 = py_max (max_proc g) (n_procs (s x)).
Proof.
  intros Hin Hlev Hdep Hd Hnodes Hself. unfold add_node.
  rewrite (dict_mem_false _ _ Hin), Hdep.
  assert (Ht : truthy_str (Some d) = true).
  { simpl. apply negb_true_iff. now apply String.eqb_neq. }
  rewrite Ht. cbn [graph_dict with_dict].
  rewrite add_node_scan_none.
  - cbn [bind]. rewrite Hlev. cbn [bind].
    eexists. split; [reflexivity|].
    unfold nodes. cbn [graph_dict with_max_proc with_dict max_level max_proc].
    repeat split.
    + now apply dict_keys_set_new.
    + apply dict_get_set_same.
    + now rewrite upd_same.
  - intros y Hy. rewrite (dict_keys_set_new _ _ _ Hin) in Hy.
    apply in_app_or in Hy as [Hy|[Hy|[]]].
    + now apply Hnodes.
    + now subst y.
Qed.



(** The scan does meet the case itself: a fresh case whose dependency is
    its own name finds itself, at a level that is still [None], and
    [neighbor.level + 1] raises [TypeError]. *)
Lemma add_node_self_dependency_raises :
  nodes init = [] /\
  level (Examples.self_dependent 0%nat) = None /\
  depends (Examples.self_dependent 0%nat)
    = Some (neighbor_name (Examples.self_dependent 0%nat)) /\
  add_node init Examples.self_dependent 0%nat = Raise TypeError.
Proof. repeat split. Qed.

(** ** The list of dependencies *)

(** C10. [dependencies] returns the empty list on a graph without node and
    raises [TypeError] on every other graph, at its first node; [__str__],
    which calls it, raises too. *)
Theorem dependencies_raises_unless_empty :
  (forall ml mp, dependencies (mkGraph [] ml mp) = Ok []) /\
  (forall k v d ml mp,
     dependencies (mkGraph ((k, v) :: d) ml mp) = Raise TypeError) /\
  (forall k v d ml mp s,
     str (mkGraph ((k, v) :: d) ml mp) s = Raise TypeError).
Proof.
  split; [reflexivity|]. split.
  - intros k v d ml mp. unfold dependencies. simpl.
    rewrite Nat.eqb_refl. now destruct v.
  - intros k v d ml mp s. unfold str, dependencies. simpl.
    rewrite Nat.eqb_refl. now destruct v.
Qed.

(** ** Methods of Case *)

Lemma is_finalized_false (st : case_state) :
  st <> FINALIZED -> is_finalized st = false.
Proof. destruct st; intros H; try reflexivity. now contradiction H. Qed.

Section CaseFacts.

Variable os_path_join : list string -> string.
Variable os_path_normpath : string -> string.
Variable os_path_isdir : string -> bool.
Variable os_path_isfile : string -> bool.
Variable os_listdir : string -> list string.
Variable bindir : string.
Variable exe : string.
Variable restart_path : string -> option string.
Variable info : Type.
Variable get_case_state : string -> bool -> Z -> case_state * info.
Variable run_studymanager_command : nat -> string -> Z * Z.
Variable str_time : Z -> string.
Variable str_split : string -> list string.

Local Abbreviation infer_depends :=
  (CaseM.infer_depends os_path_join os_path_normpath os_path_isdir
     os_path_isfile os_listdir restart_path str_split).
Local Abbreviation run_folder :=
  (CaseM.run_folder os_path_join os_path_normpath).
Local Abbreviation init_depends :=
  (CaseM.init_depends os_path_join os_path_normpath os_path_isdir
     os_path_isfile os_listdir restart_path info get_case_state str_split).
Local Abbreviation build_run_cmd :=
  (CaseM.build_run_cmd os_path_join bindir exe).
Local Abbreviation run :=
  (CaseM.run os_path_join bindir exe run_studymanager_command).
Local Abbreviation stage_subdomains :=
  (CaseM.stage_subdomains os_path_join bindir exe run_studymanager_command).
Local Abbreviation subdomain_retvals :=
  (CaseM.subdomain_retvals os_path_join bindir exe run_studymanager_command).
Local Abbreviation prepare_run_folder :=
  (CaseM.prepare_run_folder os_path_join os_path_isfile os_listdir bindir exe
     run_studymanager_command str_time).

(** C7. A case without dependency in the smgr file, for which the restart
    path of [setup.xml] or the restart flag of the parametric arguments
    gives the dependency [d]: when the run folder of [d] exists and its
    state is not [FINALIZED], the case keeps [d] and has [no_restart] on and
    [compute], [compare], [plot] off; when the folder does not exist, the
    case keeps [d] and no flag changes; when the state is [FINALIZED], the
    dependency is dropped. *)
Theorem restart_defense (c : Case) (d : string) :
  truthy_str (depends c) = false ->
  infer_depends c = Ok (Some d) ->
  d <> EmptyString ->
  let folder := run_folder c d in
  let st :=
    fst (get_case_state folder
           (match subdomains c with Some _ => true | None => false end) 3600) in
  (os_path_isdir folder = true -> st <> FINALIZED ->
   exists c', init_depends c = Ok c' /\
     depends c' = Some d /\ no_restart c' = true /\
     compute c' = false /\ compare c' = false /\ plot c' = false) /\
  (os_path_isdir folder = false ->
   init_depends c = Ok (set_depends c (Some d))) /\
  (os_path_isdir folder = true -> st = FINALIZED ->
   init_depends c = Ok (set_depends c None)).
Proof.
  intros Hno Hinf Hd folder st.
  assert (Ht : truthy_str (Some d) = true).
  { simpl. apply negb_true_iff. now apply String.eqb_neq. }
  unfold init_depends, CaseM.init_depends, CaseM.query_dependence.
  fold infer_depends. rewrite Hno, Hinf. cbn [negb bind]. rewrite Ht.
  fold run_folder. fold folder.
  repeat split.
  - intros Hdir Hst. rewrite Hdir.
    subst st. destruct (get_case_state folder _ 3600) as [st0 i0].
    cbn [fst] in Hst. rewrite (is_finalized_false _ Hst). cbn [bind].
    eexists. split; [reflexivity|]. cbn. repeat split.
  - intros Hdir. rewrite Hdir. reflexivity.
  - intros Hdir Hst. rewrite Hdir.
    subst st. destruct (get_case_state folder _ 3600) as [st0 i0].
    cbn [fst] in Hst. subst st0. reflexivity.
Qed.


(** [retval] after the loop on the sub-domains is the least of its initial
    value and of the return codes. *)
Lemma stage_subdomains_retval (listing doms : list string) (n : nat)
    (c : Case) (retval : Z) (t : option Z) :
  snd (fst (stage_subdomains listing doms n c retval t)) =
    fold_left Z.min (subdomain_retvals listing doms n c) retval.
Proof.
  revert n c retval t.
  induction listing as [|node listing IH]; intros n c retval t.
  - reflexivity.
  - unfold stage_subdomains, subdomain_retvals in *.
    cbn [CaseM.stage_subdomains CaseM.subdomain_retvals].
    destruct (str_in node doms); [|apply IH].
    destruct (CaseM.stage_cmd os_path_join bindir exe c) as [cmd c1].
    destruct (run_studymanager_command n cmd) as [rc t1].
    cbn [fst fold_left]. rewrite IH. now rewrite Z.min_comm.
Qed.

Lemma fold_min_le (l : list Z) (a : Z) :
  fold_left Z.min l a <= a /\ forall x, In x l -> fold_left Z.min l a <= x.
Proof.
  revert a. induction l as [|y l IH]; intros a; simpl.
  - split; [lia|]. intros x [].
  - destruct (IH (Z.min a y)) as [H1 H2]. split; [lia|].
    intros x [Hx|Hx].
    + subst. lia.
    + now apply H2.
Qed.

Lemma fold_min_in (l : list Z) (a : Z) :
  fold_left Z.min l a = a \/ In (fold_left Z.min l a) l.
Proof.
  revert a. induction l as [|y l IH]; intros a; simpl.
  - now left.
  - destruct (IH (Z.min a y)) as [H|H].
    + rewrite H. destruct (Z.min_spec a y) as [[_ E]|[_ E]]; rewrite E; auto.
    + auto.
Qed.

(** [retval] after the staging of the sub-domains is 0, the value read as
    a success, exactly when no return code is negative and one is 0. *)
Lemma staging_success_iff (listing doms : list string) (n : nat) (c : Case) :
  snd (fst (stage_subdomains listing doms n c 1 None)) = 0 <->
  (forall code, In code (subdomain_retvals listing doms n c) -> 0 <= code) /\
  In 0 (subdomain_retvals listing doms n c).
Proof.
  rewrite stage_subdomains_retval.
  set (codes := subdomain_retvals listing doms n c).
  destruct (fold_min_le codes 1) as [H1 H2]. split.
  - intros H0. split.
    + intros code Hin. specialize (H2 code Hin). lia.
    + destruct (fold_min_in codes 1) as [H3|H3].
      * rewrite H0 in H3. discriminate.
      * now rewrite H0 in H3.
  - intros [Hpos Hin]. specialize (H2 0 Hin).
    destruct (fold_min_in codes 1) as [H3|H3].
    + lia.
    + specialize (Hpos _ H3). lia.
Qed.



End CaseFacts.

(** The no-break space and the next-line control separate the words of the
    parametric arguments, as the space does. *)
Lemma split_ws_latin1_spaces :
  split_ws ("-r" ^^ String (ascii_of_nat 160) "run0") = ["-r"; "run0"]%string /\
  split_ws ("-r" ^^ String (ascii_of_nat 133) "run0") = ["-r"; "run0"]%string /\
  split_ws " -r  run0 " = ["-r"; "run0"]%string.
Proof. repeat split. Qed.

(** The case [Examples.restarting] restarts from [S/B/RESU/run0], whose
    folder exists and is still running. *)
Lemma restart_defense_witness :
  exists c',
    CaseM.init_depends Examples.join (fun p => p) (fun _ => true)
      (fun _ => false) (fun _ => []) (fun _ => None) unit
      Examples.all_running split_ws Examples.restarting = Ok c' /\
    depends c' = Some "S/B/RESU/run0"%string /\ no_restart c' = true /\
    compute c' = false /\ compare c' = false /\ plot c' = false.
Proof.
  destruct (restart_defense Examples.join (fun p => p) (fun _ => true)
              (fun _ => false) (fun _ => []) (fun _ => None) unit
              Examples.all_running split_ws Examples.restarting
              "S/B/RESU/run0")
    as [H _].
  - reflexivity.
  - reflexivity.
  - discriminate.
  - apply H.
    + reflexivity.
    + discriminate.
Defined.



(** ** Sub-graphs *)

Import Spec.

Lemma set_level_id (c : Case) : set_level c (level c) = c.
Proof. now destruct c. Qed.

Lemma upd_id (s : store) (x : ref) : upd s x (s x) = s.
Proof.
  apply functional_extensionality. intros r. unfold upd.
  destruct (Nat.eqb r x) eqn:E; [|reflexivity].
  apply Nat.eqb_eq in E. now subst.
Qed.

Lemma truthy_str_some (o : option string) :
  truthy_str o = true -> exists d, o = Some d /\ d <> EmptyString.
Proof.
  destruct o as [d|]; simpl; [|discriminate].
  intros H. exists d. split; [reflexivity|].
  apply negb_true_iff in H. now apply String.eqb_neq.
Qed.

(** Either no key has the name [dep], or there is a first one. *)
Lemma scan_split (keys : list ref) (s : store) (dep : string) :
  (forall y, In y keys -> neighbor_name (s y) <> dep) \/
  (exists pre y post,
     keys = pre ++ y :: post /\
     (forall z, In z pre -> neighbor_name (s z) <> dep) /\
     neighbor_name (s y) = dep).
Proof.
  induction keys as [|k keys IH].
  - left. intros y [].
  - destruct (String.eqb_spec (neighbor_name (s k)) dep) as [E|E].
    + right. exists [], k, keys. repeat split; [intros z []|exact E].
    + destruct IH as [IH|[pre [y [post [H1 [H2 H3]]]]]].
      * left. intros y [Hy|Hy]; [now subst|now apply IH].
      * right. exists (k :: pre), y, post. subst keys.
        repeat split; [|exact H3].
        intros z [Hz|Hz]; [now subst|now apply H2].
Qed.

(** [add_node] on a case that already has a level, as in a sub-graph: no
    exception and no warning; the level found is that of the first node
    that bears the name of the dependency plus one, 0 without dependency,
    and the level the case had when no node bears that name. *)
Lemma add_node_leveled (g : dependency_graph) (s : store) (x : ref) :
  ~ In x (nodes g) ->
  (forall y, In y (nodes g ++ [x]) -> level (s y) <> None) ->
  exists g' lv,
    add_node g s x = Ok (g', upd s x (set_level (s x) (Some lv)), None) /\
    nodes g' = nodes g ++ [x] /\
    (forall z, z <> x ->
       dict_get (graph_dict g') z = dict_get (graph_dict g) z) /\
    (truthy_str (depends (s x)) = false -> lv = 0) /\
    (forall d, depends (s x) = Some d -> d <> EmptyString ->
       (forall y, In y (nodes g ++ [x]) -> neighbor_name (s y) <> d) ->
       level (s x) = Some lv /\ dict_get (graph_dict g') x = Some None).
Proof.
  intros Hin Hlev.
  destruct (truthy_str (depends (s x))) eqn:Ht.
  - destruct (truthy_str_some _ Ht) as [d [Hd Hne]].
    destruct (scan_split (nodes g ++ [x]) s d)
      as [Hnone|[pre [y [post [Heq [Hpre Hy]]]]]].
    + destruct (level (s x)) as [l|] eqn:Hl.
      2:{ exfalso. apply (Hlev x); [apply in_or_app; right; now left|exact Hl]. }
      exists (with_max_proc (with_dict g (dict_set (graph_dict g) x None))
                (py_max (max_proc g) (n_procs (s x)))), l.
      split.
      { unfold add_node. rewrite (dict_mem_false _ _ Hin), Ht, Hd.
        cbn [graph_dict with_dict].
        rewrite add_node_scan_none.
        - cbn [bind]. rewrite Hl. cbn [bind].
          rewrite <- Hl, set_level_id, upd_id. reflexivity.
        - intros z Hz. rewrite (dict_keys_set_new _ _ _ Hin) in Hz.
          now apply Hnone. }
      unfold nodes. cbn [graph_dict with_max_proc with_dict].
      split; [now apply dict_keys_set_new|].
      split; [intros z Hz; now apply dict_get_set_other|].
      split; [discriminate|].
      intros d' Hd' _ _. split; [reflexivity|apply dict_get_set_same].
    + destruct (level (s y)) as [l|] eqn:Hl.
      2:{ exfalso. apply (Hlev y); [|exact Hl]. rewrite Heq.
          apply in_or_app. right. now left. }
      subst d.
      eexists _, (l + 1). split.
      { apply (add_node_child g s x y pre post l); assumption. }
      unfold nodes. cbn [graph_dict].
      split.
      { rewrite dict_keys_set_old.
        - now apply dict_keys_set_new.
        - rewrite dict_keys_set_new by exact Hin.
          apply in_or_app. right. now left. }
      split.
      { intros z Hz. now rewrite !dict_get_set_other. }
      split; [discriminate|].
      intros d' Hd' _ Hall. exfalso. rewrite Hd in Hd'. inversion Hd'.
      apply (Hall y); [|assumption]. fold (nodes g). rewrite Heq.
      apply in_or_app. right. now left.
  - exists (with_max_proc (with_dict g (dict_set (graph_dict g) x None))
              (py_max (max_proc g) (n_procs (s x)))), 0.
    split; [now apply add_node_root|].
    unfold nodes. cbn [graph_dict with_max_proc with_dict].
    split; [now apply dict_keys_set_new|].
    split; [intros z Hz; now apply dict_get_set_other|].
    split; [reflexivity|].
    intros d Hd Hne _. exfalso. rewrite Hd in Ht. simpl in Ht.
    apply negb_false_iff in Ht. apply String.eqb_eq in Ht. contradiction.
Qed.

Lemma neighbor_name_set_level (c : Case) (v : option Z) :
  neighbor_name (set_level c v) = neighbor_name c.
Proof. reflexivity. Qed.

Lemma upto_app (x : ref) (l1 l2 : list ref) :
  ~ In x l1 -> upto x (l1 ++ x :: l2) = l1 ++ [x].
Proof.
  induction l1 as [|y l1 IH]; simpl; intros H.
  - now rewrite Nat.eqb_refl.
  - destruct (Nat.eqb y x) eqn:E.
    + apply Nat.eqb_eq in E. exfalso. apply H. now left.
    + f_equal. apply IH. intros Hin. apply H. now right.
Qed.

Lemma upto_incl (x y : ref) (l : list ref) : In y (upto x l) -> In y l.
Proof.
  induction l as [|a l IH]; simpl; [trivial|].
  destruct (Nat.eqb a x).
  - intros [H|[]]. now left.
  - intros [H|H]; [now left|right; now apply IH].
Qed.

Lemma upto_filter (f : ref -> bool) (x y : ref) (l : list ref) :
  f x = true -> In y (upto x (filter f l)) -> In y (upto x l).
Proof.
  intros Hx. induction l as [|a l IH]; simpl; [trivial|].
  destruct (f a) eqn:Ha; simpl.
  - destruct (Nat.eqb a x); [trivial|].
    intros [H|H]; [now left|right; now apply IH].
  - destruct (Nat.eqb a x) eqn:E.
    + apply Nat.eqb_eq in E. subst a. congruence.
    + intros H. right. now apply IH.
Qed.

Section Extract.

Variable s : store.
Variables filter_level filter_n_procs : option Z.

Local Abbreviation kept := (keep s filter_level filter_n_procs).

(** The test of one node, on a node the extraction has not touched. *)
Lemma extract_step_kept (sub : dependency_graph) (cur : store) (k : ref) :
  cur k = s k ->
  level (s k) <> None ->
  extract_step filter_level filter_n_procs (sub, cur) k =
    if kept k then
      '(sub1, s1, msg) <- add_node sub cur k ;;
      if truthy_str msg then Raise AttributeError else Ok (sub1, s1)
    else Ok (sub, cur).
Proof.
  intros Hk Hl. unfold extract_step, keep. rewrite Hk.
  destruct (level (s k)) as [l|]; [|contradiction].
  destruct filter_level; reflexivity.
Qed.

Lemma extract_loop_spec (keys : list ref) :
  forall (done : list ref) (sub : dependency_graph) (cur : store),
  NoDup (done ++ keys) ->
  nodes sub = filter kept done ->
  (forall y, cur y = set_level (s y) (level (cur y))) ->
  (forall y, In y (done ++ keys) -> level (cur y) <> None) ->
  (forall y, ~ In y (nodes sub) -> cur y = s y) ->
  exists sub' cur',
    extract_loop filter_level filter_n_procs keys (sub, cur) = Ok (sub', cur') /\
    nodes sub' = filter kept (done ++ keys) /\
    (forall y, cur' y = set_level (s y) (level (cur' y))) /\
    (forall y, ~ In y (nodes sub') -> cur' y = s y) /\
    (forall x, In x (nodes sub) ->
       cur' x = cur x /\
       dict_get (graph_dict sub') x = dict_get (graph_dict sub) x) /\
    (forall x, In x (nodes sub') -> ~ In x (nodes sub) ->
       settled s sub' cur' x).
Proof.
  induction keys as [|k keys IH]; intros done sub cur Hnd Hsub Hinv Hlev Hout.
  - exists sub, cur. rewrite app_nil_r. cbn [extract_loop].
    repeat split; trivial; contradiction.
  - assert (Hk : ~ In k (nodes sub)).
    { rewrite Hsub. intros Hin. apply filter_In in Hin as [Hin _].
      apply NoDup_remove_2 in Hnd. apply Hnd. apply in_or_app. now left. }
    assert (Hcur : cur k = s k) by now apply Hout.
    assert (Hsl : level (s k) <> None).
    { rewrite <- Hcur. apply Hlev. apply in_or_app. right. now left. }
    assert (Happ : (done ++ [k]) ++ keys = done ++ k :: keys).
    { now rewrite <- app_assoc. }
    cbn [extract_loop]. rewrite (extract_step_kept sub cur k Hcur Hsl).
    destruct (kept k) eqn:Hkept.
    + destruct (add_node_leveled sub cur k Hk)
        as [sub1 [lv [Hadd [Hn1 [Hget1 [Hroot1 Horph1]]]]]].
      { intros y Hy. apply Hlev. apply in_app_or in Hy as [Hy|[Hy|[]]].
        - rewrite Hsub in Hy. apply filter_In in Hy as [Hy _].
          apply in_or_app. now left.
        - subst y. apply in_or_app. right. now left. }
      rewrite Hadd. cbn [bind truthy_str].
      set (cur1 := upd cur k (set_level (cur k) (Some lv))) in *.
      assert (Hc1k : cur1 k = set_level (s k) (Some lv)).
      { unfold cur1. now rewrite upd_same, Hcur. }
      assert (Hc1o : forall y, y <> k -> cur1 y = cur y).
      { intros y Hy. unfold cur1. now apply upd_other. }
      destruct (IH (done ++ [k]) sub1 cur1) as
        [sub' [cur' [Hrun [Hn' [Hinv' [Hout' [Hold' Hnew']]]]]]].
      * now rewrite Happ.
      * rewrite Hn1, Hsub, filter_app. cbn [filter]. now rewrite Hkept.
      * intros y. destruct (Nat.eq_dec y k) as [->|Hy].
        -- now rewrite Hc1k.
        -- rewrite (Hc1o y Hy). apply Hinv.
      * intros y Hy. rewrite Happ in Hy.
        destruct (Nat.eq_dec y k) as [->|Hyk].
        -- rewrite Hc1k. discriminate.
        -- rewrite (Hc1o y Hyk). now apply Hlev.
      * intros y Hy. rewrite Hn1 in Hy.
        assert (Hyk : y <> k).
        { intros ->. apply Hy. apply in_or_app. right. now left. }
        rewrite (Hc1o y Hyk). apply Hout. intros Hin. apply Hy.
        apply in_or_app. now left.
      * rewrite Happ in Hn'.
        assert (Hk1 : In k (nodes sub1)).
        { rewrite Hn1. apply in_or_app. right. now left. }
        assert (Hsub1 : upto k (nodes sub') = nodes sub ++ [k]).
        { rewrite Hn', filter_app. cbn [filter]. rewrite Hkept, <- Hsub.
          now apply upto_app. }
        exists sub', cur'.
        split; [exact Hrun|]. split; [exact Hn'|]. split; [exact Hinv'|].
        split; [exact Hout'|]. split.
        { intros x Hx.
          assert (Hx1 : In x (nodes sub1)).
          { rewrite Hn1. apply in_or_app. now left. }
          assert (Hxk : x <> k) by (intros ->; contradiction).
          destruct (Hold' x Hx1) as [E1 E2]. split.
          - rewrite E1. now apply Hc1o.
          - rewrite E2. now apply Hget1. }
        intros x Hx Hnx. destruct (Nat.eq_dec x k) as [->|Hxk].
        -- destruct (Hold' k Hk1) as [E1 E2]. split.
           ++ intros Hf. rewrite E1, Hc1k. cbn [level set_level]. f_equal.
              apply Hroot1. now rewrite Hcur.
           ++ intros d Hd Hne Hall.
              destruct (Horph1 d) as [F1 F2].
              ** now rewrite Hcur.
              ** exact Hne.
              ** intros y Hy. rewrite (Hinv y), neighbor_name_set_level.
                 apply Hall. now rewrite Hsub1.
              ** split.
                 --- rewrite E1, Hc1k. cbn [level set_level].
                     rewrite <- F1. now rewrite Hcur.
                 --- now rewrite E2.
        -- apply Hnew'; [assumption|]. rewrite Hn1. intros Hin.
           apply in_app_or in Hin as [Hin|[Hin|[]]]; [contradiction|].
           now apply Hxk.
    + destruct (IH (done ++ [k]) sub cur) as
        [sub' [cur' [Hrun [Hn' [Hinv' [Hout' [Hold' Hnew']]]]]]].
      * now rewrite Happ.
      * rewrite Hsub, filter_app. cbn [filter]. rewrite Hkept.
        now rewrite app_nil_r.
      * exact Hinv.
      * intros y Hy. rewrite Happ in Hy. now apply Hlev.
      * exact Hout.
      * rewrite Happ in Hn'. exists sub', cur'.
        split; [exact Hrun|]. split; [exact Hn'|]. split; [exact Hinv'|].
        split; [exact Hout'|]. split; assumption.
Qed.

End Extract.

(** [Examples.chain_graph] and [Examples.chain_built] are what the three
    calls of [add_node] leave. *)
Lemma chain_graph_built :
  exists s3 msgs,
    add_nodes init Examples.chain [0%nat; 1%nat; 2%nat]
      = Ok (Examples.chain_graph, s3, msgs) /\
    msgs = [None; None; None] /\
    s3 0%nat = Examples.chain_built 0%nat /\
    s3 1%nat = Examples.chain_built 1%nat /\
    s3 2%nat = Examples.chain_built 2%nat.
Proof. eexists _, _. split; [reflexivity|]. repeat split. Qed.

(** The whole extraction, from the empty sub-graph. *)
Lemma extract_sub_graph_spec (g : dependency_graph) (s : store)
    (filter_level filter_n_procs : option Z) :
  NoDup (nodes g) ->
  (forall y, In y (nodes g) -> level (s y) <> None) ->
  exists sub s',
    extract_sub_graph g s filter_level filter_n_procs = Ok (sub, s') /\
    nodes sub = filter (keep s filter_level filter_n_procs) (nodes g) /\
    (forall y, s' y = set_level (s y) (level (s' y))) /\
    (forall y, ~ In y (nodes sub) -> s' y = s y) /\
    (forall x, In x (nodes sub) -> settled s sub s' x).
Proof.
  intros Hnd Hlev.
  destruct (extract_loop_spec s filter_level filter_n_procs (nodes g) [] init s)
    as [sub [s' [H1 [H2 [H3 [H4 [_ H5]]]]]]]; trivial.
  - intros y. now rewrite set_level_id.
  - exists sub, s'.
    split; [exact H1|]. split; [exact H2|]. split; [exact H3|].
    split; [exact H4|].
    intros x Hx. apply H5; [assumption|]. intros [].
Qed.

(** C6. In a graph whose nodes all have a level, [extract_sub_graph] raises
    nothing and issues no warning; the sub-graph holds the nodes that pass
    the filters, in the order of the graph; a node kept whose dependency is
    the name of no node kept has no edge in the sub-graph and keeps the
    level it had in the graph: it is not put back at level 0. *)
Theorem sub_graph_orphan_keeps_level (g : dependency_graph) (s : store)
    (filter_level filter_n_procs : option Z) :
  NoDup (nodes g) ->
  (forall y, In y (nodes g) -> level (s y) <> None) ->
  exists sub s',
    extract_sub_graph g s filter_level filter_n_procs = Ok (sub, s') /\
    nodes sub = filter (keep s filter_level filter_n_procs) (nodes g) /\
    forall x d,
      In x (nodes sub) ->
      depends (s x) = Some d -> d <> EmptyString ->
      (forall y, In y (nodes sub) -> neighbor_name (s y) <> d) ->
      level (s' x) = level (s x) /\ dict_get (graph_dict sub) x = Some None.
Proof.
  intros Hnd Hlev.
  destruct (extract_sub_graph_spec g s filter_level filter_n_procs Hnd Hlev)
    as [sub [s' [H1 [H2 [_ [_ H3]]]]]].
  exists sub, s'. split; [exact H1|]. split; [exact H2|].
  intros x d Hx Hd Hne Hall.
  destruct (H3 x Hx) as [_ H]. apply (H d Hd Hne).
  intros y Hy. apply Hall. eapply upto_incl. exact Hy.
Qed.

(** The nodes of level 1 of the chain: [S/B/RESU/run1] alone, whose
    dependency [S/A/RESU/run1] is left out. *)
Lemma sub_graph_orphan_keeps_level_witness :
  exists sub s',
    extract_sub_graph Examples.chain_graph Examples.chain_built (Some 1) None
      = Ok (sub, s') /\
    nodes sub = [1%nat] /\
    level (s' 1%nat) = Some 1 /\
    dict_get (graph_dict sub) 1%nat = Some None.
Proof.
  destruct (sub_graph_orphan_keeps_level Examples.chain_graph
              Examples.chain_built (Some 1) None)
    as [sub [s' [H1 [H2 H3]]]].
  - repeat constructor; simpl; intuition discriminate.
  - intros y Hy. simpl in Hy.
    destruct Hy as [<-|[<-|[<-|[]]]]; discriminate.
  - exists sub, s'. split; [exact H1|]. split; [exact H2|].
    apply (H3 1%nat "S/A/RESU/run1"%string).
    + rewrite H2. simpl. now left.
    + reflexivity.
    + discriminate.
    + intros y Hy. rewrite H2 in Hy. simpl in Hy.
      destruct Hy as [<-|[]]. vm_compute. discriminate.
Defined.

(** The same extraction, computed: the node kept, whose parent is filtered
    out, is at level 1 in the sub-graph, not at level 0. *)
Lemma sub_graph_orphan_not_level_0 :
  exists sub s',
    extract_sub_graph Examples.chain_graph Examples.chain_built (Some 1) None
      = Ok (sub, s') /\
    nodes sub = [1%nat] /\
    depends (Examples.chain_built 1%nat) = Some "S/A/RESU/run1"%string /\
    dict_get (graph_dict sub) 1%nat = Some None /\
    level (s' 1%nat) = Some 1.
Proof. eexists _, _. split; [reflexivity|]. repeat split. Qed.

(** ** The size of the slurm batches *)

(** In a well-formed graph the extraction of a (level, n_procs) cell
    changes no case: no node of the cell depends on another one. *)
Lemma extract_cell (g : dependency_graph) (s : store) (L p : Z) :
  well_formed g s ->
  exists sub,
    extract_sub_graph g s (Some L) (Some p) = Ok (sub, s) /\
    nodes sub = filter (keep s (Some L) (Some p)) (nodes g).
Proof.
  intros Hwf.
  destruct (extract_sub_graph_spec g s (Some L) (Some p))
    as [sub [s' [H1 [H2 [H3 [H4 H5]]]]]].
  - apply (wf_nodup _ _ Hwf).
  - intros y Hy. destruct (wf_level _ _ Hwf y Hy) as [l [E _]].
    rewrite E. discriminate.
  - assert (Hs : s' = s).
    { apply functional_extensionality. intros y.
      rewrite (H3 y). rewrite <- (set_level_id (s y)) at 2. f_equal.
      destruct (in_dec Nat.eq_dec y (nodes sub)) as [Hy|Hy].
      2:{ now rewrite (H4 y Hy). }
      assert (Hk : In y (nodes g) /\ keep s (Some L) (Some p) y = true).
      { rewrite H2 in Hy. now apply filter_In in Hy. }
      destruct Hk as [Hg Hk].
      assert (HL : forall z, keep s (Some L) (Some p) z = true ->
                             level (s z) = Some L).
      { intros z Hz. unfold keep in Hz. apply andb_true_iff in Hz as [Hz _].
        destruct (level (s z)) as [l|]; [|discriminate].
        apply Z.eqb_eq in Hz. now subst. }
      destruct (H5 y Hy) as [Hroot Horph].
      destruct (truthy_str (depends (s y))) eqn:Ht.
      - destruct (truthy_str_some _ Ht) as [d [Hd Hne]].
        apply (Horph d Hd Hne). intros z Hz Hname.
        assert (Hzs : In z (nodes sub)) by (eapply upto_incl; exact Hz).
        rewrite H2 in Hz. apply upto_filter in Hz; [|exact Hk].
        rewrite H2 in Hzs. apply filter_In in Hzs as [_ Hzk].
        rewrite <- Hname in Hd.
        pose proof (wf_child _ _ Hwf y z L Hg Hz Hd (HL z Hzk)) as E.
        rewrite (HL y Hk) in E. inversion E. lia.
      - rewrite (Hroot eq_refl). symmetry. now apply (wf_root _ _ Hwf). }
    subst s'. exists sub. split; assumption.
Qed.

Lemma count_short_cnt (s : store) (cases : list ref) (nb : Z) :
  Slurm.count_short s cases nb = nb + cnt (short s) cases.
Proof.
  unfold Slurm.count_short, cnt. revert nb.
  induction cases as [|c cases IH]; intros nb; cbn [fold_left filter].
  - simpl. lia.
  - rewrite IH. unfold short at 2. destruct (expected_time (s c) <? 5).
    + cbn [List.length]. lia.
    + lia.
Qed.

Lemma cnt_filter (f g : ref -> bool) (l : list ref) :
  cnt f (filter g l) = cnt (fun x => (f x && g x)%bool) l.
Proof.
  unfold cnt. f_equal. f_equal.
  induction l as [|a l IH]; cbn [filter]; [reflexivity|].
  destruct (g a); cbn [filter].
  - rewrite andb_true_r. destruct (f a); now rewrite IH.
  - rewrite andb_false_r. exact IH.
Qed.

Lemma cnt_ext (f g : ref -> bool) (l : list ref) :
  (forall x, In x l -> f x = g x) -> cnt f l = cnt g l.
Proof.
  intros H. unfold cnt. f_equal. f_equal. now apply filter_ext_in.
Qed.

Lemma cnt_split (f g h : ref -> bool) (l : list ref) :
  (forall x, In x l -> h x = (f x || g x)%bool) ->
  (forall x, In x l -> (f x && g x)%bool = false) ->
  cnt f l + cnt g l = cnt h l.
Proof.
  unfold cnt. induction l as [|a l IH]; intros Hh Hd; [reflexivity|].
  assert (IH' : Z.of_nat (List.length (filter f l))
                + Z.of_nat (List.length (filter g l))
                = Z.of_nat (List.length (filter h l))).
  { apply IH; intros x Hx; [apply Hh|apply Hd]; now right. }
  specialize (Hh a (or_introl eq_refl)). specialize (Hd a (or_introl eq_refl)).
  cbn [filter]. rewrite Hh.
  destruct (f a), (g a); cbn [orb andb] in *; try discriminate;
    cbn [List.length]; lia.
Qed.

Lemma memZ_In (z : Z) (l : list Z) : memZ z l = true <-> In z l.
Proof.
  induction l as [|y l IH]; simpl.
  - split; [discriminate|contradiction].
  - rewrite orb_true_iff, Z.eqb_eq, IH. reflexivity.
Qed.

Lemma memZ_not_In (z : Z) (l : list Z) : ~ In z l -> memZ z l = false.
Proof.
  intros H. destruct (memZ z l) eqn:E; [|reflexivity].
  apply memZ_In in E. contradiction.
Qed.

Lemma range_In (z n : Z) : In z (Slurm.range n) <-> 0 <= z < n.
Proof.
  unfold Slurm.range. rewrite in_map_iff. split.
  - intros [k [<- Hk]]. apply in_seq in Hk. lia.
  - intros H. exists (Z.to_nat z). split; [lia|]. apply in_seq. lia.
Qed.

Lemma range_NoDup (n : Z) : NoDup (Slurm.range n).
Proof.
  unfold Slurm.range. apply Injective_map_NoDup.
  - intros a b. apply Nat2Z.inj.
  - apply seq_NoDup.
Qed.

Section CheckBatches.

Variable g : dependency_graph.
Variable s : store.
Hypothesis Hwf : well_formed g s.

Lemma check_nproc_loop_count (L : Z) (nprocs : list Z) (nb : Z) :
  NoDup nprocs ->
  Slurm.check_nproc_loop g L nprocs (nb, s) =
    Ok (nb + cnt (fun x => (short s x && level_in s [L] x
                            && memZ (n_procs (s x) - 1) nprocs)%bool)
               (nodes g), s).
Proof.
  revert nb. induction nprocs as [|p nprocs IH]; intros nb Hnd.
  - cbn [Slurm.check_nproc_loop]. f_equal. f_equal.
    rewrite (cnt_ext _ (fun _ => false)).
    + unfold cnt. induction (nodes g); simpl; [lia|assumption].
    + intros x _. cbn [memZ]. now rewrite andb_false_r.
  - cbn [Slurm.check_nproc_loop].
    destruct (extract_cell g s L (p + 1) Hwf) as [sub [E1 E2]].
    rewrite E1. cbn [bind]. inversion Hnd as [|? ? Hp Hnd']. subst.
    rewrite (IH _ Hnd'). f_equal. f_equal.
    rewrite count_short_cnt, E2, cnt_filter, <- Z.add_assoc. f_equal.
    apply cnt_split.
    + intros x _. unfold keep, level_in. cbn [memZ].
      destruct (level (s x)) as [l|]; split_tests.
    + intros x _. unfold keep.
      destruct (Z.eqb_spec (n_procs (s x)) (p + 1)) as [E|E].
      * replace (n_procs (s x) - 1) with p by lia.
        rewrite (memZ_not_In _ _ Hp). now rewrite !andb_false_r.
      * now rewrite !andb_false_r.
Qed.

Lemma check_level_loop_count (levels : list Z) (nb : Z) :
  NoDup levels ->
  Slurm.check_level_loop g levels (nb, s) =
    Ok (nb + cnt (fun x => (short s x && level_in s levels x
                            && memZ (n_procs (s x) - 1)
                                 (Slurm.range (max_proc g)))%bool)
               (nodes g), s).
Proof.
  revert nb. induction levels as [|L levels IH]; intros nb Hnd.
  - cbn [Slurm.check_level_loop]. f_equal. f_equal.
    rewrite (cnt_ext _ (fun _ => false)).
    + unfold cnt. induction (nodes g); simpl; [lia|assumption].
    + intros x _. unfold level_in. cbn [memZ].
      destruct (level (s x)); now rewrite andb_false_r.
  - cbn [Slurm.check_level_loop].
    rewrite check_nproc_loop_count by apply range_NoDup. cbn [bind].
    inversion Hnd as [|? ? HL Hnd']. subst.
    rewrite (IH _ Hnd'). f_equal. f_equal.
    rewrite <- Z.add_assoc. f_equal.
    apply cnt_split.
    + intros x _. unfold level_in. cbn [memZ].
      destruct (level (s x)) as [l|]; split_tests.
    + intros x _. unfold level_in. cbn [memZ].
      destruct (level (s x)) as [l|]; [|now rewrite !andb_false_r].
      rewrite orb_false_r.
      destruct (Z.eqb_spec L l) as [E|E].
      * subst l. rewrite (memZ_not_In _ _ HL). now rewrite !andb_false_r.
      * now rewrite !andb_false_r.
Qed.

Lemma check_loops_count :
  Slurm.check_level_loop g (Slurm.range (max_level g + 1)) (0, s) =
    Ok (cnt (short s) (nodes g), s).
Proof.
  rewrite check_level_loop_count by apply range_NoDup.
  f_equal. f_equal. rewrite Z.add_0_l. apply cnt_ext.
  intros x Hx.
  destruct (wf_level _ _ Hwf x Hx) as [l [El Hl]].
  pose proof (wf_procs _ _ Hwf x Hx) as Hp.
  unfold level_in. rewrite El.
  assert (E1 : memZ l (Slurm.range (max_level g + 1)) = true).
  { apply memZ_In, range_In. lia. }
  assert (E2 : memZ (n_procs (s x) - 1) (Slurm.range (max_proc g)) = true).
  { apply memZ_In, range_In. lia. }
  rewrite E1, E2. now rewrite !andb_true_r.
Qed.

End CheckBatches.

(** On a well-formed graph and with the batch size at its default of 1,
    [check_slurm_batches] counts every case of the graph whose expected time
    is under 5 minutes, once; the batch size becomes 50 when there are more
    than 50 of them and stays 1 otherwise; the cases are unchanged. *)
Lemma check_slurm_batches_count (g : dependency_graph) (s : store) :
  well_formed g s ->
  Slurm.check_slurm_batches g 1 s =
    Ok (if 50 <? Z.of_nat (List.length (filter (short s) (nodes g)))
        then 50 else 1, s).
Proof.
  intros Hwf. unfold Slurm.check_slurm_batches. cbn [Z.eqb Pos.eqb].
  rewrite (check_loops_count g s Hwf). cbn [bind]. unfold cnt.
  now destruct (50 <? _).
Qed.

(** The batch size on sweeps of 51, 50 and 49 short cases. *)
Lemma auto_tune_sweeps :
  Examples.sweep_batch_size 51 1 = Some 50 /\
  Examples.sweep_batch_size 50 1 = Some 1 /\
  Examples.sweep_batch_size 49 1 = Some 1 /\
  Examples.sweep_batch_size 51 4 = Some 4.
Proof. repeat split; vm_compute; reflexivity. Qed.

Lemma chain_well_formed :
  well_formed Examples.chain_graph Examples.chain_built.
Proof.
  constructor.
  - repeat constructor; simpl; intuition discriminate.
  - simpl. lia.
  - intros x Hx. simpl in Hx.
    destruct Hx as [<-|[<-|[<-|[]]]]; eexists; (split; [reflexivity|simpl; lia]).
  - intros x Hx. simpl in Hx.
    destruct Hx as [<-|[<-|[<-|[]]]]; simpl; lia.
  - intros x Hx. simpl in Hx.
    destruct Hx as [<-|[<-|[<-|[]]]]; intros H; try reflexivity;
      discriminate H.
  - intros x y l Hx Hy. simpl in Hx.
    destruct Hx as [<-|[<-|[<-|[]]]]; simpl in Hy;
      repeat (destruct Hy as [<-|Hy]); try contradiction;
      vm_compute; intros H1 H2; inversion H2; try discriminate H1;
      reflexivity.
Qed.

(** The chain has two cases under 5 minutes: the batch size stays 1. *)
Lemma check_slurm_batches_chain :
  Slurm.check_slurm_batches Examples.chain_graph 1 Examples.chain_built
    = Ok (1, Examples.chain_built).
Proof.
  exact (check_slurm_batches_count Examples.chain_graph Examples.chain_built
           chain_well_formed).
Qed.

(** ** The packing of the cases of a cell *)

Lemma static_refl (s : store) : static s s.
Proof. intros r. repeat split. Qed.

Lemma static_trans (s1 s2 s3 : store) :
  static s1 s2 -> static s2 s3 -> static s1 s3.
Proof.
  intros H12 H23 r. destruct (H12 r) as [A1 [A2 A3]].
  destruct (H23 r) as [B1 [B2 B3]].
  repeat split; congruence.
Qed.

Lemma static_upd (s : store) (r : ref) (c : Case) :
  expected_time c = expected_time (s r) ->
  compute c = compute (s r) ->
  is_compiled c = is_compiled (s r) ->
  static s (upd s r c).
Proof.
  intros H1 H2 H3 r'. unfold upd. destruct (Nat.eqb r' r) eqn:E.
  - apply Nat.eqb_eq in E. subst r'. repeat split; assumption.
  - repeat split.
Qed.

Lemma stamp_job_id_static (cases : list ref) (j : string) (s : store) :
  static s (Slurm.stamp_job_id s cases j).
Proof.
  revert s. induction cases as [|c cases IH]; intros s; simpl.
  - apply static_refl.
  - eapply static_trans; [|apply IH]. now apply static_upd.
Qed.

Section PackFacts.

Variable os_path_join : list string -> string.
Variable bindir : string.
Variable exe : string.
Variable sbatch_job_id : Z -> option string.
Variable slurm_batch_wtime : Z.
Variable slurm_batch_args : list string.
Variable mem_log : bool.
Variable graph : dependency_graph.

Local Abbreviation append_case :=
  (Slurm.append_case os_path_join bindir exe mem_log graph).
Local Abbreviation submit := (Slurm.submit sbatch_job_id slurm_batch_args).
Local Abbreviation case_step :=
  (Slurm.case_step os_path_join bindir exe sbatch_job_id slurm_batch_wtime
     slurm_batch_args mem_log graph).
Local Abbreviation cases_loop :=
  (Slurm.cases_loop os_path_join bindir exe sbatch_job_id slurm_batch_wtime
     slurm_batch_args mem_log graph).
Local Abbreviation run_cell_cases :=
  (Slurm.run_cell_cases os_path_join bindir exe sbatch_job_id
     slurm_batch_wtime slurm_batch_args mem_log graph).

(** Every call of [sbatch] prints a job identifier. *)
Hypothesis sbatch_ok : forall batch_id, sbatch_job_id batch_id <> None.

Local Abbreviation has_parent := (Spec.has_parent graph).

Lemma build_run_batch_static (c : Case) :
  let c1 := snd (CaseM.build_run_batch os_path_join bindir exe c None mem_log) in
  expected_time c1 = expected_time c /\ compute c1 = compute c /\
  is_compiled c1 = is_compiled c.
Proof.
  unfold CaseM.build_run_batch, CaseM.build_run_cmd, CaseM.add_kw_args.
  destruct (truthy_str (kw_args c)); cbn; repeat split.
Qed.

Lemma append_case_shape (level : Z) (st : Slurm.sched) (c : ref) :
  has_parent level c ->
  exists st',
    append_case level st c = Ok st' /\
    static (Slurm.sc_store st) (Slurm.sc_store st') /\
    Slurm.cur_batch_id st' = Slurm.cur_batch_id st /\
    shape_of st' =
      add_shape c (expected_time (Slurm.sc_store st c)) (shape_of st).
Proof.
  intros Hp. unfold Slurm.append_case.
  pose proof (build_run_batch_static (Slurm.sc_store st c)) as Hb.
  destruct (CaseM.build_run_batch os_path_join bindir exe
              (Slurm.sc_store st c) None mem_log) as [cmd c1].
  cbn [snd] in Hb. destruct Hb as [Hb1 [Hb2 Hb3]].
  assert (Hst : static (Slurm.sc_store st) (upd (Slurm.sc_store st) c c1))
    by now apply static_upd.
  destruct (0 <? level) eqn:El.
  - destruct Hp as [Hp|[p Hp]]; [apply Z.ltb_lt in El; lia|].
    rewrite Hp.
    destruct (negb _); cbn [bind]; eexists; (split; [reflexivity|]);
      cbn [Slurm.sc_store Slurm.cur_batch_id]; (split; [exact Hst|]);
      (split; [reflexivity|]);
      unfold shape_of, add_shape; cbn; now rewrite upd_same, Hb1.
  - cbn [bind]. eexists. split; [reflexivity|].
    cbn [Slurm.sc_store Slurm.cur_batch_id]. split; [exact Hst|].
    split; [reflexivity|].
    unfold shape_of, add_shape. cbn. now rewrite upd_same, Hb1.
Qed.

Lemma submit_shape (in_loop : bool) (level nproc : Z) (st : Slurm.sched) :
  exists st',
    submit in_loop level nproc st = Ok st' /\
    static (Slurm.sc_store st) (Slurm.sc_store st') /\
    shape_of st' = flush_shape (shape_of st).
Proof.
  unfold Slurm.submit.
  destruct (sbatch_job_id (Slurm.cur_batch_id st)) as [j|] eqn:Ej.
  2:{ now apply sbatch_ok in Ej. }
  eexists. split; [reflexivity|]. cbn [Slurm.sc_store]. split.
  - apply stamp_job_id_static.
  - unfold shape_of, flush_shape, batches. cbn. now rewrite map_app.
Qed.

Lemma eligible_static (s s' : store) (c : ref) :
  static s s' -> eligible s' c = eligible s c.
Proof.
  intros H. unfold eligible. destruct (H c) as [_ [H2 H3]].
  now rewrite H2, H3.
Qed.

(** One case of the loop follows [pack_step], with the flags and the times
    of the store [s0] the cell started from. *)
Lemma case_step_refines (size level nproc : Z) (s0 : store)
    (st : Slurm.sched) (c : ref) :
  static s0 (Slurm.sc_store st) ->
  has_parent level c ->
  exists st',
    case_step size level nproc st c = Ok st' /\
    static s0 (Slurm.sc_store st') /\
    shape_of st' = pack_step size slurm_batch_wtime s0 (shape_of st) c.
Proof.
  intros Hs Hp. unfold Slurm.case_step, pack_step.
  fold (eligible (Slurm.sc_store st) c). rewrite (eligible_static _ _ c Hs).
  destruct (eligible s0 c).
  2:{ exists st. split; [reflexivity|]. split; [assumption|reflexivity]. }
  destruct (Hs c) as [Ht _]. rewrite Ht.
  change (Slurm.cur_batch_size (Slurm.sc_batch st)) with (sh_size (shape_of st)).
  change (Slurm.batch_total_time (Slurm.sc_batch st))
    with (sh_time (shape_of st)).
  destruct ((sh_size (shape_of st) =? 0)
            || (sh_time (shape_of st) + expected_time (s0 c)
                <? slurm_batch_wtime))%bool.
  - destruct (append_case_shape level st c Hp) as [st1 [E1 [S1 [_ Sh1]]]].
    rewrite E1. cbn [bind negb]. rewrite Ht in Sh1.
    change (Slurm.cur_batch_size (Slurm.sc_batch st1))
      with (sh_size (shape_of st1)).
    change (Slurm.batch_total_time (Slurm.sc_batch st1))
      with (sh_time (shape_of st1)).
    rewrite Sh1.
    destruct (_ || _ || _)%bool.
    + destruct (submit_shape true level nproc st1) as [st2 [E2 [S2 Sh2]]].
      rewrite E2. cbn [bind]. exists st2. split; [reflexivity|].
      split; [eauto using static_trans|]. now rewrite Sh2, Sh1.
    + cbn [bind]. exists st1. split; [reflexivity|].
      split; [eauto using static_trans|]. exact Sh1.
  - cbn [bind negb]. rewrite orb_true_r. cbn [orb].
    destruct (submit_shape true level nproc st) as [st2 [E2 [S2 Sh2]]].
    rewrite E2. cbn [bind].
    destruct (append_case_shape level st2 c Hp) as [st3 [E3 [S3 [_ Sh3]]]].
    rewrite E3. exists st3. split; [reflexivity|].
    split; [eauto using static_trans|].
    rewrite Sh3, Sh2. destruct (S2 c) as [Ht2 _]. rewrite Ht2, Ht.
    now rewrite orb_true_r.
Qed.

Lemma cases_loop_refines (size level nproc : Z) (s0 : store)
    (cases : list ref) :
  forall st,
  static s0 (Slurm.sc_store st) ->
  (forall c, In c cases -> has_parent level c) ->
  exists st',
    cases_loop size level nproc cases st = Ok st' /\
    static s0 (Slurm.sc_store st') /\
    shape_of st' = pack size slurm_batch_wtime s0 cases (shape_of st).
Proof.
  induction cases as [|c cases IH]; intros st Hs Hp.
  - exists st. split; [reflexivity|]. split; [assumption|reflexivity].
  - destruct (case_step_refines size level nproc s0 st c Hs)
      as [st1 [E1 [S1 Sh1]]]; [apply Hp; now left|].
    destruct (IH st1 S1) as [st2 [E2 [S2 Sh2]]].
    { intros c' Hc'. apply Hp. now right. }
    cbn [Slurm.cases_loop]. rewrite E1. cbn [bind].
    exists st2. split; [exact E2|]. split; [exact S2|].
    rewrite Sh2, Sh1. reflexivity.
Qed.

(** A cell follows [pack_cell]: the batches it submits are those of the
    packing on shapes. *)
Lemma run_cell_cases_refines (size level nproc : Z) (cases : list ref)
    (st : Slurm.sched) :
  (forall c, In c cases -> has_parent level c) ->
  exists st',
    run_cell_cases size level nproc cases st = Ok st' /\
    static (Slurm.sc_store st) (Slurm.sc_store st') /\
    batches (Slurm.submitted st') =
      pack_cell size slurm_batch_wtime (Slurm.sc_store st) cases
        (batches (Slurm.submitted st)).
Proof.
  intros Hp. unfold Slurm.run_cell_cases, pack_cell.
  destruct (cases_loop_refines size level nproc (Slurm.sc_store st) cases
              (Slurm.mkSched (Slurm.sc_store st) Slurm.empty_batch
                 (Slurm.cur_batch_id st) (Slurm.tot_job_id_list st)
                 (Slurm.submitted st)))
    as [st1 [E1 [S1 Sh1]]]; [apply static_refl|exact Hp|].
  rewrite E1. cbn [bind].
  change (Slurm.cur_batch_size (Slurm.sc_batch st1))
    with (sh_size (shape_of st1)).
  rewrite Sh1. unfold shape_of at 1. cbn.
  destruct (0 <? _).
  - destruct (submit_shape false level nproc st1) as [st2 [E2 [S2 Sh2]]].
    rewrite E2. exists st2. split; [reflexivity|].
    split; [eauto using static_trans|].
    change (batches (Slurm.submitted st2)) with (sh_done (shape_of st2)).
    now rewrite Sh2, Sh1.
  - exists st1. split; [reflexivity|]. split; [exact S1|].
    change (batches (Slurm.submitted st1)) with (sh_done (shape_of st1)).
    now rewrite Sh1.
Qed.

End PackFacts.

(** The three outcomes of a case in [pack_step]: it joins the batch, which
    stays open; it joins the batch, which is submitted; the batch is
    submitted and the case opens the next one. *)
Lemma pack_step_keep (size wtime : Z) (s : store) (c : ref) (n t : Z)
    (cs : list ref) (done : list (list ref * Z)) :
  eligible s c = true ->
  n = 0 \/ t + expected_time (s c) < wtime ->
  n + 1 < size -> t + expected_time (s c) < wtime ->
  pack_step size wtime s (mkShape n t cs done) c =
    mkShape (n + 1) (t + expected_time (s c)) (cs ++ [c]) done.
Proof.
  intros He Hfit Hsize Htime. unfold pack_step. rewrite He.
  cbn [sh_size sh_time].
  assert (E1 : ((n =? 0) || (t + expected_time (s c) <? wtime))%bool = true).
  { apply orb_true_iff. rewrite Z.eqb_eq, Z.ltb_lt. exact Hfit. }
  rewrite E1. cbn [negb add_shape sh_size sh_time sh_cases sh_done].
  assert (E2 : (size <=? n + 1) = false) by (apply Z.leb_gt; lia).
  assert (E3 : (wtime <=? t + expected_time (s c)) = false)
    by (apply Z.leb_gt; lia).
  now rewrite E2, E3.
Qed.

Lemma pack_step_flush (size wtime : Z) (s : store) (c : ref) (n t : Z)
    (cs : list ref) (done : list (list ref * Z)) :
  eligible s c = true ->
  n = 0 \/ t + expected_time (s c) < wtime ->
  size <= n + 1 \/ wtime <= t + expected_time (s c) ->
  pack_step size wtime s (mkShape n t cs done) c =
    mkShape 0 0 [] (done ++ [(cs ++ [c], t + expected_time (s c))]).
Proof.
  intros He Hfit Hfull. unfold pack_step. rewrite He.
  cbn [sh_size sh_time].
  assert (E1 : ((n =? 0) || (t + expected_time (s c) <? wtime))%bool = true).
  { apply orb_true_iff. rewrite Z.eqb_eq, Z.ltb_lt. exact Hfit. }
  rewrite E1. cbn [negb add_shape sh_size sh_time sh_cases sh_done].
  assert (E2 : ((size <=? n + 1) || false
                || (wtime <=? t + expected_time (s c)))%bool = true).
  { rewrite orb_false_r. apply orb_true_iff. rewrite !Z.leb_le. exact Hfull. }
  now rewrite E2.
Qed.

Lemma pack_step_next (size wtime : Z) (s : store) (c : ref) (n t : Z)
    (cs : list ref) (done : list (list ref * Z)) :
  eligible s c = true ->
  n <> 0 -> wtime <= t + expected_time (s c) ->
  pack_step size wtime s (mkShape n t cs done) c =
    mkShape 1 (expected_time (s c)) [c] (done ++ [(cs, t)]).
Proof.
  intros He Hn Htime. unfold pack_step. rewrite He.
  cbn [sh_size sh_time].
  assert (E1 : ((n =? 0) || (t + expected_time (s c) <? wtime))%bool = false).
  { apply orb_false_iff. rewrite Z.eqb_neq, Z.ltb_ge. now split. }
  rewrite E1. cbn [negb]. rewrite orb_true_r. reflexivity.
Qed.

(** The packing of four cases of 3 minutes under a budget of 10 minutes,
    by the size of the batches. *)
Lemma pack_four (size : Z) (s : store) (c1 c2 c3 c4 : ref)
    (done : list (list ref * Z)) :
  (forall c, In c [c1; c2; c3; c4] ->
     eligible s c = true /\ expected_time (s c) = 3) ->
  pack_cell size 10 s [c1; c2; c3; c4] done =
    done ++
    (if size <=? 1 then [([c1], 3); ([c2], 3); ([c3], 3); ([c4], 3)]
     else if size <=? 2 then [([c1; c2], 6); ([c3; c4], 6)]
          else [([c1; c2; c3], 9); ([c4], 3)]).
Proof.
  intros H.
  destruct (H c1) as [E1 T1]; [simpl; auto|].
  destruct (H c2) as [E2 T2]; [simpl; auto|].
  destruct (H c3) as [E3 T3]; [simpl; auto|].
  destruct (H c4) as [E4 T4]; [simpl; auto|].
  unfold pack_cell, pack. cbn [fold_left].
  destruct (Z.leb_spec size 1) as [L1|L1];
    [|destruct (Z.leb_spec size 2) as [L2|L2]].
  - rewrite (pack_step_flush size 10 s c1) by pack_side.
    rewrite (pack_step_flush size 10 s c2) by pack_side.
    rewrite (pack_step_flush size 10 s c3) by pack_side.
    rewrite (pack_step_flush size 10 s c4) by pack_side.
    rewrite T1, T2, T3, T4. cbn. now rewrite <- !app_assoc.
  - rewrite (pack_step_keep size 10 s c1) by pack_side.
    rewrite (pack_step_flush size 10 s c2) by pack_side.
    rewrite (pack_step_keep size 10 s c3) by pack_side.
    rewrite (pack_step_flush size 10 s c4) by pack_side.
    rewrite T1, T2, T3, T4. cbn. now rewrite <- !app_assoc.
  - rewrite (pack_step_keep size 10 s c1) by pack_side.
    rewrite (pack_step_keep size 10 s c2) by pack_side.
    destruct (Z.leb_spec size 3) as [L3|L3].
    + rewrite (pack_step_flush size 10 s c3) by pack_side.
      rewrite (pack_step_keep size 10 s c4) by pack_side.
      rewrite T1, T2, T3, T4. cbn. now rewrite <- !app_assoc.
    + rewrite (pack_step_keep size 10 s c3) by pack_side.
      rewrite (pack_step_next size 10 s c4) by pack_side.
      rewrite T1, T2, T3, T4. cbn. now rewrite <- !app_assoc.
Qed.

(** Twelve minutes do not go in one batch of at most 10 minutes. *)
Lemma two_batches_needed (parts : list (list ref * Z)) :
  fold_right (fun b acc => snd b + acc) 0 parts = 12 ->
  (forall b, In b parts -> snd b <= 10) ->
  (2 <= List.length parts)%nat.
Proof.
  intros Hsum Hall. destruct parts as [|b1 [|b2 parts]]; simpl in *.
  - discriminate.
  - specialize (Hall b1 (or_introl eq_refl)). lia.
  - lia.
Qed.

(** C4. Four cases of one cell, each computed and of 3 minutes, under a
    wall time of 10 minutes: no batch submitted sums to more than 10
    minutes, whatever the size of the batches; when that size is at least 3
    the batches are the first three cases, then the fourth, and no packing
    of these 12 minutes in batches of at most 10 has fewer batches; with a
    size of 2 the batches are two pairs, and with the default size of 1 each
    case is a batch of its own. *)
Theorem batch_packing_four
    (os_path_join : list string -> string) (bindir exe : string)
    (sbatch_job_id : Z -> option string) (slurm_batch_args : list string)
    (mem_log : bool) (graph : dependency_graph)
    (slurm_batch_size level nproc : Z) (c1 c2 c3 c4 : ref)
    (st : Slurm.sched) :
  (forall batch_id, sbatch_job_id batch_id <> None) ->
  (forall c, In c [c1; c2; c3; c4] -> has_parent graph level c) ->
  (forall c, In c [c1; c2; c3; c4] ->
     eligible (Slurm.sc_store st) c = true /\
     expected_time (Slurm.sc_store st c) = 3) ->
  exists st' new,
    Slurm.run_cell_cases os_path_join bindir exe sbatch_job_id 10
      slurm_batch_args mem_log graph slurm_batch_size level nproc
      [c1; c2; c3; c4] st = Ok st' /\
    batches (Slurm.submitted st') = batches (Slurm.submitted st) ++ new /\
    (forall b, In b new -> snd b <= 10) /\
    (3 <= slurm_batch_size ->
     new = [([c1; c2; c3], 9); ([c4], 3)] /\
     forall parts : list (list ref * Z),
       fold_right (fun b acc => snd b + acc) 0 parts = 12 ->
       (forall b, In b parts -> snd b <= 10) ->
       (List.length new <= List.length parts)%nat) /\
    (slurm_batch_size = 2 -> new = [([c1; c2], 6); ([c3; c4], 6)]) /\
    (slurm_batch_size <= 1 ->
     new = [([c1], 3); ([c2], 3); ([c3], 3); ([c4], 3)]).
Proof.
  intros Hjob Hpar Hcases.
  destruct (run_cell_cases_refines os_path_join bindir exe sbatch_job_id 10
              slurm_batch_args mem_log graph Hjob slurm_batch_size level
              nproc [c1; c2; c3; c4] st Hpar) as [st' [E [_ Hb]]].
  rewrite (pack_four _ _ _ _ _ _ _ Hcases) in Hb.
  exists st'. eexists. split; [exact E|]. split; [exact Hb|].
  destruct (Z.leb_spec slurm_batch_size 1);
    [|destruct (Z.leb_spec slurm_batch_size 2)].
  - split.
    { intros b Hin. simpl in Hin.
      destruct Hin as [<-|[<-|[<-|[<-|[]]]]]; simpl; lia. }
    split; [intros; lia|]. split; [intros; lia|]. reflexivity.
  - split.
    { intros b Hin. simpl in Hin. destruct Hin as [<-|[<-|[]]]; simpl; lia. }
    split; [intros; lia|]. split; [reflexivity|]. intros; lia.
  - split.
    { intros b Hin. simpl in Hin. destruct Hin as [<-|[<-|[]]]; simpl; lia. }
    split.
    { intros _. split; [reflexivity|].
      intros parts Hsum Hall. now apply two_batches_needed. }
    split; intros; lia.
Qed.

(** Four cases of the sweep at level 0, with batches of at most 50 cases:
    three cases, then one. *)
Lemma batch_packing_four_witness :
  exists st',
    Slurm.run_cell_cases Examples.join "bin" "code_saturne"
      Examples.job_numbers 10 [] false Examples.sweep_graph 50 0 0
      [0%nat; 1%nat; 2%nat; 3%nat]
      (Slurm.mkSched Examples.sweep Slurm.empty_batch 0 [] []) = Ok st' /\
    batches (Slurm.submitted st') =
      [([0%nat; 1%nat; 2%nat], 9); ([3%nat], 3)].
Proof.
  destruct (batch_packing_four Examples.join "bin" "code_saturne"
              Examples.job_numbers [] false Examples.sweep_graph 50 0 0
              0%nat 1%nat 2%nat 3%nat
              (Slurm.mkSched Examples.sweep Slurm.empty_batch 0 [] []))
    as [st' [new [E [Hb [_ [H3 _]]]]]].
  - intros batch_id. discriminate.
  - intros c _. left. lia.
  - intros c _. split; reflexivity.
  - exists st'. split; [exact E|]. rewrite Hb.
    destruct H3 as [H3 _]; [lia|]. now rewrite H3.
Defined.

(** [run_slurm_batches] on the graph of four cases of the sweep, with the
    default size of 1 case per batch: four batches of one case, where two
    batches would hold them, then the final submission. *)
Lemma batch_packing_default_size :
  Examples.sweep_batches 4 1 =
    Some [([0%nat], 3); ([1%nat], 3); ([2%nat], 3); ([3%nat], 3); ([], 10)] /\
  Examples.sweep_batches 4 50 =
    Some [([0%nat; 1%nat; 2%nat], 9); ([3%nat], 3); ([], 10)].
Proof. split; vm_compute; reflexivity. Qed.

(** ** The graph that add_node builds is well formed *)

Lemma upto_app_l (x : ref) (l1 l2 : list ref) :
  In x l1 -> upto x (l1 ++ l2) = upto x l1.
Proof.
  induction l1 as [|y l1 IH]; simpl; intros H; [contradiction|].
  destruct (Nat.eqb y x) eqn:E; [reflexivity|].
  f_equal. apply IH. destruct H as [H|H]; [|assumption].
  subst. now rewrite Nat.eqb_refl in E.
Qed.

Lemma init_well_formed (s : store) : well_formed init s.
Proof.
  constructor; simpl; try (intros; contradiction); try lia. constructor.
Qed.

(** A node added at level [lv] keeps the graph well formed when [lv] is 0
    for a case without dependency and one more than the level of every node
    that bears the name of its dependency. *)
Lemma well_formed_extend (g g' : dependency_graph) (s : store) (x : ref)
    (lv : Z) :
  well_formed g s ->
  ~ In x (nodes g) ->
  nodes g' = nodes g ++ [x] ->
  max_level g <= max_level g' ->
  0 <= lv <= max_level g' ->
  max_proc g' = py_max (max_proc g) (n_procs (s x)) ->
  1 <= n_procs (s x) ->
  (truthy_str (depends (s x)) = false -> lv = 0) ->
  (forall y l, In y (nodes g ++ [x]) ->
     depends (s x) = Some (neighbor_name (s y)) ->
     level (upd s x (set_level (s x) (Some lv)) y) = Some l -> lv = l + 1) ->
  well_formed g' (upd s x (set_level (s x) (Some lv))).
Proof.
  intros Hwf Hx Hn Hml Hlv Hmp Hnp Hroot Hchild.
  set (s' := upd s x (set_level (s x) (Some lv))) in *.
  assert (Hsx : s' x = set_level (s x) (Some lv)) by apply upd_same.
  assert (Hso : forall y, In y (nodes g) -> s' y = s y).
  { intros y Hy. apply upd_other. intros ->. contradiction. }
  assert (Hname : forall y, neighbor_name (s' y) = neighbor_name (s y)).
  { intros y. unfold s', upd. now destruct (Nat.eqb y x) eqn:E;
      [apply Nat.eqb_eq in E; subst|]. }
  unfold py_max in Hmp.
  constructor.
  - rewrite Hn. apply NoDup_app; [apply (wf_nodup _ _ Hwf)| |].
    + repeat constructor. intros [].
    + intros y Hy [<-|[]]. contradiction.
  - pose proof (wf_max _ _ Hwf). lia.
  - intros y Hy. rewrite Hn in Hy. apply in_app_or in Hy as [Hy|[<-|[]]].
    + rewrite (Hso y Hy). destruct (wf_level _ _ Hwf y Hy) as [l [E Hl]].
      exists l. split; [exact E|lia].
    + exists lv. rewrite Hsx. split; [reflexivity|lia].
  - intros y Hy. rewrite Hn in Hy. apply in_app_or in Hy as [Hy|[<-|[]]].
    + rewrite (Hso y Hy). pose proof (wf_procs _ _ Hwf y Hy). lia.
    + rewrite Hsx. cbn [n_procs set_level]. lia.
  - intros y Hy. rewrite Hn in Hy. apply in_app_or in Hy as [Hy|[<-|[]]].
    + rewrite (Hso y Hy). apply (wf_root _ _ Hwf y Hy).
    + rewrite Hsx. cbn [depends level set_level]. intros H.
      now rewrite (Hroot H).
  - intros z y l Hz Hy. rewrite Hname. rewrite Hn in Hz, Hy.
    apply in_app_or in Hz as [Hz|[<-|[]]].
    + rewrite (upto_app_l _ _ _ Hz) in Hy.
      assert (Hy' : In y (nodes g)) by (eapply upto_incl; exact Hy).
      rewrite (Hso z Hz), (Hso y Hy'). now apply (wf_child _ _ Hwf).
    + rewrite Hsx. cbn [depends level set_level]. intros Hd Hl.
      f_equal. apply (Hchild y l); [eapply upto_incl; exact Hy|exact Hd|exact Hl].
Qed.

(** One call of [add_node] on a fresh case whose name is new. *)
Lemma add_node_well_formed (g : dependency_graph) (s : store) (x : ref) :
  well_formed g s ->
  ~ In x (nodes g) ->
  fresh s x ->
  unique_names s (nodes g ++ [x]) ->
  exists g' lv msg,
    add_node g s x = Ok (g', upd s x (set_level (s x) (Some lv)), msg) /\
    nodes g' = nodes g ++ [x] /\
    well_formed g' (upd s x (set_level (s x) (Some lv))).
Proof.
  intros Hwf Hx [Hlev [Hnp Hself]] Huniq.
  pose proof (wf_max _ _ Hwf) as Hmax.
  destruct (truthy_str (depends (s x))) eqn:Ht.
  - destruct (truthy_str_some _ Ht) as [d [Hd Hne]].
    destruct (scan_split (nodes g ++ [x]) s d)
      as [Hnone|[pre [y [post [Heq [Hpre Hy]]]]]].
    + destruct (add_node_unmatched g s x d Hx Hlev Hd Hne)
        as [g1 [E [Hn [_ [Hml Hmp]]]]].
      { intros y Hy. apply Hnone. apply in_or_app. now left. }
      { apply Hnone. apply in_or_app. right. now left. }
      exists g1, 0, (Some (dangling_msg (s x) d)).
      split; [exact E|]. split; [exact Hn|].
      apply (well_formed_extend g g1 s x 0); trivial; try lia.
      intros y l Hy Hdy _. exfalso. apply (Hnone y Hy). congruence.
    + assert (Hyx : y <> x).
      { intros ->. apply Hself. now rewrite Hd, Hy. }
      assert (Hyin : In y (nodes g ++ [x])).
      { rewrite Heq. apply in_or_app. right. now left. }
      assert (Hyg : In y (nodes g)).
      { apply in_app_or in Hyin as [H|[H|[]]]; [exact H|].
        now contradiction Hyx. }
      destruct (wf_level _ _ Hwf y Hyg) as [l [El Hl]].
      subst d.
      eexists _, (l + 1), None. split.
      { apply (add_node_child g s x y pre post l); assumption. }
      split.
      { unfold nodes. cbn [graph_dict]. rewrite dict_keys_set_old.
        - now apply dict_keys_set_new.
        - rewrite dict_keys_set_new by exact Hx.
          apply in_or_app. right. now left. }
      apply (well_formed_extend g _ s x (l + 1)); trivial;
        cbn [max_level max_proc]; unfold py_max; try lia.
      * unfold nodes. cbn [graph_dict]. rewrite dict_keys_set_old.
        -- now apply dict_keys_set_new.
        -- rewrite dict_keys_set_new by exact Hx.
           apply in_or_app. right. now left.
      * intros H. rewrite H in Ht. discriminate.
      * intros z lz Hz Hdz Hlz.
        assert (z = y).
        { apply Huniq; trivial. rewrite Hd in Hdz. now inversion Hdz. }
        subst z. rewrite upd_other in Hlz by exact Hyx.
        rewrite El in Hlz. inversion Hlz. reflexivity.
  - eexists _, 0, None. split; [now apply add_node_root|].
    split.
    { unfold nodes. cbn [graph_dict with_max_proc with_dict].
      now apply dict_keys_set_new. }
    apply (well_formed_extend g _ s x 0); trivial;
      cbn [max_level max_proc with_max_proc with_dict]; try lia.
    + unfold nodes. cbn [graph_dict with_max_proc with_dict].
      now apply dict_keys_set_new.
    + intros y l _ Hdy _. exfalso. rewrite Hdy in Ht.
      now rewrite neighbor_name_truthy in Ht.
Qed.

(** The level is all that a store and its update on [x] differ by. *)
Lemma fresh_upd (s : store) (x y : ref) (lv : Z) :
  y <> x -> fresh s y -> fresh (upd s x (set_level (s x) (Some lv))) y.
Proof.
  intros Hyx H. unfold fresh. now rewrite (upd_other _ _ _ _ Hyx).
Qed.

Lemma unique_names_upd (s : store) (x : ref) (lv : Z) (l : list ref) :
  unique_names s l ->
  unique_names (upd s x (set_level (s x) (Some lv))) l.
Proof.
  intros H a b Ha Hb. unfold upd.
  destruct (Nat.eqb a x) eqn:Ea, (Nat.eqb b x) eqn:Eb;
    try apply Nat.eqb_eq in Ea; try apply Nat.eqb_eq in Eb; subst;
    rewrite ?neighbor_name_set_level; now apply H.
Qed.







(** * Further properties *)

(** ** What one call of add_node does *)

(** The three ways of [add_node] on a case that is not in the graph yet:
    no dependency; a dependency that is the name of no key of the scan; a
    first key that bears the name of the dependency. *)
Lemma add_node_cases (g : dependency_graph) (s : store) (x : ref) :
  ~ In x (nodes g) ->
  (truthy_str (depends (s x)) = false /\
   add_node g s x =
     Ok (with_max_proc (with_dict g (dict_set (graph_dict g) x None))
           (py_max (max_proc g) (n_procs (s x))),
         upd s x (set_level (s x) (Some 0)), None))
  \/
  (exists d,
     depends (s x) = Some d /\ d <> EmptyString /\
     (forall y, In y (nodes g ++ [x]) -> neighbor_name (s y) <> d) /\
     add_node g s x =
       Ok (with_max_proc (with_dict g (dict_set (graph_dict g) x None))
             (py_max (max_proc g) (n_procs (s x))),
           match level (s x) with
           | None => upd s x (set_level (s x) (Some 0))
           | Some _ => s
           end,
           match level (s x) with
           | None => Some (dangling_msg (s x) d)
           | Some _ => None
           end))
  \/
  (exists pre y post,
     depends (s x) = Some (neighbor_name (s y)) /\
     nodes g ++ [x] = pre ++ y :: post /\
     (forall z, In z pre -> neighbor_name (s z) <> neighbor_name (s y)) /\
     add_node g s x =
       match level (s y) with
       | None => Raise TypeError
       | Some l =>
           Ok (mkGraph (dict_set (dict_set (graph_dict g) x None) x (Some y))
                 (py_max (max_level g) (l + 1))
                 (py_max (max_proc g) (n_procs (s x))),
               upd s x (set_level (s x) (Some (l + 1))), None)
       end).
Proof.
  intros Hin.
  destruct (truthy_str (depends (s x))) eqn:Ht.
  - right. destruct (truthy_str_some _ Ht) as [d [Hd Hne]].
    destruct (scan_split (nodes g ++ [x]) s d)
      as [Hnone|[pre [y [post [Heq [Hpre Hy]]]]]].
    + left. exists d. split; [exact Hd|]. split; [exact Hne|].
      split; [exact Hnone|].
      unfold add_node. rewrite (dict_mem_false _ _ Hin), Ht, Hd.
      cbn [graph_dict with_dict].
      rewrite add_node_scan_none.
      * cbn [bind]. destruct (level (s x)) eqn:Hl; cbn [bind].
        -- reflexivity.
        -- now rewrite upd_same.
      * intros z Hz. rewrite (dict_keys_set_new _ _ _ Hin) in Hz.
        now apply Hnone.
    + right. exists pre, y, post. subst d.
      split; [exact Hd|]. split; [exact Heq|]. split; [exact Hpre|].
      destruct (level (s y)) as [l|] eqn:Hl.
      * now apply (add_node_child g s x y pre post l).
      * unfold add_node.
        rewrite (dict_mem_false _ _ Hin), Hd, neighbor_name_truthy.
        cbn [graph_dict with_dict].
        rewrite (dict_keys_set_new _ _ _ Hin).
        unfold nodes in Heq. rewrite Heq.
        rewrite (add_node_scan_skip _ _ _ _ _ _ Hpre).
        cbn [app add_node_scan]. rewrite String.eqb_refl.
        unfold add_dependency. cbn [graph_dict with_dict].
        rewrite dict_get_set_same. cbn [truthy_node negb bind].
        now rewrite Hl.
  - left. split; [reflexivity|]. now apply add_node_root.
Qed.

(** X1. [add_node] on a case of the graph changes nothing.  On another
    case it raises nothing but [TypeError], and this when the first key that
    bears the name of the dependency has no level yet; when it returns, the
    case is the last node, it has a level, [max_proc] covers its processes,
    [max_level] has not decreased, no other case and no other edge has
    changed, and a warning means that the case had no level and is now at
    level 0. *)
Theorem add_node_outcome (g : dependency_graph) (s : store) (x : ref) :
  (In x (nodes g) -> add_node g s x = Ok (g, s, None)) /\
  (~ In x (nodes g) ->
   match add_node g s x with
   | Ok (g', s', msg) =>
       nodes g' = nodes g ++ [x] /\
       (forall y, y <> x ->
          s' y = s y /\
          dict_get (graph_dict g') y = dict_get (graph_dict g) y) /\
       s' x = set_level (s x) (level (s' x)) /\
       level (s' x) <> None /\
       max_proc g' = Z.max (max_proc g) (n_procs (s x)) /\
       max_level g <= max_level g' /\
       (msg <> None -> level (s x) = None /\ level (s' x) = Some 0)
   | Raise e =>
       e = TypeError /\
       exists y, In y (nodes g ++ [x]) /\
                 depends (s x) = Some (neighbor_name (s y)) /\
                 level (s y) = None
   end).
Proof.
  split.
  - intros Hin. unfold add_node. fold (nodes g) in *.
    unfold nodes in Hin. now rewrite (dict_mem_true _ _ Hin).
  - intros Hin.
    assert (Hkeys : dict_keys (dict_set (graph_dict g) x None) = nodes g ++ [x])
      by now apply dict_keys_set_new.
    destruct (add_node_cases g s x Hin)
      as [[Ht E]|[[d [Hd [Hne [Hnone E]]]]|[pre [y [post [Hd [Heq [Hpre E]]]]]]]];
      rewrite E.
    + unfold nodes. cbn [graph_dict with_max_proc with_dict max_proc max_level].
      split; [exact Hkeys|]. split.
      { intros y Hy. split; [now apply upd_other|now apply dict_get_set_other]. }
      rewrite upd_same. cbn [level set_level].
      split; [reflexivity|]. split; [discriminate|]. unfold py_max.
      split; [reflexivity|]. split; [lia|]. intros H. now contradiction H.
    + unfold nodes. cbn [graph_dict with_max_proc with_dict max_proc max_level].
      split; [exact Hkeys|].
      destruct (level (s x)) as [l|] eqn:Hl.
      * split.
        { intros y Hy. split; [reflexivity|now apply dict_get_set_other]. }
        rewrite Hl. split; [now rewrite <- Hl, set_level_id|].
        split; [discriminate|]. unfold py_max.
        split; [reflexivity|]. split; [lia|]. intros H. now contradiction H.
      * split.
        { intros y Hy. split; [now apply upd_other|now apply dict_get_set_other]. }
        rewrite upd_same. cbn [level set_level].
        split; [reflexivity|]. split; [discriminate|]. unfold py_max.
        split; [reflexivity|]. split; [lia|]. intros _. now split.
    + destruct (level (s y)) as [l|] eqn:Hl.
      * unfold nodes. cbn [graph_dict max_proc max_level].
        split.
        { rewrite dict_keys_set_old; [exact Hkeys|].
          unfold nodes in Hkeys. rewrite Hkeys.
          apply in_or_app. right. now left. }
        split.
        { intros z Hz. split; [now apply upd_other|].
          now rewrite !dict_get_set_other. }
        rewrite upd_same. cbn [level set_level].
        split; [reflexivity|]. split; [discriminate|]. unfold py_max.
        split; [reflexivity|]. split; [lia|]. intros H. now contradiction H.
      * split; [reflexivity|]. exists y. split; [|now split].
        rewrite Heq. apply in_or_app. right. now left.
Qed.

(** ** The graph of fresh cases: edges, levels and maxima *)

Lemma max_list_nonneg (l : list Z) : 0 <= max_list l.
Proof. induction l; simpl; lia. Qed.

Lemma max_list_app (l : list Z) (a : Z) :
  max_list (l ++ [a]) = Z.max (max_list l) a.
Proof.
  induction l as [|b l IH]; simpl.
  - lia.
  - unfold max_list in *. rewrite IH. lia.
Qed.

Lemma init_edges_ok (s : store) : edges_ok init s.
Proof. intros x []. Qed.

Lemma init_maxima_ok (s : store) : maxima_ok init s.
Proof. split; reflexivity. Qed.

Lemma upd_level_inj (s : store) (x : ref) (a b : Z) :
  upd s x (set_level (s x) (Some a)) = upd s x (set_level (s x) (Some b)) ->
  a = b.
Proof.
  intros H. apply (f_equal (fun f : store => level (f x))) in H.
  rewrite !upd_same in H. cbn in H. now inversion H.
Qed.

(** One call of [add_node] on a fresh case whose name is new keeps the
    three invariants. *)
Lemma add_node_fresh_step (g : dependency_graph) (s : store) (x : ref) :
  well_formed g s -> edges_ok g s -> maxima_ok g s ->
  ~ In x (nodes g) ->
  fresh s x ->
  unique_names s (nodes g ++ [x]) ->
  exists g' lv msg,
    add_node g s x = Ok (g', upd s x (set_level (s x) (Some lv)), msg) /\
    nodes g' = nodes g ++ [x] /\
    well_formed g' (upd s x (set_level (s x) (Some lv))) /\
    edges_ok g' (upd s x (set_level (s x) (Some lv))) /\
    maxima_ok g' (upd s x (set_level (s x) (Some lv))).
Proof.
  intros Hwf Hedges [Hmp Hml] Hx Hfresh Huniq.
  destruct (add_node_well_formed g s x Hwf Hx Hfresh Huniq)
    as [g' [lv [msg [E [Hn Hwf']]]]].
  exists g', lv, msg. split; [exact E|]. split; [exact Hn|].
  split; [exact Hwf'|].
  destruct Hfresh as [Hlev [_ Hself]].
  assert (Hkeys : dict_keys (dict_set (graph_dict g) x None) = nodes g ++ [x])
    by now apply dict_keys_set_new.
  (* the edge and the level of the new node, and max_level *)
  assert (Hnew :
    match dict_get (graph_dict g') x with
    | None => False
    | Some None => lv = 0
    | Some (Some p) =>
        In p (nodes g) /\ depends (s x) = Some (neighbor_name (s p)) /\
        exists l, level (s p) = Some l /\ lv = l + 1
    end /\ max_level g' = Z.max (max_level g) lv /\
    max_proc g' = Z.max (max_proc g) (n_procs (s x)) /\
    (forall z, z <> x ->
       dict_get (graph_dict g') z = dict_get (graph_dict g) z)).
  { pose proof (wf_max _ _ Hwf) as Hmax.
    destruct (add_node_cases g s x Hx)
      as [[Ht E1]|[[d [Hd [Hne [Hnone E1]]]]|[pre [y [post [Hd [Heq [Hpre E1]]]]]]]];
      rewrite E1 in E.
    - injection E as Hg Hs Hm. apply upd_level_inj in Hs. subst g' lv.
      cbn [graph_dict with_max_proc with_dict max_level max_proc].
      rewrite dict_get_set_same. split; [reflexivity|]. split; [lia|].
      split; [reflexivity|]. intros z Hz. now apply dict_get_set_other.
    - rewrite Hlev in E. injection E as Hg Hs Hm.
      apply upd_level_inj in Hs. subst g' lv.
      cbn [graph_dict with_max_proc with_dict max_level max_proc].
      rewrite dict_get_set_same. split; [reflexivity|]. split; [lia|].
      split; [reflexivity|]. intros z Hz. now apply dict_get_set_other.
    - assert (Hyx : y <> x).
      { intros ->. now apply Hself. }
      assert (Hyg : In y (nodes g)).
      { assert (Hy : In y (nodes g ++ [x])).
        { rewrite Heq. apply in_or_app. right. now left. }
        apply in_app_or in Hy as [Hy|[Hy|[]]]; [exact Hy|].
        now contradiction Hyx. }
      destruct (wf_level _ _ Hwf y Hyg) as [l [El _]].
      rewrite El in E. injection E as Hg Hs Hm.
      apply upd_level_inj in Hs. subst g' lv.
      cbn [graph_dict max_level max_proc]. rewrite dict_get_set_same.
      split.
      + split; [exact Hyg|]. split; [exact Hd|]. exists l. now split.
      + split; [reflexivity|]. split; [reflexivity|].
        intros z Hz. now rewrite !dict_get_set_other. }
  destruct Hnew as [Hedge [Hml'' [Hmp' Hframe]]].
  set (s' := upd s x (set_level (s x) (Some lv))) in *.
  assert (Hso : forall y, In y (nodes g) -> s' y = s y).
  { intros y Hy. apply upd_other. intros ->. contradiction. }
  assert (Hsx : s' x = set_level (s x) (Some lv)) by apply upd_same.
  split.
  - intros z Hz. rewrite Hn in Hz.
    apply in_app_or in Hz as [Hz|[<-|[]]].
    + assert (Hzx : z <> x) by (intros ->; contradiction).
      rewrite (Hframe z Hzx).
      specialize (Hedges z Hz). rewrite Hn, (upto_app_l _ _ _ Hz).
      destruct (dict_get (graph_dict g) z) as [[p|]|]; [| |exact Hedges].
      * destruct Hedges as [Hp [Hpz [Hd [l [Hl1 Hl2]]]]].
        assert (Hpg : In p (nodes g)) by (eapply upto_incl; exact Hp).
        rewrite (Hso z Hz), (Hso p Hpg).
        split; [exact Hp|]. split; [exact Hpz|]. split; [exact Hd|].
        exists l. now split.
      * now rewrite (Hso z Hz).
    + rewrite Hn, (upto_app _ _ _ Hx).
      destruct (dict_get (graph_dict g') x) as [[p|]|]; [| |exact Hedge].
      * destruct Hedge as [Hp [Hd [l [Hl1 Hl2]]]].
        rewrite Hsx, (Hso p Hp). cbn [depends level set_level].
        split; [apply in_or_app; now left|].
        split; [intros ->; contradiction|]. split; [exact Hd|].
        exists l. split; [exact Hl1|now rewrite Hl2].
      * rewrite Hsx. cbn [level set_level]. now rewrite Hedge.
  - unfold maxima_ok. rewrite Hn, !map_app. cbn [map].
    rewrite !max_list_app. unfold level_or_0 at 2. rewrite Hsx.
    cbn [n_procs level set_level].
    assert (E1 : map (fun y => n_procs (s' y)) (nodes g)
                 = map (fun y => n_procs (s y)) (nodes g)).
    { apply map_ext_in. intros y Hy. now rewrite (Hso y Hy). }
    assert (E2 : map (level_or_0 s') (nodes g) = map (level_or_0 s) (nodes g)).
    { apply map_ext_in. intros y Hy. unfold level_or_0. now rewrite (Hso y Hy). }
    rewrite E1, E2, <- Hmp, <- Hml. split; assumption.
Qed.

(** Successive [add_node] on distinct fresh cases with distinct new names
    keep the three invariants, and change nothing but levels. *)
Lemma add_nodes_invariants (cases : list ref) :
  forall (g : dependency_graph) (s : store),
  well_formed g s -> edges_ok g s -> maxima_ok g s ->
  NoDup (nodes g ++ cases) ->
  (forall x, In x cases -> fresh s x) ->
  unique_names s (nodes g ++ cases) ->
  exists g' s' msgs,
    add_nodes g s cases = Ok (g', s', msgs) /\
    nodes g' = nodes g ++ cases /\
    well_formed g' s' /\ edges_ok g' s' /\ maxima_ok g' s' /\
    (forall x, s' x = set_level (s x) (level (s' x))) /\
    (forall x, ~ In x cases -> s' x = s x).
Proof.
  induction cases as [|x cases IH];
    intros g s Hwf Hedges Hmaxima Hnd Hfresh Huniq.
  - exists g, s, []. rewrite app_nil_r.
    split; [reflexivity|]. split; [reflexivity|]. split; [exact Hwf|].
    split; [exact Hedges|]. split; [exact Hmaxima|].
    split; [intros x; now rewrite set_level_id|reflexivity].
  - assert (Happ : (nodes g ++ [x]) ++ cases = nodes g ++ x :: cases).
    { now rewrite <- app_assoc. }
    assert (Hx : ~ In x (nodes g)).
    { apply NoDup_remove_2 in Hnd. intros H. apply Hnd.
      apply in_or_app. now left. }
    assert (Hxc : ~ In x cases).
    { apply NoDup_remove_2 in Hnd. intros H. apply Hnd.
      apply in_or_app. now right. }
    destruct (add_node_fresh_step g s x Hwf Hedges Hmaxima Hx)
      as [g1 [lv [msg [E [Hn [Hwf1 [He1 Hm1]]]]]]].
    { apply Hfresh. now left. }
    { intros a b Ha Hb. apply Huniq.
      - apply in_app_or in Ha as [Ha|[<-|[]]]; apply in_or_app;
          [now left|right; now left].
      - apply in_app_or in Hb as [Hb|[<-|[]]]; apply in_or_app;
          [now left|right; now left]. }
    destruct (IH g1 _ Hwf1 He1 Hm1)
      as [g2 [s2 [msgs [E2 [Hn2 [Hwf2 [He2 [Hm2 [Hlv2 Hout2]]]]]]]]].
    + now rewrite Hn, Happ.
    + intros y Hy. apply fresh_upd.
      * intros ->. contradiction.
      * apply Hfresh. now right.
    + rewrite Hn, Happ. now apply unique_names_upd.
    + exists g2, s2, (msg :: msgs). cbn [add_nodes]. rewrite E. cbn [bind].
      rewrite E2. cbn [bind]. split; [reflexivity|].
      split; [now rewrite Hn2, Hn, Happ|]. split; [exact Hwf2|].
      split; [exact He2|]. split; [exact Hm2|]. split.
      * intros y. rewrite (Hlv2 y). unfold upd.
        destruct (Nat.eqb y x) eqn:Ey; [|reflexivity].
        apply Nat.eqb_eq in Ey. now subst.
      * intros y Hy. rewrite Hout2.
        -- apply upd_other. intros ->. apply Hy. now left.
        -- intros H. apply Hy. now right.
Qed.

(** X2. In the graph that successive [add_node] build from distinct fresh
    cases with distinct names, [max_proc] is the greatest [n_procs] of the
    cases and [max_level] the greatest level that [add_node] gave. *)
Theorem built_graph_maxima (s : store) (cases : list ref) :
  NoDup cases ->
  (forall x, In x cases -> fresh s x) ->
  unique_names s cases ->
  exists g s' msgs,
    add_nodes init s cases = Ok (g, s', msgs) /\
    nodes g = cases /\
    max_proc g = max_list (map (fun x => n_procs (s x)) cases) /\
    max_level g = max_list (map (level_or_0 s') cases) /\
    (forall x, In x cases -> n_procs (s x) <= max_proc g) /\
    (forall x, In x cases -> 0 <= level_or_0 s' x <= max_level g).
Proof.
  intros Hnd Hfresh Huniq.
  destruct (add_nodes_invariants cases init s (init_well_formed s)
              (init_edges_ok s) (init_maxima_ok s) Hnd Hfresh Huniq)
    as [g [s' [msgs [E [Hn [Hwf [_ [[Hmp Hml] [Hlv _]]]]]]]]].
  simpl in Hn. exists g, s', msgs.
  split; [exact E|]. split; [exact Hn|].
  assert (Hnp : forall x, n_procs (s' x) = n_procs (s x)).
  { intros x. now rewrite (Hlv x). }
  rewrite Hn in Hmp, Hml.
  split.
  { rewrite Hmp. f_equal. apply map_ext. exact Hnp. }
  split; [exact Hml|]. split.
  - intros x Hx. rewrite <- Hn in Hx.
    pose proof (wf_procs _ _ Hwf x Hx). rewrite <- Hnp. lia.
  - intros x Hx. rewrite <- Hn in Hx.
    destruct (wf_level _ _ Hwf x Hx) as [l [El Hl]].
    unfold level_or_0. now rewrite El.
Qed.

Lemma chain_unique_names : unique_names Examples.chain [0%nat; 1%nat; 2%nat].
Proof.
  intros x y Hx Hy. simpl in Hx, Hy.
  destruct Hx as [<-|[<-|[<-|[]]]]; destruct Hy as [<-|[<-|[<-|[]]]];
    vm_compute; intros H; try reflexivity; discriminate H.
Qed.

Lemma chain_fresh (x : ref) :
  In x [0%nat; 1%nat; 2%nat] -> fresh Examples.chain x.
Proof.
  intros Hx. simpl in Hx.
  destruct Hx as [<-|[<-|[<-|[]]]]; repeat split; simpl; try lia;
    vm_compute; discriminate.
Qed.

Lemma chain_NoDup : NoDup [0%nat; 1%nat; 2%nat].
Proof. repeat constructor; simpl; intuition discriminate. Qed.

(** The chain: 8 processes at most, 2 levels of dependency. *)
Lemma built_graph_maxima_witness :
  exists g s' msgs,
    add_nodes init Examples.chain [0%nat; 1%nat; 2%nat] = Ok (g, s', msgs) /\
    nodes g = [0%nat; 1%nat; 2%nat] /\
    max_proc g = 8 /\
    max_level g = max_list (map (level_or_0 s') [0%nat; 1%nat; 2%nat]).
Proof.
  destruct (built_graph_maxima Examples.chain [0%nat; 1%nat; 2%nat]
              chain_NoDup chain_fresh chain_unique_names)
    as [g [s' [msgs [E [Hn [Hmp [Hml _]]]]]]].
  exists g, s', msgs. repeat split; assumption.
Defined.

(** X3. That graph is well formed, and every node has an entry in it; a
    node without edge is at level 0, an edge leads to another node, added
    before, whose composite key is the dependency and whose level is one
    less; so a node has an edge exactly when its level is above 0. *)
Theorem built_graph_edges (s : store) (cases : list ref) :
  NoDup cases ->
  (forall x, In x cases -> fresh s x) ->
  unique_names s cases ->
  exists g s' msgs,
    add_nodes init s cases = Ok (g, s', msgs) /\
    nodes g = cases /\
    well_formed g s' /\
    edges_ok g s' /\
    (forall x, In x cases ->
       (dict_get (graph_dict g) x = Some None <-> level (s' x) = Some 0) /\
       has_parent g (level_or_0 s' x) x).
Proof.
  intros Hnd Hfresh Huniq.
  destruct (add_nodes_invariants cases init s (init_well_formed s)
              (init_edges_ok s) (init_maxima_ok s) Hnd Hfresh Huniq)
    as [g [s' [msgs [E [Hn [Hwf [Hedges _]]]]]]].
  simpl in Hn. exists g, s', msgs.
  split; [exact E|]. split; [exact Hn|]. split; [exact Hwf|].
  split; [exact Hedges|].
  intros x Hx. rewrite <- Hn in Hx. specialize (Hedges x Hx).
  unfold has_parent, level_or_0.
  destruct (dict_get (graph_dict g) x) as [[p|]|]; [| |contradiction].
  - destruct Hedges as [Hp [_ [_ [l [Hl1 Hl2]]]]].
    assert (Hpg : In p (nodes g)) by (eapply upto_incl; exact Hp).
    destruct (wf_level _ _ Hwf p Hpg) as [l' [El' Hl']].
    rewrite Hl1 in El'. inversion El'. subst l'.
    split.
    + split; [discriminate|]. rewrite Hl2. intros H. inversion H. lia.
    + right. now exists p.
  - rewrite Hedges. split; [now split|]. left. lia.
Qed.

(** The chain: [S/B/RESU/run1] has an edge to [S/A/RESU/run1]. *)
Lemma built_graph_edges_witness :
  exists g s' msgs,
    add_nodes init Examples.chain [0%nat; 1%nat; 2%nat] = Ok (g, s', msgs) /\
    nodes g = [0%nat; 1%nat; 2%nat] /\
    edges_ok g s'.
Proof.
  destruct (built_graph_edges Examples.chain [0%nat; 1%nat; 2%nat]
              chain_NoDup chain_fresh chain_unique_names)
    as [g [s' [msgs [E [Hn [_ [He _]]]]]]].
  exists g, s', msgs. split; [exact E|]. split; [exact Hn|exact He].
Defined.

(** ** The cells of a well-formed graph *)

Lemma keep_cell (s : store) (L p : Z) (x : ref) :
  keep s (Some L) (Some p) x = true <->
  level (s x) = Some L /\ n_procs (s x) = p.
Proof.
  unfold keep. rewrite andb_true_iff, Z.eqb_eq.
  destruct (level (s x)) as [l|].
  - rewrite Z.eqb_eq. split.
    + intros [-> ->]. now split.
    + intros [H ->]. inversion H. now split.
  - split; [intros [H _]; discriminate H|intros [H _]; discriminate H].
Qed.

(** X4. In a well-formed graph the extraction of a (level, n_procs) cell
    raises nothing and changes no case; the sub-graph holds, once each and
    in the order of the graph, the nodes of that level and that number of
    processes. *)
Theorem cell_extraction_read_only (g : dependency_graph) (s : store)
    (L p : Z) :
  well_formed g s ->
  exists sub,
    extract_sub_graph g s (Some L) (Some p) = Ok (sub, s) /\
    nodes sub = filter (keep s (Some L) (Some p)) (nodes g) /\
    NoDup (nodes sub) /\
    (forall x, In x (nodes sub) <->
       In x (nodes g) /\ level (s x) = Some L /\ n_procs (s x) = p).
Proof.
  intros Hwf. destruct (extract_cell g s L p Hwf) as [sub [E Hn]].
  exists sub. split; [exact E|]. split; [exact Hn|]. split.
  - rewrite Hn. apply NoDup_filter. apply (wf_nodup _ _ Hwf).
  - intros x. rewrite Hn, filter_In, keep_cell. reflexivity.
Qed.

(** The cell of level 1 and 4 processes of the chain: [S/B/RESU/run1]. *)
Lemma cell_extraction_read_only_witness :
  exists sub,
    extract_sub_graph Examples.chain_graph Examples.chain_built
      (Some 1) (Some 4) = Ok (sub, Examples.chain_built) /\
    nodes sub = [1%nat].
Proof.
  destruct (cell_extraction_read_only Examples.chain_graph
              Examples.chain_built 1 4 chain_well_formed)
    as [sub [E [Hn _]]].
  exists sub. split; [exact E|]. rewrite Hn. reflexivity.
Defined.

(** ** The batches of a cell *)

Lemma total_time_app (s : store) (l : list ref) (c : ref) :
  total_time s (l ++ [c]) = total_time s l + expected_time (s c).
Proof.
  induction l as [|a l IH]; simpl.
  - lia.
  - unfold total_time in *. rewrite IH. lia.
Qed.

Lemma length_app_one (l : list ref) (c : ref) :
  Z.of_nat (List.length (l ++ [c])) = Z.of_nat (List.length l) + 1.
Proof. rewrite length_app. simpl. lia. Qed.

Lemma length_zero_nil (l : list ref) : Z.of_nat (List.length l) = 0 -> l = [].
Proof. destruct l; simpl; [reflexivity|lia]. Qed.

(** One case of the packing: the batches it closes are in order, and the
    case, when it is eligible, comes right after the cases packed so far. *)
Lemma pack_step_spec (size wtime : Z) (s : store) (sh : shape) (c : ref) :
  open_ok size wtime s sh ->
  exists new,
    sh_done (pack_step size wtime s sh c) = sh_done sh ++ new /\
    Forall (batch_ok size wtime s) new /\
    List.concat (map fst new) ++ sh_cases (pack_step size wtime s sh c) =
      sh_cases sh ++ (if eligible s c then [c] else []) /\
    open_ok size wtime s (pack_step size wtime s sh c).
Proof.
  intros [Hsz [Htm Hopen]]. unfold pack_step.
  destruct (eligible s c).
  2:{ exists []. rewrite !app_nil_r. split; [reflexivity|].
      split; [constructor|]. split; [reflexivity|]. now split. }
  destruct sh as [n t cs done]. cbn [sh_size sh_time sh_cases sh_done] in *.
  set (e := expected_time (s c)).
  assert (Hlen : Z.of_nat (List.length (cs ++ [c])) = n + 1).
  { now rewrite length_app_one, Hsz. }
  assert (Htot : total_time s (cs ++ [c]) = t + e).
  { now rewrite total_time_app, Htm. }
  assert (Hn0 : 0 <= n) by lia.
  destruct ((n =? 0) || (t + e <? wtime))%bool eqn:Efits.
  - cbn [negb add_shape sh_size sh_time sh_cases sh_done].
    rewrite orb_false_r.
    apply orb_true_iff in Efits. rewrite Z.eqb_eq, Z.ltb_lt in Efits.
    destruct ((size <=? n + 1) || (wtime <=? t + e))%bool eqn:Efull.
    + cbn [flush_shape sh_size sh_time sh_cases sh_done].
      exists [(cs ++ [c], t + e)].
      split; [reflexivity|]. split.
      { constructor; [|constructor]. unfold batch_ok. cbn [fst snd].
        split; [now destruct cs|]. split; [now rewrite Htot|].
        rewrite Hlen.
        destruct (Z.eq_dec n 0) as [Hz|Hz].
        - assert (Hcs : cs = []) by (apply length_zero_nil; lia).
          subst cs. split; [lia|]. now right.
        - destruct Hopen as [->|[Hlt Ht]]; [simpl in Hsz; lia|].
          split; [lia|]. left. lia. }
      split; [cbn; now rewrite !app_nil_r|].
      split; [reflexivity|]. split; [reflexivity|]. now left.
    + apply orb_false_iff in Efull. rewrite !Z.leb_gt in Efull.
      exists []. rewrite app_nil_r. split; [reflexivity|].
      split; [constructor|]. split; [reflexivity|].
      unfold open_ok. cbn [add_shape sh_size sh_time sh_cases].
      split; [now rewrite Hlen|].
      split; [now rewrite Htot|]. right. split; [lia|]. left. lia.
  - cbn [negb]. rewrite orb_true_r. cbn [orb].
    cbn [flush_shape add_shape sh_size sh_time sh_cases sh_done].
    apply orb_false_iff in Efits. rewrite Z.eqb_neq, Z.ltb_ge in Efits.
    destruct Efits as [Hn Hover].
    destruct Hopen as [->|[Hlt Ht]]; [simpl in Hsz; lia|].
    exists [(cs, t)]. split; [reflexivity|]. split.
    { constructor; [|constructor]. unfold batch_ok. cbn [fst snd].
      split; [intros ->; simpl in Hsz; lia|]. split; [exact Htm|].
      rewrite <- Hsz. split; [lia|]. destruct Ht as [Ht|Ht]; [now left|].
      right. lia. }
    split; [cbn; now rewrite app_nil_r|].
    unfold open_ok.
    cbn [flush_shape add_shape sh_size sh_time sh_cases sh_done app].
    split; [reflexivity|]. split; [cbn; unfold e; lia|].
    right. split; [lia|]. now right.
Qed.

Lemma pack_spec (size wtime : Z) (s : store) (cases : list ref) :
  forall sh,
  open_ok size wtime s sh ->
  exists new,
    sh_done (pack size wtime s cases sh) = sh_done sh ++ new /\
    Forall (batch_ok size wtime s) new /\
    List.concat (map fst new) ++ sh_cases (pack size wtime s cases sh) =
      sh_cases sh ++ filter (eligible s) cases /\
    open_ok size wtime s (pack size wtime s cases sh).
Proof.
  induction cases as [|c cases IH]; intros sh Hopen.
  - exists []. rewrite !app_nil_r. split; [reflexivity|].
    split; [constructor|]. split; [reflexivity|exact Hopen].
  - destruct (pack_step_spec size wtime s sh c Hopen)
      as [new1 [D1 [F1 [C1 O1]]]].
    destruct (IH _ O1) as [new2 [D2 [F2 [C2 O2]]]].
    exists (new1 ++ new2). unfold pack in *. cbn [fold_left].
    split; [now rewrite D2, D1, app_assoc|].
    split; [now apply Forall_app|]. split; [|exact O2].
    rewrite map_app, concat_app, <- app_assoc, C2, app_assoc, C1.
    rewrite <- app_assoc. f_equal. cbn [filter].
    now destruct (eligible s c).
Qed.

(** The batches of a cell: every eligible case of the cell, in the order of
    the cell, each in one batch, and every batch within the bounds. *)
Lemma pack_cell_spec (size wtime : Z) (s : store) (cases : list ref)
    (done : list (list ref * Z)) :
  exists new,
    pack_cell size wtime s cases done = done ++ new /\
    Forall (batch_ok size wtime s) new /\
    List.concat (map fst new) = filter (eligible s) cases.
Proof.
  destruct (pack_spec size wtime s cases (mkShape 0 0 [] done))
    as [new [D [F [C [Hsz [Htm Hopen]]]]]].
  { split; [reflexivity|]. split; [reflexivity|]. now left. }
  unfold pack_cell. cbn [sh_done sh_cases app] in *.
  set (sh := pack size wtime s cases (mkShape 0 0 [] done)) in *.
  destruct (0 <? sh_size sh) eqn:E.
  - apply Z.ltb_lt in E.
    exists (new ++ [(sh_cases sh, sh_time sh)]).
    cbn [flush_shape sh_done]. split; [now rewrite D, app_assoc|]. split.
    + apply Forall_app. split; [exact F|].
      constructor; [|constructor]. unfold batch_ok. cbn [fst snd].
      split; [intros H; rewrite H in Hsz; simpl in Hsz; lia|].
      split; [exact Htm|]. rewrite <- Hsz.
      destruct Hopen as [H|[Hlt Ht]]; [rewrite H in Hsz; simpl in Hsz; lia|].
      split; [lia|]. destruct Ht as [Ht|Ht]; [now left|right; lia].
    + rewrite map_app, concat_app. cbn. now rewrite app_nil_r.
  - apply Z.ltb_ge in E. exists new. split; [exact D|]. split; [exact F|].
    assert (Hnil : sh_cases sh = []) by (apply length_zero_nil; lia).
    rewrite Hnil, app_nil_r in C. exact C.
Qed.

(** X5. The loop of [run_slurm_batches] on the cases of a cell, when every
    [sbatch] call prints a job identifier and the cases have an edge above
    level 0: it raises nothing, and the batches it submits hold, in the
    order of the cell and once for each occurrence, the cases that are
    computed and whose compilation has not failed; no other case is
    submitted and none is left out. *)
Theorem cell_cases_submitted_once
    (os_path_join : list string -> string) (bindir exe : string)
    (sbatch_job_id : Z -> option string) (slurm_batch_wtime : Z)
    (slurm_batch_args : list string) (mem_log : bool)
    (graph : dependency_graph) (slurm_batch_size level nproc : Z)
    (cases : list ref) (st : Slurm.sched) :
  (forall batch_id, sbatch_job_id batch_id <> None) ->
  (forall c, In c cases -> has_parent graph level c) ->
  exists st' new,
    Slurm.run_cell_cases os_path_join bindir exe sbatch_job_id
      slurm_batch_wtime slurm_batch_args mem_log graph slurm_batch_size
      level nproc cases st = Ok st' /\
    batches (Slurm.submitted st') = batches (Slurm.submitted st) ++ new /\
    List.concat (map fst new) = filter (eligible (Slurm.sc_store st)) cases /\
    forall c, eligible (Slurm.sc_store st') c = eligible (Slurm.sc_store st) c.
Proof.
  intros Hjob Hpar.
  destruct (run_cell_cases_refines os_path_join bindir exe sbatch_job_id
              slurm_batch_wtime slurm_batch_args mem_log graph Hjob
              slurm_batch_size level nproc cases st Hpar) as [st' [E [Hs Hb]]].
  destruct (pack_cell_spec slurm_batch_size slurm_batch_wtime
              (Slurm.sc_store st) cases (batches (Slurm.submitted st)))
    as [new [Hnew [_ Hcat]]].
  exists st', new. split; [exact E|]. split; [now rewrite Hb|].
  split; [exact Hcat|]. intros c. now apply eligible_static.
Qed.

(** Four cases of the sweep, batches of at most 2 cases under a wall time
    of 10 minutes: the four cases, in order. *)
Lemma cell_cases_submitted_once_witness :
  exists st' new,
    Slurm.run_cell_cases Examples.join "bin" "code_saturne"
      Examples.job_numbers 10 [] false Examples.sweep_graph 2 0 0
      [0%nat; 1%nat; 2%nat; 3%nat]
      (Slurm.mkSched Examples.sweep Slurm.empty_batch 0 [] []) = Ok st' /\
    batches (Slurm.submitted st') = new /\
    List.concat (map fst new) = [0%nat; 1%nat; 2%nat; 3%nat].
Proof.
  destruct (cell_cases_submitted_once Examples.join "bin" "code_saturne"
              Examples.job_numbers 10 [] false Examples.sweep_graph 2 0 0
              [0%nat; 1%nat; 2%nat; 3%nat]
              (Slurm.mkSched Examples.sweep Slurm.empty_batch 0 [] []))
    as [st' [new [E [Hb [Hc _]]]]].
  - intros batch_id. discriminate.
  - intros c _. left. lia.
  - exists st', new. split; [exact E|]. split; [exact Hb|]. exact Hc.
Defined.

(** X6. Under the same conditions every batch that the loop submits is
    within the bounds: it has at least one case and at most
    [slurm_batch_size] cases (one when that size is below 1), the time
    written in its script is the sum of the expected times of its cases, and
    that time is under the wall time unless the batch is a single case. *)
Theorem cell_batches_within_bounds
    (os_path_join : list string -> string) (bindir exe : string)
    (sbatch_job_id : Z -> option string) (slurm_batch_wtime : Z)
    (slurm_batch_args : list string) (mem_log : bool)
    (graph : dependency_graph) (slurm_batch_size level nproc : Z)
    (cases : list ref) (st : Slurm.sched) :
  (forall batch_id, sbatch_job_id batch_id <> None) ->
  (forall c, In c cases -> has_parent graph level c) ->
  exists st' new,
    Slurm.run_cell_cases os_path_join bindir exe sbatch_job_id
      slurm_batch_wtime slurm_batch_args mem_log graph slurm_batch_size
      level nproc cases st = Ok st' /\
    batches (Slurm.submitted st') = batches (Slurm.submitted st) ++ new /\
    forall b, In b new ->
      fst b <> [] /\
      Z.of_nat (List.length (fst b)) <= Z.max 1 slurm_batch_size /\
      snd b = total_time (Slurm.sc_store st) (fst b) /\
      (snd b < slurm_batch_wtime \/ List.length (fst b) = 1%nat).
Proof.
  intros Hjob Hpar.
  destruct (run_cell_cases_refines os_path_join bindir exe sbatch_job_id
              slurm_batch_wtime slurm_batch_args mem_log graph Hjob
              slurm_batch_size level nproc cases st Hpar) as [st' [E [Hs Hb]]].
  destruct (pack_cell_spec slurm_batch_size slurm_batch_wtime
              (Slurm.sc_store st) cases (batches (Slurm.submitted st)))
    as [new [Hnew [Hall _]]].
  exists st', new. split; [exact E|]. split; [now rewrite Hb|].
  intros b Hin. rewrite Forall_forall in Hall.
  destruct (Hall b Hin) as [H1 [H2 [H3 H4]]].
  split; [exact H1|]. split; [exact H3|]. split; [exact H2|exact H4].
Qed.

(** The chain as one cell, whatever its levels, with batches of at most 2
    cases under a wall time of 10 minutes. *)
Lemma cell_batches_within_bounds_witness :
  exists st' new,
    Slurm.run_cell_cases Examples.join "bin" "code_saturne"
      Examples.job_numbers 10 [] false Examples.chain_graph 2 0 3
      [0%nat; 1%nat; 2%nat]
      (Slurm.mkSched Examples.chain_built Slurm.empty_batch 0 [] []) = Ok st' /\
    batches (Slurm.submitted st') = new /\
    forall b, In b new ->
      fst b <> [] /\ (List.length (fst b) <= 2)%nat /\
      (snd b < 10 \/ List.length (fst b) = 1%nat).
Proof.
  destruct (cell_batches_within_bounds Examples.join "bin" "code_saturne"
              Examples.job_numbers 10 [] false Examples.chain_graph 2 0 3
              [0%nat; 1%nat; 2%nat]
              (Slurm.mkSched Examples.chain_built Slurm.empty_batch 0 [] []))
    as [st' [new [E [Hb Hall]]]].
  - intros batch_id. discriminate.
  - intros c _. left. lia.
  - exists st', new. split; [exact E|]. split; [exact Hb|].
    intros b Hin. destruct (Hall b Hin) as [H1 [H2 [_ H4]]].
    split; [exact H1|]. split; [lia|exact H4].
Defined.

(** ** The commands of a case *)

Lemma no_space_append (kw : string) : no_space (kw ^^ " ") = false.
Proof.
  unfold no_space.
  assert (H : String.index 0 " " (kw ^^ " ") <> None).
  { induction kw as [|a kw IH].
    - discriminate.
    - cbn [String.append]. cbn [String.index].
      destruct (String.prefix " " (String a (kw ^^ " "))); [discriminate|].
      destruct (String.index 0 " " (kw ^^ " ")); [discriminate|].
      now contradiction IH. }
  destruct (String.index 0 " " (kw ^^ " ")); [reflexivity|].
  now contradiction H.
Qed.

Section CommandFacts.

Variable os_path_join : list string -> string.
Variable bindir : string.
Variable exe : string.

Local Abbreviation add_kw_args := CaseM.add_kw_args.
Local Abbreviation build_run_cmd :=
  (CaseM.build_run_cmd os_path_join bindir exe).
Local Abbreviation build_run_batch :=
  (CaseM.build_run_batch os_path_join bindir exe).
Local Abbreviation stage_cmd := (CaseM.stage_cmd os_path_join bindir exe).

(** The write to [self.kw_args]: nothing else changes, and the value
    written is one that the builders leave as it is. *)
Lemma add_kw_args_case (c : Case) (cmd : string) :
  let c1 := snd (add_kw_args c cmd) in
  c1 = set_kw_args c (kw_args c1) /\
  truthy_str (kw_args c1) = truthy_str (kw_args c) /\
  (forall cmd', add_kw_args c1 cmd' =
     (cmd' ^^ fst (add_kw_args c EmptyString), c1)).
Proof.
  unfold CaseM.add_kw_args.
  destruct (truthy_str (kw_args c)) eqn:Ht; cbn [fst snd].
  2:{ split; [now destruct c|]. split; [exact Ht|].
      intros cmd'. rewrite Ht.
      assert (E : cmd' ^^ EmptyString = cmd').
      { clear. induction cmd' as [|a w IH]; simpl; [reflexivity|].
        now rewrite IH. }
      now rewrite E. }
  destruct (kw_args c) as [kw|]; [|discriminate Ht].
  assert (Hkw : kw <> EmptyString).
  { simpl in Ht. apply negb_true_iff in Ht. now apply String.eqb_neq. }
  destruct (no_space kw) eqn:Hs.
  - cbn [kw_args set_kw_args]. split; [reflexivity|].
    assert (Ht1 : truthy_str (Some (kw ^^ " ")) = true).
    { simpl. apply negb_true_iff. apply String.eqb_neq.
      destruct kw; [now contradiction Hkw|discriminate]. }
    split; [exact Ht1|]. intros cmd'.
    rewrite Ht1, no_space_append. cbn [set_kw_args].
    reflexivity.
  - cbn [kw_args set_kw_args]. split; [reflexivity|].
    split; [exact Ht|]. intros cmd'.
    rewrite Ht, Hs. cbn [set_kw_args]. reflexivity.
Qed.

Lemma add_kw_args_eq (c : Case) (cmd : string) :
  add_kw_args c cmd =
    (cmd ^^ fst (add_kw_args c EmptyString), snd (add_kw_args c EmptyString)).
Proof.
  unfold CaseM.add_kw_args.
  destruct (truthy_str (kw_args c)); cbn [fst snd]; [reflexivity|].
  f_equal. clear. induction cmd as [|a w IH]; simpl; [reflexivity|].
  now rewrite <- IH.
Qed.

(** X7. The command builders write the workaround for the argument parser
    in [kw_args] and nowhere else; once one of them has run, [build_run_cmd],
    [build_run_batch] and the staging command leave the case as it is, and
    [build_run_cmd] gives the command it gave the first time. *)
Theorem build_run_cmd_stable (c : Case) (resource_name : option string)
    (mem_log : bool) :
  let cmd := fst (build_run_cmd c resource_name mem_log) in
  let c1 := snd (build_run_cmd c resource_name mem_log) in
  c1 = set_kw_args c (kw_args c1) /\
  (truthy_str (kw_args c) = true ->
   exists kw, kw_args c1 = Some kw /\ no_space kw = false) /\
  build_run_cmd c1 resource_name mem_log = (cmd, c1) /\
  snd (build_run_batch c1 resource_name mem_log) = c1 /\
  snd (stage_cmd c1) = c1 /\
  snd (stage_cmd c) = c1.
Proof.
  cbn zeta.
  destruct (add_kw_args_case c EmptyString) as [H1 [H2 H3]].
  set (c1 := snd (add_kw_args c EmptyString)) in *.
  set (k := fst (add_kw_args c EmptyString)) in *.
  assert (Hb : forall r m, build_run_cmd c r m =
                 (fst (build_run_cmd c r m), c1)).
  { intros r m. unfold CaseM.build_run_cmd.
    rewrite add_kw_args_eq. reflexivity. }
  assert (Hb1 : forall r m, build_run_cmd c1 r m =
                  (fst (build_run_cmd c r m), c1)).
  { intros r m. unfold CaseM.build_run_cmd.
    rewrite (add_kw_args_eq c), H3. fold c1. fold k.
    assert (Hf : repo c1 = repo c /\ label c1 = label c /\ dest c1 = dest c
                 /\ run_id c1 = run_id c).
    { rewrite H1. repeat split. }
    destruct Hf as [-> [-> [-> ->]]]. reflexivity. }
  rewrite (Hb resource_name mem_log). cbn [fst snd].
  split; [exact H1|]. split.
  { intros Ht. unfold c1, CaseM.add_kw_args. rewrite Ht. cbn [snd].
    destruct (kw_args c) as [kw|]; [|discriminate Ht].
    destruct (no_space kw) eqn:Hs; cbn [kw_args set_kw_args].
    - exists (kw ^^ " "). split; [reflexivity|apply no_space_append].
    - exists kw. now split. }
  split; [apply Hb1|]. split.
  { unfold CaseM.build_run_batch. fold build_run_cmd.
    now rewrite Hb1. }
  unfold CaseM.stage_cmd.
  split; [now rewrite H3|now rewrite add_kw_args_eq].
Qed.

End CommandFacts.

(** ** The return code of a run *)

(** Bit 1 of an integer, as [error & 2] reads it. *)
Lemma land_2 (a : Z) : Z.land a 2 = if Z.testbit a 1 then 2 else 0.
Proof.
  apply Z.bits_inj'. intros n Hn. rewrite Z.land_spec.
  destruct (Z.eq_dec n 1) as [->|Hn1].
  - destruct (Z.testbit a 1); reflexivity.
  - assert (H2 : Z.testbit 2 n = false).
    { change 2 with (2 ^ 1). apply Z.pow2_bits_false. lia. }
    rewrite H2, andb_false_r.
    destruct (Z.testbit a 1); [|now rewrite Z.bits_0].
    change 2 with (2 ^ 1). rewrite Z.pow2_bits_false; [reflexivity|lia].
Qed.

Lemma testbit_1_sub_2 (a : Z) : Z.testbit (a - 2) 1 = negb (Z.testbit a 1).
Proof.
  assert (H : forall b, Z.testbit b 1 = Z.odd (b / 2)).
  { intros b. rewrite <- Z.bit0_odd.
    change (b / 2) with (b / 2 ^ 1). rewrite <- Z.shiftr_div_pow2 by lia.
    rewrite Z.shiftr_spec by lia. reflexivity. }
  rewrite !H.
  replace (a - 2) with (a + (-1) * 2) by lia.
  rewrite Z.div_add by lia.
  replace (a / 2 + -1) with (a / 2 - 1) by lia.
  rewrite Z.odd_sub, Z.odd_1. now destruct (Z.odd (a / 2)).
Qed.

Section RunFacts.

Variable os_path_join : list string -> string.
Variable os_path_isfile : string -> bool.
Variable os_listdir : string -> list string.
Variable bindir : string.
Variable exe : string.
Variable run_studymanager_command : nat -> string -> Z * Z.
Variable str_time : Z -> string.

Local Abbreviation build_run_cmd :=
  (CaseM.build_run_cmd os_path_join bindir exe).
Local Abbreviation run :=
  (CaseM.run os_path_join bindir exe run_studymanager_command).
Local Abbreviation stage_cmd := (CaseM.stage_cmd os_path_join bindir exe).
Local Abbreviation prepare_run_folder :=
  (CaseM.prepare_run_folder os_path_join os_path_isfile os_listdir bindir exe
     run_studymanager_command str_time).

(** X8. The pair that [run] returns splits the return code of the command:
    under [mem_log] the code is the error plus 2 when a leak is reported, a
    leak is reported exactly when bit 1 of the code is set, and that bit is
    clear in the error; without [mem_log] the error is the code and no leak
    is reported.  The elapsed time of the command is stored in [is_time]. *)
Theorem run_leak_decoding (n : nat) (s : store) (r : ref)
    (resource_name : option string) (mem_log : bool) :
  let out := run_studymanager_command n
               (fst (build_run_cmd (s r) resource_name mem_log)) in
  let code := fst out in
  let error := fst (snd (run n s r resource_name mem_log)) in
  let leak := snd (snd (run n s r resource_name mem_log)) in
  code = error + (if leak then 2 else 0) /\
  leak = (mem_log && Z.testbit code 1)%bool /\
  (mem_log = true -> Z.testbit error 1 = false) /\
  is_time (fst (run n s r resource_name mem_log) r) = Some (snd out).
Proof.
  cbn zeta. unfold CaseM.run.
  destruct (build_run_cmd (s r) resource_name mem_log) as [cmd c1].
  cbn [fst]. destruct (run_studymanager_command n cmd) as [code t].
  cbn [fst snd].
  assert (Htime : forall c : Case,
            is_time (set_plot (set_compare (set_is_time c (Some t)) false) false)
            = Some t) by reflexivity.
  destruct mem_log; cbn [andb].
  - rewrite (land_2 code).
    destruct (Z.testbit code 1) eqn:Eb; cbn [Z.eqb negb fst snd].
    + split; [lia|]. split; [reflexivity|]. split.
      * intros _. now rewrite testbit_1_sub_2, Eb.
      * rewrite upd_same. now destruct (code - 2 =? 0).
    + split; [lia|]. split; [reflexivity|]. split; [intros _; exact Eb|].
      rewrite upd_same. now destruct (code =? 0).
  - cbn [fst snd]. split; [lia|]. split; [reflexivity|].
    split; [discriminate|]. rewrite upd_same. now destruct (code =? 0).
Qed.

(** X10. The staging of a case that is not coupled raises nothing and
    writes in no other case.  [compute] is turned off exactly when the
    staging command fails and the run directory has no
    [run_status.prepared] file; [compare] and [plot] are never touched; the
    log has a second line, which names the log file, exactly when [compute]
    is turned off. *)
Theorem prepare_uncoupled_outcome (n : nat) (s : store) (r : ref) :
  CaseM.truthy_list (subdomains (s r)) = false ->
  let retval := fst (run_studymanager_command n (fst (stage_cmd (s r)))) in
  let prepared :=
    os_path_isfile
      (os_path_join [run_dir (s r); "run_status.prepared"%string]) in
  exists lines s',
    prepare_run_folder n s r = Ok (lines, s') /\
    (forall r', r' <> r -> s' r' = s r') /\
    compute (s' r) = (compute (s r) && ((retval =? 0) || prepared))%bool /\
    compare (s' r) = compare (s r) /\
    plot (s' r) = plot (s r) /\
    List.length lines = if ((retval =? 0) || prepared)%bool then 1%nat else 2%nat.
Proof.
  intros Hsub. cbn zeta. unfold CaseM.prepare_run_folder. rewrite Hsub.
  assert (Hc : forall c cmd,
            let c1 := snd (CaseM.add_kw_args c cmd) in
            run_dir c1 = run_dir c /\ compute c1 = compute c /\
            compare c1 = compare c /\ plot c1 = plot c).
  { intros c cmd. unfold CaseM.add_kw_args.
    destruct (truthy_str (kw_args c)); cbn; repeat split. }
  unfold CaseM.stage_cmd at 1 2 3.
  match goal with
  | |- context [CaseM.add_kw_args (s r) ?cmd] =>
      destruct (Hc (s r) cmd) as [Hd [Hcompute [Hcompare Hplot]]];
      destruct (CaseM.add_kw_args (s r) cmd) as [cmd1 c1]
  end.
  cbn [fst snd] in *. rewrite Hd.
  destruct (run_studymanager_command n cmd1) as [retval t]. cbn [fst].
  destruct (Z.eqb_spec retval 0) as [E|E]; cbn [orb negb].
  - eexists _, _. split; [reflexivity|].
    split; [intros r' Hr'; now apply upd_other|]. rewrite upd_same.
    rewrite andb_true_r. repeat split; assumption.
  - destruct (os_path_isfile
                (os_path_join [run_dir (s r); "run_status.prepared"%string]));
      cbn [negb]; eexists _, _; (split; [reflexivity|]);
      (split; [intros r' Hr'; now apply upd_other|]); rewrite upd_same.
    + rewrite andb_true_r. repeat split; assumption.
    + rewrite andb_false_r. repeat split; assumption.
Qed.

(** X11. The staging of a coupled case none of whose sub-domains is in the
    listing of the case directory issues no command and raises
    [UnboundLocalError]: the log line reads a time that no command has
    set. *)
Theorem prepare_coupled_nothing_staged (n : nat) (s : store) (r : ref) :
  CaseM.truthy_list (subdomains (s r)) = true ->
  (forall node,
     In node (os_listdir (os_path_join [repo (s r); label (s r)])) ->
     str_in node (match subdomains (s r) with Some d => d | None => [] end)
       = false) ->
  prepare_run_folder n s r = Raise UnboundLocalError.
Proof.
  intros Hsub Hnone. unfold CaseM.prepare_run_folder. rewrite Hsub.
  set (doms := match subdomains (s r) with Some d => d | None => [] end) in *.
  assert (H : forall listing m c rv,
            (forall node, In node listing -> str_in node doms = false) ->
            CaseM.stage_subdomains os_path_join bindir exe
              run_studymanager_command listing doms m c rv None
            = (m, c, rv, None)).
  { induction listing as [|node listing IH]; intros m c rv Hall.
    - reflexivity.
    - cbn [CaseM.stage_subdomains]. rewrite (Hall node) by now left.
      apply IH. intros node' Hin. apply Hall. now right. }
  rewrite (H _ n (s r) 1 Hnone). reflexivity.
Qed.

End RunFacts.

(** A case directory that holds none of the sub-domains [fluid] and
    [solid]. *)
Lemma prepare_coupled_nothing_staged_witness :
  CaseM.prepare_run_folder Examples.join (fun _ => false)
    (fun _ => ["run.cfg"%string]) "bin" "code_saturne"
    Examples.first_call_only (fun _ => "7"%string)
    0 (fun _ => Examples.coupled) 0%nat = Raise UnboundLocalError.
Proof.
  apply (prepare_coupled_nothing_staged Examples.join (fun _ => false)
           (fun _ => ["run.cfg"%string]) "bin" "code_saturne"
           Examples.first_call_only (fun _ => "7"%string)
           0 (fun _ => Examples.coupled) 0%nat).
  - reflexivity.
  - intros node [<-|[]]. reflexivity.
Defined.

(** A case that is not coupled, whose staging fails with code 1 in a
    destination without [run_status.prepared]: [compute] is off. *)
Lemma prepare_uncoupled_outcome_witness :
  exists lines s',
    CaseM.prepare_run_folder Examples.join (fun _ => false) (fun _ => [])
      "bin" "code_saturne" (fun _ _ => (1, 7)) (fun _ => "7"%string)
      0 (fun _ => Examples.restarting) 0%nat = Ok (lines, s') /\
    compute (s' 0%nat) = false /\
    compare (s' 0%nat) = true /\
    List.length lines = 2%nat.
Proof.
  destruct (prepare_uncoupled_outcome Examples.join (fun _ => false)
              (fun _ => []) "bin" "code_saturne" (fun _ _ => (1, 7))
              (fun _ => "7"%string) 0 (fun _ => Examples.restarting) 0%nat)
    as [lines [s' [E [_ [H1 [H2 [_ H4]]]]]]].
  - reflexivity.
  - exists lines, s'. split; [exact E|]. split; [exact H1|].
    split; [exact H2|exact H4].
Defined.

(** ** Compilation test and direct runs of the studies *)

Lemma opt_str_eqb_eq (a b : option string) :
  Slurm.opt_str_eqb a b = true <-> a = b.
Proof.
  destruct a as [x|], b as [y|]; simpl; split; intros H;
    try reflexivity; try discriminate H.
  - apply String.eqb_eq in H. now subst.
  - inversion H. apply String.eqb_refl.
Qed.

Section StudiesFacts.

Variable os_path_join : list string -> string.
Variable bindir : string.
Variable exe : string.
Variable run_studymanager_command : nat -> string -> Z * Z.
Variable resource_name : option string.
Variable mem_log : bool.
Variable files_to_compile : string -> list string.
Variable compile_and_link : string -> Z.

Local Abbreviation run_case :=
  (CaseM.run os_path_join bindir exe run_studymanager_command).
Local Abbreviation run_loop :=
  (StudiesM.run_loop os_path_join bindir exe run_studymanager_command
     resource_name mem_log).
Local Abbreviation source_dirs := (StudiesM.source_dirs os_path_join).
Local Abbreviation compile_loop :=
  (StudiesM.compile_loop files_to_compile compile_and_link).
Local Abbreviation case_test_compilation :=
  (StudiesM.case_test_compilation os_path_join files_to_compile
     compile_and_link).
Local Abbreviation test_compilation :=
  (StudiesM.test_compilation os_path_join files_to_compile compile_and_link).

(** What one run leaves of the case it runs. *)
Lemma run_case_frame (n : nat) (s : store) (r : ref) :
  let s' := fst (run_case n s r resource_name mem_log) in
  (forall r', r' <> r -> s' r' = s r') /\
  compute (s' r) = compute (s r) /\
  is_compiled (s' r) = is_compiled (s r) /\
  (compare (s' r) = true -> compare (s r) = true) /\
  (plot (s' r) = true -> plot (s r) = true).
Proof.
  cbn zeta. unfold CaseM.run, CaseM.build_run_cmd, CaseM.add_kw_args.
  destruct (truthy_str (kw_args (s r)));
    match goal with
    | |- context [run_studymanager_command n ?cmd] =>
        destruct (run_studymanager_command n cmd) as [code t]
    end;
    (destruct mem_log; [destruct (negb (Z.land code 2 =? 0))|]);
    match goal with
    | |- context [negb (?e =? 0)] => destruct (negb (e =? 0))
    end;
    cbn [fst]; (split; [intros r' Hr'; now apply upd_other|]);
    rewrite upd_same; cbn; repeat split; trivial; discriminate.
Qed.

(** The loop of [Studies.run]: the commands issued and the cases left
    alone. *)
Lemma run_loop_spec (cases : list ref) (n : nat) (s : store) :
  fst (run_loop cases n s) =
    (n + List.length (filter (eligible s) cases))%nat /\
  (forall r, compute (snd (run_loop cases n s) r) = compute (s r) /\
             is_compiled (snd (run_loop cases n s) r) = is_compiled (s r)) /\
  (forall r, ~ In r cases \/ eligible s r = false ->
             snd (run_loop cases n s) r = s r) /\
  (forall r,
     (compare (snd (run_loop cases n s) r) = true -> compare (s r) = true) /\
     (plot (snd (run_loop cases n s) r) = true -> plot (s r) = true)).
Proof.
  revert n s.
  induction cases as [|c cases IH]; intros n s.
  - cbn. split; [lia|]. repeat split; trivial.
  - cbn [StudiesM.run_loop filter]. fold (eligible s c).
    destruct (eligible s c) eqn:Ec.
    + pose proof (run_case_frame n s c) as Hrun. cbn zeta in Hrun.
      destruct (run_case n s c resource_name mem_log) as [s1 out].
      cbn [fst] in Hrun. destruct Hrun as [Ho [Hcp [Hic [Hcm Hpl]]]].
      assert (Hst : forall r, compute (s1 r) = compute (s r) /\
                              is_compiled (s1 r) = is_compiled (s r)).
      { intros r. destruct (Nat.eq_dec r c) as [->|Hr]; [now split|].
        now rewrite (Ho r Hr). }
      assert (Hel : forall r, eligible s1 r = eligible s r).
      { intros r. unfold eligible. destruct (Hst r) as [-> ->]. reflexivity. }
      destruct (IH (S n) s1) as [H1 [H2 [H3 H4]]].
      split.
      { rewrite H1. cbn [List.length].
        rewrite (filter_ext _ _ Hel). lia. }
      split.
      { intros r. destruct (H2 r) as [-> ->]. apply Hst. }
      split.
      { intros r Hr. rewrite H3.
        - apply Ho. intros ->. destruct Hr as [Hr|Hr].
          + apply Hr. now left.
          + congruence.
        - rewrite Hel. destruct Hr as [Hr|Hr]; [left|now right].
          intros Hin. apply Hr. now right. }
      intros r. destruct (H4 r) as [A B].
      destruct (Nat.eq_dec r c) as [->|Hr].
      * split; intros H; [apply Hcm, A, H|apply Hpl, B, H].
      * rewrite <- (Ho r Hr). now split.
    + destruct (IH n s) as [H1 [H2 [H3 H4]]].
      split; [exact H1|]. split; [exact H2|]. split; [|exact H4].
      intros r Hr. apply H3. destruct Hr as [Hr|Hr]; [left|now right].
      intros Hin. apply Hr. now right.
Qed.

(** X9. [Studies.run] on the nodes of a graph issues one command for each
    node that is computed and whose compilation has not failed.  It changes
    [compute] and [is_compiled] of no case, writes in no case that is not
    run, and never turns [compare] or [plot] on. *)
Theorem studies_run_frame (graph : dependency_graph) (s : store) :
  let n' :=
    fst (StudiesM.run os_path_join bindir exe run_studymanager_command
           resource_name mem_log graph s) in
  let s' :=
    snd (StudiesM.run os_path_join bindir exe run_studymanager_command
           resource_name mem_log graph s) in
  n' = List.length (filter (eligible s) (nodes graph)) /\
  (forall r, compute (s' r) = compute (s r) /\
             is_compiled (s' r) = is_compiled (s r)) /\
  (forall r, ~ In r (nodes graph) \/ eligible s r = false -> s' r = s r) /\
  (forall r, (compare (s' r) = true -> compare (s r) = true) /\
             (plot (s' r) = true -> plot (s r) = true)).
Proof.
  cbn zeta. unfold StudiesM.run.
  destruct (run_loop_spec (nodes graph) 0 s) as [H1 [H2 [H3 H4]]].
  split; [exact H1|]. split; [exact H2|]. split; [exact H3|exact H4].
Qed.

Lemma compile_loop_spec (sdirs : list string) (ic : option string) (rc : Z) :
  compile_loop sdirs ic rc =
    (match compile_codes files_to_compile compile_and_link sdirs with
     | [] => ic
     | _ :: _ => Some "OK"%string
     end,
     rc + sumZ (compile_codes files_to_compile compile_and_link sdirs)).
Proof.
  revert ic rc. induction sdirs as [|d sdirs IH]; intros ic rc.
  - cbn. f_equal. lia.
  - cbn [StudiesM.compile_loop]. unfold compile_codes in *. cbn [filter].
    destruct (0 <? List.length (files_to_compile d))%nat.
    + rewrite IH. cbn [map sumZ fold_right]. f_equal.
      * now destruct (map compile_and_link _).
      * unfold sumZ. lia.
    + apply IH.
Qed.

(** X12. The status that [Case.test_compilation] returns and stores in
    [is_compiled], the only attribute it writes: [KO] exactly when the
    return codes of the source directories that hold files sum to more than
    0, [None] exactly when no source directory holds a file, [OK]
    otherwise. *)
Theorem case_compilation_status (c : Case) (study_path : string) :
  let codes :=
    compile_codes files_to_compile compile_and_link
      (source_dirs c study_path) in
  let status := snd (case_test_compilation c study_path) in
  fst (case_test_compilation c study_path) = set_is_compiled c status /\
  (status = Some "KO"%string <-> 0 < sumZ codes) /\
  (status = None <-> codes = []) /\
  (status = Some "OK"%string <-> codes <> [] /\ sumZ codes <= 0).
Proof.
  cbn zeta. unfold StudiesM.case_test_compilation.
  rewrite compile_loop_spec. cbn [fst snd]. split; [reflexivity|].
  set (codes := compile_codes _ _ _).
  replace (0 + sumZ codes) with (sumZ codes) by lia.
  destruct (Z.ltb_spec 0 (sumZ codes)) as [Hpos|Hle].
  - split; [split; [trivial|reflexivity]|].
    split; split.
    + discriminate.
    + intros H. rewrite H in Hpos. simpl in Hpos. lia.
    + discriminate.
    + intros [_ H]. lia.
  - split; [split; [|lia]|].
    { destruct codes; discriminate. }
    destruct codes as [|a codes].
    + split; [split; reflexivity|]. split; [discriminate|].
      intros [H _]. now contradiction H.
    + split; [split; discriminate|]. split; [|reflexivity].
      intros _. split; [discriminate|exact Hle].
Qed.

(** The loop of [Studies.test_compilation]: the store it leaves and the
    count of the failures. *)
Lemma test_compilation_spec (repo_dir : string) (cases : list ref) :
  forall (s : store) (iko : Z),
  let status := fun r =>
    snd (case_test_compilation (s r) (os_path_join [repo_dir; study (s r)])) in
  let out := test_compilation repo_dir cases s iko in
  snd out =
    iko + cnt (fun r => Slurm.opt_str_eqb (status r) (Some "KO"%string)) cases /\
  (forall r, fst out r =
     if in_dec Nat.eq_dec r cases then set_is_compiled (s r) (status r)
     else s r).
Proof.
  induction cases as [|c cases IH]; intros s iko; cbn zeta.
  - cbn. split; [unfold cnt; simpl; lia|reflexivity].
  - cbn [StudiesM.test_compilation].
    set (path := os_path_join [repo_dir; study (s c)]).
    set (st := snd (case_test_compilation (s c) path)).
    assert (Hst : snd (case_test_compilation (s c) path) = st) by reflexivity.
    assert (Hpair : case_test_compilation (s c) path =
                      (set_is_compiled (s c) st, st)).
    { unfold st, StudiesM.case_test_compilation.
      now destruct (compile_loop (source_dirs (s c) path) None 0). }
    rewrite Hpair.
    set (s1 := upd s c (set_is_compiled (s c) st)).
    assert (Hs1 : forall r,
              snd (case_test_compilation (s1 r)
                     (os_path_join [repo_dir; study (s1 r)])) =
              snd (case_test_compilation (s r)
                     (os_path_join [repo_dir; study (s r)]))).
    { intros r. unfold s1, upd. destruct (Nat.eqb r c) eqn:E; [|reflexivity].
      apply Nat.eqb_eq in E. subst r. reflexivity. }
    match goal with
    | |- context [test_compilation repo_dir cases s1 ?k] =>
        destruct (IH s1 k) as [H1 H2]
    end.
    cbn zeta in H1, H2. split.
    + rewrite H1. unfold cnt. cbn [filter]. fold path. rewrite Hst.
      rewrite (filter_ext _ _
                 (fun r => f_equal (fun x => Slurm.opt_str_eqb x (Some "KO"%string))
                             (Hs1 r))).
      destruct (Slurm.opt_str_eqb st (Some "OK"%string)) eqn:Eok.
      * apply opt_str_eqb_eq in Eok. rewrite Eok. cbn [Slurm.opt_str_eqb String.eqb].
        cbn. lia.
      * destruct (Slurm.opt_str_eqb st (Some "KO"%string));
          cbn [List.length]; lia.
    + intros r. rewrite H2, Hs1.
      destruct (in_dec Nat.eq_dec r cases) as [Hin|Hin];
        destruct (in_dec Nat.eq_dec r (c :: cases)) as [Hin'|Hin'].
      * unfold s1, upd. destruct (Nat.eqb r c) eqn:E; [|reflexivity].
        apply Nat.eqb_eq in E. subst r. fold path. rewrite Hst.
        reflexivity.
      * exfalso. apply Hin'. now right.
      * destruct Hin' as [->|Hin']; [|contradiction].
        unfold s1. rewrite upd_same. fold path. now rewrite Hst.
      * unfold s1. apply upd_other. intros ->. apply Hin'. now left.
Qed.

(** X13. [Studies.test_compilation], then [Studies.run]: the count of the
    failures is the number of occurrences of cases whose compilation
    returned [KO]; every case tested holds its status in [is_compiled] and
    is otherwise as it was, the other cases are as they were; and the run
    that follows writes in no case whose compilation failed, whatever the
    nodes it goes through. *)
Theorem failed_compilation_not_run (repo_dir : string)
    (cases nodes : list ref) (s : store) (n : nat) :
  let status := fun r =>
    snd (case_test_compilation (s r) (os_path_join [repo_dir; study (s r)])) in
  let s1 := fst (test_compilation repo_dir cases s 0) in
  let iko := snd (test_compilation repo_dir cases s 0) in
  let s2 := snd (run_loop nodes n s1) in
  iko = cnt (fun r => Slurm.opt_str_eqb (status r) (Some "KO"%string)) cases /\
  (forall r, In r cases -> s1 r = set_is_compiled (s r) (status r)) /\
  (forall r, ~ In r cases -> s1 r = s r) /\
  (forall r, In r cases -> status r = Some "KO"%string -> s2 r = s1 r).
Proof.
  cbn zeta.
  destruct (test_compilation_spec repo_dir cases s 0) as [H1 H2].
  cbn zeta in H1, H2. split; [rewrite H1; lia|].
  assert (Hin : forall r, In r cases ->
            fst (test_compilation repo_dir cases s 0) r =
            set_is_compiled (s r)
              (snd (case_test_compilation (s r)
                      (os_path_join [repo_dir; study (s r)])))).
  { intros r Hr. rewrite H2. now destruct (in_dec Nat.eq_dec r cases). }
  split; [exact Hin|]. split.
  { intros r Hr. rewrite H2. now destruct (in_dec Nat.eq_dec r cases). }
  intros r Hr Hko.
  destruct (run_loop_spec nodes n
              (fst (test_compilation repo_dir cases s 0))) as [_ [_ [H3 _]]].
  apply H3. right. unfold eligible. rewrite (Hin r Hr), Hko.
  cbn. apply andb_false_r.
Qed.

End StudiesFacts.

(** ** The checks of the result directories *)

Section ChecksFacts.

Variable os_path_join : list string -> string.
Variable os_path_basename : string -> string.
Variable os_path_isdir : string -> bool.
Variable os_path_isfile : string -> bool.
Variable os_listdir : string -> list string.

Local Abbreviation run_ok :=
  (CaseChecks.run_ok os_path_join os_path_basename os_path_isdir
     os_path_isfile).
Local Abbreviation check_rep :=
  (CaseChecks.check_rep os_path_join os_path_basename os_path_isdir
     os_path_isfile).
Local Abbreviation check_dir :=
  (CaseChecks.check_dir os_path_join os_path_basename os_path_isdir
     os_path_isfile os_listdir).
Local Abbreviation check_dirs :=
  (CaseChecks.check_dirs os_path_join os_path_basename os_path_isdir
     os_path_isfile os_listdir).

Local Abbreviation accepted :=
  (Spec.accepted os_path_join os_path_isdir os_path_isfile).

Lemma run_ok_accepted (c : Case) (run_dir : string) :
  fst (run_ok c run_dir) = accepted run_dir.
Proof.
  unfold CaseChecks.run_ok, Spec.accepted.
  destruct (os_path_isdir run_dir); cbn [negb andb]; [|reflexivity].
  destruct (os_path_isfile (os_path_join [run_dir; "error"%string]));
    destruct (os_path_isfile (os_path_join [run_dir; "summary"%string]));
    reflexivity.
Qed.

Lemma check_rep_spec (c : Case) (result_dir rep msg : string) :
  (accepted (os_path_join [result_dir; rep]) = true /\
   check_rep c result_dir rep msg = (Some rep, None)) \/
  (accepted (os_path_join [result_dir; rep]) = false /\
   exists m, check_rep c result_dir rep msg = (None, Some m)).
Proof.
  unfold CaseChecks.check_rep.
  pose proof (run_ok_accepted c (os_path_join [result_dir; rep])) as Hok.
  destruct (os_path_isdir (os_path_join [result_dir; rep])) eqn:Ed;
    cbn [negb].
  - destruct (run_ok c (os_path_join [result_dir; rep])) as [ok m].
    cbn [fst] in Hok. rewrite <- Hok.
    destruct ok; cbn [negb]; [left; now split|right].
    split; [reflexivity|]. eexists. reflexivity.
  - right. split; [|eexists; reflexivity].
    unfold Spec.accepted. now rewrite Ed.
Qed.

Lemma filter_nodot_raise (l : list string) (e : exn) :
  CaseChecks.filter_nodot l = Raise e -> e = IndexError /\ In EmptyString l.
Proof.
  induction l as [|item l IH]; cbn [CaseChecks.filter_nodot];
    [discriminate|].
  destruct item as [|a w]; cbn [CaseChecks.nodot bind].
  - intros H. inversion H. split; [reflexivity|now left].
  - destruct (CaseChecks.filter_nodot l) as [rest|e']; cbn [bind].
    + discriminate.
    + intros H. inversion H. subst e'.
      destruct (IH eq_refl) as [H1 H2]. split; [exact H1|now right].
Qed.

(** X14. [check_dir] returns a directory only with no message, and only
    when the result directory exists and the directory returned is accepted
    by [run_ok]: it exists, holds no [error] file and holds a [summary]
    file.  The directory returned is the one asked for; when none is asked
    for, it is the run id of the case, or, for the default run id [run1],
    the only entry of the result directory whose name has no leading dot.
    Without a directory, [check_dir] returns a message.  It raises nothing
    but [IndexError], when no directory is asked for and the listing has an
    empty name. *)
Theorem check_dir_sound (c : Case) (result_dir rep : string) :
  match check_dir c result_dir rep with
  | Ok (Some d, msg) =>
      msg = None /\
      os_path_isdir result_dir = true /\
      accepted (os_path_join [result_dir; d]) = true /\
      (rep <> EmptyString -> d = rep) /\
      (rep = EmptyString ->
       exists entries,
         CaseChecks.filter_nodot (os_listdir result_dir) = Ok entries /\
         entries <> [] /\
         (run_id c <> "run1"%string -> d = run_id c) /\
         (run_id c = "run1"%string -> entries = [d]))
  | Ok (None, msg) => msg <> None
  | Raise e =>
      e = IndexError /\ rep = EmptyString /\
      os_path_isdir result_dir = true /\
      In EmptyString (os_listdir result_dir)
  end.
Proof.
  unfold CaseChecks.check_dir.
  destruct (os_path_isdir result_dir) eqn:Ed; cbn [negb]; [|discriminate].
  destruct (String.eqb_spec rep EmptyString) as [Hrep|Hrep]; cbn [negb].
  - destruct (CaseChecks.filter_nodot (os_listdir result_dir))
      as [entries|e] eqn:Ef; cbn [bind].
    2:{ destruct (filter_nodot_raise _ _ Ef) as [H1 H2]. now repeat split. }
    destruct entries as [|first rest]; cbn [List.length Nat.eqb];
      [discriminate|].
    destruct (String.eqb_spec (run_id c) "run1") as [Hid|Hid].
    + destruct rest as [|second rest]; cbn [List.length Nat.ltb Nat.leb andb];
        [|discriminate].
      cbn [bind].
      destruct (check_rep_spec c result_dir first "Warning: ")
        as [[Ha E]|[Ha [m E]]]; fold check_rep; rewrite E; [|discriminate].
      split; [reflexivity|]. split; [reflexivity|]. split; [exact Ha|].
      split; [intros H; now contradiction H|].
      intros _. exists [first]. split; [reflexivity|].
      split; [discriminate|]. split; [intros H; now contradiction H|].
      reflexivity.
    + rewrite andb_false_r. cbn [bind].
      destruct (check_rep_spec c result_dir (run_id c) "Warning: ")
        as [[Ha E]|[Ha [m E]]]; fold check_rep; rewrite E; [|discriminate].
      split; [reflexivity|]. split; [reflexivity|]. split; [exact Ha|].
      split; [intros H; now contradiction H|].
      intros _. exists (first :: rest). split; [reflexivity|].
      split; [discriminate|]. split; [reflexivity|].
      intros H. now contradiction Hid.
  - destruct (check_rep_spec c result_dir rep "Warning: ")
      as [[Ha E]|[Ha [m E]]]; fold check_rep; rewrite E; [|discriminate].
    split; [reflexivity|]. split; [reflexivity|]. split; [exact Ha|].
    split; [reflexivity|]. intros H. now contradiction Hrep.
Qed.

(** X15. When a directory of the destination is given, [check_dirs]
    returns the message of the check of the destination alone: the message
    of the check of the repository, which is run first, does not reach the
    caller. *)
Theorem check_dirs_repo_message_lost (c : Case) (rep d : string)
    (reference : option string) :
  let repo_dir :=
    if truthy_str reference then
      os_path_join [match reference with Some x => x | None => EmptyString end;
                    label c; resu c]
    else os_path_join [repo c; label c; resu c] in
  (exists v, check_dir c repo_dir rep = Ok v) ->
  check_dirs c (Some rep) (Some d) reference =
    check_dirs c None (Some d) reference /\
  check_dirs c None (Some d) reference =
    ('(_, msg) <- check_dir c (os_path_join [dest c; label c; resu c]) d ;;
     Ok msg).
Proof.
  cbn zeta. intros [[r m] Hv]. unfold CaseChecks.check_dirs.
  fold check_dir. rewrite Hv. cbn [bind]. split; reflexivity.
Qed.

End ChecksFacts.

(** A repository without result directory and a destination whose run
    [run1] is complete: no message. *)
Lemma check_dirs_repo_message_lost_witness :
  (exists m,
     CaseChecks.check_dir Examples.join (fun p => p)
       (fun p => String.prefix "/dest" p)
       (fun p => String.eqb p "/dest/S/B/RESU/run1/summary")
       (fun _ => []) Examples.restarting "/repo/S/B/RESU" "run1"
     = Ok (None, Some m)) /\
  CaseChecks.check_dirs Examples.join (fun p => p)
    (fun p => String.prefix "/dest" p)
    (fun p => String.eqb p "/dest/S/B/RESU/run1/summary") (fun _ => [])
    Examples.restarting (Some "run1"%string) (Some "run1"%string) None
  = Ok None.
Proof.
  split; [eexists; reflexivity|].
  destruct (check_dirs_repo_message_lost Examples.join (fun p => p)
              (fun p => String.prefix "/dest" p)
              (fun p => String.eqb p "/dest/S/B/RESU/run1/summary")
              (fun _ => []) Examples.restarting "run1" "run1" None)
    as [H1 H2].
  - eexists. reflexivity.
  - rewrite H1, H2. reflexivity.
Defined.

(** ** The dependency inferred from the restart path and the restart flags *)

Lemma split_sep_nonempty (sep : ascii) (w : string) : split_sep sep w <> [].
Proof.
  destruct w as [|c w]; cbn [split_sep]; [discriminate|].
  destruct (Ascii.eqb c sep); [discriminate|].
  destruct (split_sep sep w); discriminate.
Qed.

Lemma split_sep_word (sep : ascii) (w : string) :
  has_char sep w = false -> split_sep sep w = [w].
Proof.
  induction w as [|c w IH]; cbn [has_char split_sep]; [reflexivity|].
  intros H. apply orb_false_iff in H as [Hc Hw].
  rewrite Hc, (IH Hw). reflexivity.
Qed.

Lemma split_sep_app (sep : ascii) (a b : string) :
  split_sep sep (a ^^ String sep b) = split_sep sep a ++ split_sep sep b.
Proof.
  induction a as [|c a IH]; cbn [String.append split_sep].
  - now rewrite Ascii.eqb_refl.
  - destruct (Ascii.eqb c sep); [now rewrite IH|].
    rewrite IH. pose proof (split_sep_nonempty sep a) as Hne.
    destruct (split_sep sep a); [now contradiction Hne|reflexivity].
Qed.

Lemma nth_back_app (l l' : list string) (k : nat) (x : string) :
  (1 <= k <= List.length l')%nat ->
  nth_error l' (List.length l' - k) = Some x ->
  nth_back (l ++ l') k = Ok x.
Proof.
  intros Hk Hx. unfold nth_back. rewrite length_app.
  destruct (Nat.ltb_spec (List.length l + List.length l') k) as [H|H];
    [lia|].
  rewrite nth_error_app2 by lia.
  replace (List.length l + List.length l' - k - List.length l)%nat
    with (List.length l' - k)%nat by lia.
  now rewrite Hx.
Qed.

Lemma tag_lookup (tag : string) (pre rest : list string) :
  str_in tag pre = false ->
  str_in tag (pre ++ tag :: rest) = true /\
  nth_error (pre ++ tag :: rest) (list_index tag (pre ++ tag :: rest) + 1)
    = nth_error rest 0.
Proof.
  induction pre as [|w pre IH]; cbn [app str_in list_index]; intros H.
  - rewrite String.eqb_refl. split; reflexivity.
  - apply orb_false_iff in H as [Hw Hpre]. rewrite Hw. cbn [orb].
    destruct (IH Hpre) as [H1 H2]. split; [exact H1|exact H2].
Qed.

Section DependsFacts.

Variable os_path_join : list string -> string.
Variable os_path_normpath : string -> string.

Local Abbreviation depends_of_path := (CaseM.depends_of_path os_path_join).
Local Abbreviation depends_of_tags :=
  (CaseM.depends_of_tags os_path_join os_path_normpath).

(** X16. A restart path [.../CASE/RESU/run_id/checkpoint], whatever stands
    before the case directory, gives the dependency made of the study of the
    case itself and of the last components but one of the path; a path of
    four components, with nothing before the case directory, gives none. *)
Theorem restart_path_dependency (c : Case)
    (before case_dir resu_dir run checkpoint : string) :
  has_char "/" case_dir = false ->
  has_char "/" resu_dir = false ->
  has_char "/" run = false ->
  has_char "/" checkpoint = false ->
  depends_of_path c
    (Some (before ^^ "/" ^^ case_dir ^^ "/" ^^ resu_dir ^^ "/" ^^ run ^^ "/"
             ^^ checkpoint))
  = Ok (Some (os_path_join [study c; case_dir; resu_dir; run])) /\
  depends_of_path c
    (Some (case_dir ^^ "/" ^^ resu_dir ^^ "/" ^^ run ^^ "/" ^^ checkpoint))
  = Ok None.
Proof.
  intros H1 H2 H3 H4.
  assert (Hsplit : split_sep "/"
            (case_dir ^^ "/" ^^ resu_dir ^^ "/" ^^ run ^^ "/" ^^ checkpoint)
          = [case_dir; resu_dir; run; checkpoint]).
  { cbn [String.append].
    rewrite !split_sep_app, !split_sep_word by assumption. reflexivity. }
  assert (Ht : forall a b, truthy_str (Some (a ^^ "/" ^^ b)) = true).
  { intros a b. destruct a; reflexivity. }
  split.
  - unfold CaseM.depends_of_path. rewrite Ht.
    change (before ^^ "/" ^^ case_dir ^^ "/" ^^ resu_dir ^^ "/" ^^ run ^^ "/"
              ^^ checkpoint)
      with (before ^^ String "/"
              (case_dir ^^ "/" ^^ resu_dir ^^ "/" ^^ run ^^ "/" ^^ checkpoint)).
    rewrite split_sep_app, Hsplit.
    pose proof (split_sep_nonempty "/" before) as Hne.
    set (l := split_sep "/" before) in *.
    assert (Hlen :
      Nat.ltb 4 (List.length (l ++ [case_dir; resu_dir; run; checkpoint]))
      = true).
    { apply Nat.ltb_lt. rewrite length_app. cbn [List.length].
      destruct l; [now contradiction Hne|cbn [List.length]; lia]. }
    rewrite Hlen.
    rewrite (nth_back_app l _ 2 run) by (cbn; try lia; reflexivity).
    rewrite (nth_back_app l _ 4 case_dir) by (cbn; try lia; reflexivity).
    rewrite (nth_back_app l _ 3 resu_dir) by (cbn; try lia; reflexivity).
    reflexivity.
  - unfold CaseM.depends_of_path. rewrite Ht, Hsplit. reflexivity.
Qed.

(** X17. Among the parametric arguments, the word that follows the first
    [--restart] gives the dependency, in the study, the case and the result
    directory of the case itself; it replaces the dependency of [setup.xml]
    and the one of a [-r] flag, wherever that flag stands, as long as a word
    follows the first [-r]. *)
Theorem restart_flag_priority (c : Case) (pre post : list string)
    (run : string) (from_setup : option string) :
  let list_param := pre ++ "--restart"%string :: run :: post in
  str_in "--restart" pre = false ->
  (str_in "-r" list_param = true ->
   nth_error list_param (list_index "-r" list_param + 1) <> None) ->
  depends_of_tags c list_param ["-r"%string; "--restart"%string] from_setup
  = Ok (Some (os_path_normpath
                (os_path_join [study c; label c; resu c; run]))).
Proof.
  cbn zeta. intros Hpre Hr.
  destruct (tag_lookup "--restart" pre (run :: post) Hpre) as [Hin Hnth].
  cbn [CaseM.depends_of_tags].
  destruct (str_in "-r" (pre ++ "--restart"%string :: run :: post)) eqn:Er.
  - destruct (nth_error _ (list_index "-r" _ + 1)) as [w|] eqn:Ew.
    + rewrite Hin, Hnth. reflexivity.
    + now contradiction (Hr eq_refl).
  - rewrite Hin, Hnth. reflexivity.
Qed.

(** X18. When the first [-r] or the first [--restart] of the parametric
    arguments is their last word, the search of the dependency raises
    [IndexError]. *)
Theorem restart_flag_without_value_raises (c : Case) (pre : list string)
    (tag : string) (from_setup : option string) :
  tag = "-r"%string \/ tag = "--restart"%string ->
  str_in tag pre = false ->
  depends_of_tags c (pre ++ [tag]) ["-r"%string; "--restart"%string]
    from_setup = Raise IndexError.
Proof.
  intros Htag Hpre.
  destruct (tag_lookup tag pre [] Hpre) as [Hin Hnth].
  cbn [nth_error] in Hnth. cbn [CaseM.depends_of_tags].
  destruct Htag as [-> | ->].
  - now rewrite Hin, Hnth.
  - destruct (str_in "-r" (pre ++ ["--restart"%string])).
    + destruct (nth_error _ (list_index "-r" _ + 1)); [|reflexivity].
      now rewrite Hin, Hnth.
    + now rewrite Hin, Hnth.
Qed.

End DependsFacts.

(** The format of [setup.xml]: [../CASE/RESU/run_id/checkpoint]. *)
Lemma restart_path_dependency_witness :
  CaseM.depends_of_path Examples.join Examples.restarting
    (Some "../A/RESU/run0/checkpoint"%string)
  = Ok (Some "S/A/RESU/run0"%string) /\
  CaseM.depends_of_path Examples.join Examples.restarting
    (Some "A/RESU/run0/checkpoint"%string)
  = Ok None.
Proof.
  apply (restart_path_dependency Examples.join Examples.restarting
           ".." "A" "RESU" "run0" "checkpoint"); reflexivity.
Defined.

(** [-r run0 --restart run5]: the dependency is on [run5]. *)
Lemma restart_flag_priority_witness :
  CaseM.depends_of_tags Examples.join (fun p => p) Examples.restarting
    ["-r"%string; "run0"%string; "--restart"%string; "run5"%string]
    ["-r"%string; "--restart"%string] (Some "S/A/RESU/run0"%string)
  = Ok (Some "S/B/RESU/run5"%string).
Proof.
  apply (restart_flag_priority Examples.join (fun p => p) Examples.restarting
           ["-r"%string; "run0"%string] [] "run5"
           (Some "S/A/RESU/run0"%string)).
  - reflexivity.
  - intros _. discriminate.
Defined.

(** [--restart] as the only word. *)
Lemma restart_flag_without_value_raises_witness :
  CaseM.depends_of_tags Examples.join (fun p => p) Examples.restarting
    ["--restart"%string] ["-r"%string; "--restart"%string] None
  = Raise IndexError.
Proof.
  apply (restart_flag_without_value_raises Examples.join (fun p => p)
           Examples.restarting [] "--restart" None).
  - now right.
  - reflexivity.
Defined.

(** ** The schedule of the slurm batches *)

Lemma frame_refl (s : store) : frame s s.
Proof. intros r. repeat split. Qed.

Lemma frame_trans (s1 s2 s3 : store) :
  frame s1 s2 -> frame s2 s3 -> frame s1 s3.
Proof.
  intros H12 H23 r.
  destruct (H12 r) as [A1 [A2 [A3 [A4 [A5 [A6 A7]]]]]].
  destruct (H23 r) as [B1 [B2 [B3 [B4 [B5 [B6 B7]]]]]].
  repeat split; congruence.
Qed.

Lemma frame_eligible (s s' : store) (c : ref) :
  frame s s' -> eligible s' c = eligible s c.
Proof.
  intros H. unfold eligible.
  destruct (H c) as [_ [_ [_ [_ [_ [H1 H2]]]]]]. now rewrite H1, H2.
Qed.

Lemma frame_well_formed (g : dependency_graph) (s s' : store) :
  frame s s' -> well_formed g s -> well_formed g s'.
Proof.
  intros Hf Hwf. split.
  - apply (wf_nodup _ _ Hwf).
  - apply (wf_max _ _ Hwf).
  - intros x Hx. destruct (Hf x) as [-> _]. now apply (wf_level _ _ Hwf).
  - intros x Hx. destruct (Hf x) as [_ [-> _]]. now apply (wf_procs _ _ Hwf).
  - intros x Hx. destruct (Hf x) as [-> [_ [-> _]]].
    now apply (wf_root _ _ Hwf).
  - intros x y l Hx Hy.
    destruct (Hf x) as [-> [_ [-> _]]].
    destruct (Hf y) as [-> [_ [_ [-> _]]]].
    now apply (wf_child _ _ Hwf).
Qed.

Lemma stamp_job_id_spec (cases : list ref) (j : string) :
  forall (s : store) (r : ref),
  Slurm.stamp_job_id s cases j r =
    if in_dec Nat.eq_dec r cases then set_job_id (s r) (Some j) else s r.
Proof.
  induction cases as [|c cases IH]; intros s r; cbn [Slurm.stamp_job_id].
  - now destruct (in_dec Nat.eq_dec r []).
  - rewrite IH. unfold upd.
    destruct (in_dec Nat.eq_dec r cases) as [H|H];
      destruct (in_dec Nat.eq_dec r (c :: cases)) as [H'|H'];
      destruct (Nat.eqb_spec r c) as [E|E]; subst; try reflexivity;
      exfalso; cbn [In] in *; intuition congruence.
Qed.

Lemma stamp_job_id_frame (cases : list ref) (j : string) (s : store) :
  frame s (Slurm.stamp_job_id s cases j).
Proof.
  intros r. rewrite stamp_job_id_spec.
  destruct (in_dec Nat.eq_dec r cases); repeat split.
Qed.

Lemma stamp_job_id_job (cases : list ref) (j : string) (s : store) (r : ref) :
  (In r cases -> job_id (Slurm.stamp_job_id s cases j r) = Some j) /\
  (~ In r cases -> job_id (Slurm.stamp_job_id s cases j r) = job_id (s r)).
Proof.
  rewrite stamp_job_id_spec.
  destruct (in_dec Nat.eq_dec r cases); split; intros H;
    try reflexivity; contradiction.
Qed.

Lemma opt_str_in_In (x : option string) (l : list (option string)) :
  Slurm.opt_str_in x l = true <-> In x l.
Proof.
  induction l as [|y l IH]; cbn [Slurm.opt_str_in In].
  - split; [discriminate|contradiction].
  - rewrite orb_true_iff, opt_str_eqb_eq, IH. reflexivity.
Qed.

Lemma NoDup_snoc (l : list ref) (c : ref) :
  NoDup l -> ~ In c l -> NoDup (l ++ [c]).
Proof.
  intros Hnd Hc. induction l as [|a l IH]; cbn [app].
  - constructor; [intros []|constructor].
  - inversion Hnd as [|? ? Ha Hl]. subst. constructor.
    + intros H. apply in_app_or in H as [H|[H|[]]]; [contradiction|].
      subst. apply Hc. now left.
    + apply IH; [assumption|]. intros H. apply Hc. now right.
Qed.

Lemma NoDup_app_l (l l' : list ref) : NoDup (l ++ l') -> NoDup l.
Proof.
  induction l as [|a l IH]; cbn [app]; intros H; [constructor|].
  inversion H as [|? ? Ha Hl]. subst. constructor.
  - intros Hin. apply Ha. apply in_or_app. now left.
  - now apply IH.
Qed.

Lemma all_cases_app (l1 l2 : list Slurm.submission) :
  all_cases (l1 ++ l2) = all_cases l1 ++ all_cases l2.
Proof. unfold all_cases. now rewrite map_app, concat_app. Qed.

Lemma all_cases_In (subs : list Slurm.submission) (c : ref) :
  In c (all_cases subs) <->
  exists sb, In sb subs /\ In c (Slurm.sub_cases sb).
Proof.
  unfold all_cases. rewrite in_concat. split.
  - intros [l [Hl Hc]]. apply in_map_iff in Hl as [sb [<- Hsb]].
    now exists sb.
  - intros [sb [Hsb Hc]]. exists (Slurm.sub_cases sb).
    split; [now apply in_map|exact Hc].
Qed.

Section ScheduleFacts.

Variable os_path_join : list string -> string.
Variable bindir : string.
Variable exe : string.
Variable sbatch_job_id : Z -> option string.
Variable slurm_batch_wtime : Z.
Variable slurm_batch_args : list string.
Variable mem_log : bool.
Variable graph : dependency_graph.
Variable s0 : store.

Local Abbreviation append_case :=
  (Slurm.append_case os_path_join bindir exe mem_log graph).
Local Abbreviation submit := (Slurm.submit sbatch_job_id slurm_batch_args).
Local Abbreviation case_step :=
  (Slurm.case_step os_path_join bindir exe sbatch_job_id slurm_batch_wtime
     slurm_batch_args mem_log graph).
Local Abbreviation cases_loop :=
  (Slurm.cases_loop os_path_join bindir exe sbatch_job_id slurm_batch_wtime
     slurm_batch_args mem_log graph).
Local Abbreviation run_cell_cases :=
  (Slurm.run_cell_cases os_path_join bindir exe sbatch_job_id
     slurm_batch_wtime slurm_batch_args mem_log graph).
Local Abbreviation ok := (sched_ok graph sbatch_job_id s0).
Local Abbreviation edge := (fun c => dict_get (graph_dict graph) c).

(** Every call of [sbatch] prints a job identifier. *)
Hypothesis sbatch_ok : forall batch_id, sbatch_job_id batch_id <> None.

Lemma build_run_batch_frame (c : Case) :
  let c1 := snd (CaseM.build_run_batch os_path_join bindir exe c None mem_log) in
  level c1 = level c /\ n_procs c1 = n_procs c /\ depends c1 = depends c /\
  neighbor_name c1 = neighbor_name c /\
  expected_time c1 = expected_time c /\ compute c1 = compute c /\
  is_compiled c1 = is_compiled c /\ job_id c1 = job_id c.
Proof.
  unfold CaseM.build_run_batch, CaseM.build_run_cmd, CaseM.add_kw_args.
  destruct (truthy_str (kw_args c)); cbn; repeat split.
Qed.

(** A case joins the batch under construction. *)
Lemma append_case_ok (level : Z) (st : Slurm.sched) (c : ref) :
  ok st ->
  ~ In c (all_cases (Slurm.submitted st)
          ++ Slurm.cases_list (Slurm.sc_batch st)) ->
  (0 < level -> exists q, edge c = Some (Some q)) ->
  (level <= 0 -> forall q, edge c <> Some (Some q)) ->
  exists st',
    append_case level st c = Ok st' /\
    ok st' /\
    Slurm.submitted st' = Slurm.submitted st /\
    Slurm.cases_list (Slurm.sc_batch st') =
      Slurm.cases_list (Slurm.sc_batch st) ++ [c].
Proof.
  intros Hok Hc Hup Hdown. unfold Slurm.append_case.
  pose proof (build_run_batch_frame (Slurm.sc_store st c)) as Hb.
  destruct (CaseM.build_run_batch os_path_join bindir exe
              (Slurm.sc_store st c) None mem_log) as [cmd c1].
  cbn [snd] in Hb.
  destruct Hb as [Hb1 [Hb2 [Hb3 [Hb4 [Hb5 [Hb6 [Hb7 Hb8]]]]]]].
  set (s1 := upd (Slurm.sc_store st) c c1).
  assert (Hj : forall r, job_id (s1 r) = job_id (Slurm.sc_store st r)).
  { intros r. unfold s1, upd. destruct (Nat.eqb_spec r c) as [->|E];
      [exact Hb8|reflexivity]. }
  assert (Hf : frame s0 s1).
  { eapply frame_trans; [apply (so_frame _ _ _ _ Hok)|].
    intros r. unfold s1, upd. destruct (Nat.eqb_spec r c) as [->|E];
      repeat split; assumption. }
  assert (Hdeps : exists deps,
    (if 0 <? level
     then match edge c with
          | None => Raise KeyError
          | Some None => Raise AttributeError
          | Some (Some parent) =>
              if negb (Slurm.opt_str_in (job_id (s1 parent))
                         (Slurm.dep_job_id_list (Slurm.sc_batch st)))
              then Ok (Slurm.dep_job_id_list (Slurm.sc_batch st)
                       ++ [job_id (s1 parent)])
              else Ok (Slurm.dep_job_id_list (Slurm.sc_batch st))
          end
     else Ok (Slurm.dep_job_id_list (Slurm.sc_batch st))) = Ok deps /\
    incl (Slurm.dep_job_id_list (Slurm.sc_batch st)) deps /\
    forall q, edge c = Some (Some q) -> In (job_id (s1 q)) deps).
  { destruct (Z.ltb_spec 0 level) as [Hl|Hl].
    - destruct (Hup Hl) as [q Hq]. rewrite Hq.
      destruct (Slurm.opt_str_in (job_id (s1 q))
                  (Slurm.dep_job_id_list (Slurm.sc_batch st))) eqn:Ein;
        cbn [negb]; eexists; (split; [reflexivity|]).
      + split; [apply incl_refl|]. intros q' Hq'. inversion Hq'. subst q'.
        now apply opt_str_in_In.
      + split; [now apply incl_appl, incl_refl|].
        intros q' Hq'. inversion Hq'. subst q'.
        apply in_or_app. right. now left.
    - eexists. split; [reflexivity|]. split; [apply incl_refl|].
      intros q Hq. now contradiction (Hdown Hl q). }
  destruct Hdeps as [deps [Ed [Hincl Hnew]]].
  fold s1. rewrite Ed. cbn [bind]. eexists. split; [reflexivity|].
  split; [|split; reflexivity].
  split; cbn [Slurm.sc_store Slurm.sc_batch Slurm.cur_batch_id
              Slurm.tot_job_id_list Slurm.submitted Slurm.cases_list
              Slurm.dep_job_id_list Slurm.cur_batch_size].
  - exact Hf.
  - apply (so_next _ _ _ _ Hok).
  - apply (so_ids _ _ _ _ Hok).
  - apply (so_jobs _ _ _ _ Hok).
  - rewrite app_assoc. apply NoDup_snoc; [apply (so_nodup _ _ _ _ Hok)|exact Hc].
  - intros sb c' Hsb Hc'. rewrite Hj. now apply (so_stamped _ _ _ _ Hok).
  - intros r Hr. rewrite Hj. now apply (so_unstamped _ _ _ _ Hok).
  - intros sb c' q Hsb Hc' Hq. rewrite Hj.
    now apply (so_deps _ _ _ _ Hok sb c').
  - intros c' q Hc' Hq. apply in_app_or in Hc' as [Hc'|[<-|[]]].
    + apply Hincl. rewrite Hj. now apply (so_open_deps _ _ _ _ Hok c').
    + now apply Hnew.
  - rewrite length_app, (so_size _ _ _ _ Hok). cbn [List.length]. lia.
  - apply (so_tasks _ _ _ _ Hok).
Qed.

(** The batch under construction is submitted. *)
Lemma submit_ok (in_loop : bool) (level nproc : Z) (st : Slurm.sched) :
  ok st ->
  (forall c q,
     In c (all_cases (Slurm.submitted st)
           ++ Slurm.cases_list (Slurm.sc_batch st)) ->
     edge c = Some (Some q) ->
     ~ In q (Slurm.cases_list (Slurm.sc_batch st))) ->
  (level < 1 -> forall c q,
     In c (Slurm.cases_list (Slurm.sc_batch st)) ->
     edge c <> Some (Some q)) ->
  (forall c, In c (Slurm.cases_list (Slurm.sc_batch st)) ->
     n_procs (s0 c) = nproc + 1) ->
  exists st',
    submit in_loop level nproc st = Ok st' /\
    ok st' /\
    all_cases (Slurm.submitted st') =
      all_cases (Slurm.submitted st) ++ Slurm.cases_list (Slurm.sc_batch st) /\
    Slurm.cases_list (Slurm.sc_batch st') = [].
Proof.
  intros Hok Hpar Hdown Htasks. unfold Slurm.submit.
  destruct (sbatch_job_id (Slurm.cur_batch_id st)) as [j|] eqn:Ej.
  2:{ now apply sbatch_ok in Ej. }
  set (cl := Slurm.cases_list (Slurm.sc_batch st)) in *.
  set (all := all_cases (Slurm.submitted st)) in *.
  eexists. split; [reflexivity|].
  cbn [Slurm.sc_batch Slurm.submitted Slurm.cases_list Slurm.empty_batch].
  assert (Hall : forall sb,
            all_cases (Slurm.submitted st ++ [sb])
            = all ++ Slurm.sub_cases sb).
  { intros sb. rewrite all_cases_app. unfold all_cases at 2.
    cbn [map List.concat]. now rewrite app_nil_r. }
  split; [|split; [apply Hall|reflexivity]].
  pose proof (so_nodup _ _ _ _ Hok) as Hnd. fold all cl in Hnd.
  assert (Hdisj : forall c, In c all -> ~ In c cl).
  { intros c Ha Hc. revert Hnd Ha Hc. clear. intros Hnd Ha Hc.
    induction all as [|a all IH]; [contradiction|].
    cbn [app] in Hnd. inversion Hnd as [|? ? Hna Hnd']. subst.
    destruct Ha as [->|Ha].
    - apply Hna. apply in_or_app. now right.
    - now apply IH. }
  split; cbn [Slurm.sc_store Slurm.sc_batch Slurm.cur_batch_id
              Slurm.tot_job_id_list Slurm.submitted Slurm.cases_list
              Slurm.dep_job_id_list Slurm.cur_batch_size Slurm.empty_batch].
  - eapply frame_trans; [apply (so_frame _ _ _ _ Hok)|].
    apply stamp_job_id_frame.
  - rewrite length_app, (so_next _ _ _ _ Hok). cbn [List.length]. lia.
  - rewrite length_app. cbn [List.length]. rewrite Nat.add_1_r, seq_S.
    rewrite !map_app, (so_ids _ _ _ _ Hok). cbn [map Slurm.sub_batch_id].
    now rewrite (so_next _ _ _ _ Hok).
  - rewrite !map_app, (so_jobs _ _ _ _ Hok). f_equal. cbn [map].
    unfold job_of. cbn [Slurm.sub_batch_id]. now rewrite Ej.
  - rewrite Hall. cbn [Slurm.sub_cases]. now rewrite app_nil_r.
  - intros sb c Hsb Hc. apply in_app_or in Hsb as [Hsb|[<-|[]]].
    + assert (Ha : In c all).
      { apply all_cases_In. now exists sb. }
      rewrite (proj2 (stamp_job_id_job cl j _ c) (Hdisj c Ha)).
      now apply (so_stamped _ _ _ _ Hok).
    + cbn [Slurm.sub_cases] in Hc. unfold job_of. cbn [Slurm.sub_batch_id].
      rewrite Ej. now apply stamp_job_id_job.
  - intros r Hr. rewrite Hall in Hr. cbn [Slurm.sub_cases] in Hr.
    rewrite (proj2 (stamp_job_id_job cl j _ r)).
    + apply (so_unstamped _ _ _ _ Hok). intros H. apply Hr.
      apply in_or_app. now left.
    + intros H. apply Hr. apply in_or_app. now right.
  - intros sb c q Hsb Hc Hq. apply in_app_or in Hsb as [Hsb|[<-|[]]].
    + assert (Ha : In c all).
      { apply all_cases_In. now exists sb. }
      rewrite (proj2 (stamp_job_id_job cl j _ q)).
      * now apply (so_deps _ _ _ _ Hok sb c).
      * apply (Hpar c q); [apply in_or_app; now left|exact Hq].
    + cbn [Slurm.sub_cases Slurm.sub_dependency] in *.
      destruct (Z.ltb_spec level 1) as [Hl|Hl].
      * now contradiction (Hdown Hl c q).
      * rewrite (proj2 (stamp_job_id_job cl j _ q)).
        -- now apply (so_open_deps _ _ _ _ Hok c).
        -- apply (Hpar c q); [apply in_or_app; now right|exact Hq].
  - intros c q [].
  - reflexivity.
  - intros sb c Hsb Hc. apply in_app_or in Hsb as [Hsb|[<-|[]]].
    + now apply (so_tasks _ _ _ _ Hok sb).
    + cbn [Slurm.sub_cases Slurm.sub_ntasks] in *. now apply Htasks.
Qed.

(** The cell under way: its cases, the cases submitted before it, and what
    the graph gives for them. *)
Section Cell.

Variable level nproc size : Z.
Variable old cell : list ref.

Hypothesis cell_up : 0 < level ->
  forall c, In c cell -> exists q, edge c = Some (Some q).
Hypothesis cell_down : level <= 0 ->
  forall c q, In c cell -> edge c <> Some (Some q).
Hypothesis cell_parents : forall c q,
  In c (old ++ cell) -> edge c = Some (Some q) -> ~ In q cell.
Hypothesis cell_tasks : forall c, In c cell -> n_procs (s0 c) = nproc + 1.

Local Abbreviation done_of st :=
  (all_cases (Slurm.submitted st) ++ Slurm.cases_list (Slurm.sc_batch st)).

Lemma submit_in_cell (in_loop : bool) (st : Slurm.sched) :
  ok st ->
  incl (done_of st) (old ++ cell) ->
  incl (Slurm.cases_list (Slurm.sc_batch st)) cell ->
  exists st',
    submit in_loop level nproc st = Ok st' /\
    ok st' /\
    done_of st' = done_of st /\
    Slurm.cases_list (Slurm.sc_batch st') = [].
Proof.
  intros Hok Hdone Hin.
  destruct (submit_ok in_loop level nproc st Hok) as [st' [E [Hok' [Ha Hc]]]].
  - intros c q Hc Hq Hq'. apply (cell_parents c q); auto.
  - intros Hl c q Hc. apply cell_down; [lia|auto].
  - intros c Hc. apply cell_tasks. auto.
  - exists st'. split; [exact E|]. split; [exact Hok'|].
    split; [|exact Hc]. now rewrite Ha, Hc, app_nil_r.
Qed.

Lemma append_in_cell (st : Slurm.sched) (c : ref) :
  ok st ->
  In c cell ->
  ~ In c (done_of st) ->
  exists st',
    append_case level st c = Ok st' /\
    ok st' /\
    done_of st' = done_of st ++ [c] /\
    Slurm.cases_list (Slurm.sc_batch st') =
      Slurm.cases_list (Slurm.sc_batch st) ++ [c].
Proof.
  intros Hok Hc Hnew.
  destruct (append_case_ok level st c Hok Hnew) as [st' [E [Hok' [Hs Hl]]]].
  - intros Hl. now apply cell_up.
  - intros Hl q. now apply cell_down.
  - exists st'. split; [exact E|]. split; [exact Hok'|].
    split; [|exact Hl]. now rewrite Hs, Hl, app_assoc.
Qed.

(** One case of the loop. *)
Lemma case_step_ok (st : Slurm.sched) (c : ref) :
  ok st ->
  In c cell ->
  ~ In c (done_of st) ->
  incl (done_of st) (old ++ cell) ->
  incl (Slurm.cases_list (Slurm.sc_batch st)) cell ->
  exists st',
    case_step size level nproc st c = Ok st' /\
    ok st' /\
    done_of st' = done_of st ++ (if eligible s0 c then [c] else []) /\
    incl (Slurm.cases_list (Slurm.sc_batch st')) cell.
Proof.
  intros Hok Hc Hnew Hdone Hin. unfold Slurm.case_step.
  fold (eligible (Slurm.sc_store st) c).
  rewrite (frame_eligible _ _ c (so_frame _ _ _ _ Hok)).
  destruct (eligible s0 c).
  2:{ exists st. rewrite app_nil_r. split; [reflexivity|].
      split; [exact Hok|]. split; [reflexivity|exact Hin]. }
  assert (Hdone1 : forall st1, done_of st1 = done_of st ++ [c] ->
                     incl (done_of st1) (old ++ cell)).
  { intros st1 E x Hx. rewrite E in Hx.
    apply in_app_or in Hx as [Hx|[<-|[]]]; [now apply Hdone|].
    apply in_or_app. now right. }
  assert (Hin1 : forall st1,
            Slurm.cases_list (Slurm.sc_batch st1) =
              Slurm.cases_list (Slurm.sc_batch st) ++ [c] ->
            incl (Slurm.cases_list (Slurm.sc_batch st1)) cell).
  { intros st1 E x Hx. rewrite E in Hx.
    apply in_app_or in Hx as [Hx|[<-|[]]]; [now apply Hin|exact Hc]. }
  destruct (_ || _)%bool; cbn [negb].
  - destruct (append_in_cell st c Hok Hc Hnew) as [st1 [E1 [Hok1 [Hd1 Hl1]]]].
    rewrite E1. cbn [bind]. rewrite orb_false_r.
    destruct (_ || _)%bool; cbn [bind].
    + destruct (submit_in_cell true st1 Hok1 (Hdone1 _ Hd1) (Hin1 _ Hl1))
        as [st2 [E2 [Hok2 [Hd2 Hl2]]]].
      rewrite E2. exists st2. split; [reflexivity|]. split; [exact Hok2|].
      split; [now rewrite Hd2|]. rewrite Hl2. intros x [].
    + exists st1. split; [reflexivity|]. split; [exact Hok1|].
      split; [exact Hd1|now apply Hin1].
  - cbn [bind]. rewrite orb_true_r. cbn [orb].
    destruct (submit_in_cell true st Hok Hdone Hin)
      as [st2 [E2 [Hok2 [Hd2 Hl2]]]].
    rewrite E2. cbn [bind].
    destruct (append_in_cell st2 c Hok2 Hc) as [st3 [E3 [Hok3 [Hd3 Hl3]]]].
    { now rewrite Hd2. }
    rewrite E3. exists st3. split; [reflexivity|]. split; [exact Hok3|].
    split; [now rewrite Hd3, Hd2|]. rewrite Hl3, Hl2.
    intros x [<-|[]]. exact Hc.
Qed.

Lemma cases_loop_ok (cases : list ref) :
  forall st,
  ok st ->
  NoDup cases ->
  incl cases cell ->
  (forall c, In c cases -> ~ In c (done_of st)) ->
  incl (done_of st) (old ++ cell) ->
  incl (Slurm.cases_list (Slurm.sc_batch st)) cell ->
  exists st',
    cases_loop size level nproc cases st = Ok st' /\
    ok st' /\
    done_of st' = done_of st ++ filter (eligible s0) cases /\
    incl (Slurm.cases_list (Slurm.sc_batch st')) cell.
Proof.
  induction cases as [|c cases IH]; intros st Hok Hnd Hcell Hnew Hdone Hin.
  - exists st. rewrite app_nil_r. split; [reflexivity|].
    split; [exact Hok|]. split; [reflexivity|exact Hin].
  - inversion Hnd as [|? ? Hc Hnd']. subst.
    destruct (case_step_ok st c Hok) as [st1 [E1 [Hok1 [Hd1 Hin1]]]];
      [apply Hcell; now left|apply Hnew; now left|exact Hdone|exact Hin|].
    destruct (IH st1 Hok1 Hnd') as [st2 [E2 [Hok2 [Hd2 Hin2]]]].
    + intros x Hx. apply Hcell. now right.
    + intros x Hx H. rewrite Hd1 in H. apply in_app_or in H as [H|H].
      * apply (Hnew x); [now right|exact H].
      * destruct (eligible s0 c); [|contradiction].
        destruct H as [<-|[]]. contradiction.
    + intros x Hx. rewrite Hd1 in Hx. apply in_app_or in Hx as [Hx|Hx].
      * now apply Hdone.
      * destruct (eligible s0 c); [|contradiction].
        destruct Hx as [<-|[]]. apply in_or_app. right. apply Hcell.
        now left.
    + exact Hin1.
    + cbn [Slurm.cases_loop]. rewrite E1. cbn [bind].
      exists st2. split; [exact E2|]. split; [exact Hok2|].
      split; [|exact Hin2]. rewrite Hd2, Hd1, <- app_assoc. f_equal.
      cbn [filter]. now destruct (eligible s0 c).
Qed.

Lemma ok_reset (st : Slurm.sched) :
  ok st ->
  ok (Slurm.mkSched (Slurm.sc_store st) Slurm.empty_batch
        (Slurm.cur_batch_id st) (Slurm.tot_job_id_list st)
        (Slurm.submitted st)).
Proof.
  intros Hok.
  split; cbn [Slurm.sc_store Slurm.sc_batch Slurm.cur_batch_id
              Slurm.tot_job_id_list Slurm.submitted Slurm.cases_list
              Slurm.dep_job_id_list Slurm.cur_batch_size Slurm.empty_batch].
  - apply (so_frame _ _ _ _ Hok).
  - apply (so_next _ _ _ _ Hok).
  - apply (so_ids _ _ _ _ Hok).
  - apply (so_jobs _ _ _ _ Hok).
  - rewrite app_nil_r. apply (NoDup_app_l _ _ (so_nodup _ _ _ _ Hok)).
  - apply (so_stamped _ _ _ _ Hok).
  - apply (so_unstamped _ _ _ _ Hok).
  - apply (so_deps _ _ _ _ Hok).
  - intros c q [].
  - reflexivity.
  - apply (so_tasks _ _ _ _ Hok).
Qed.

(** The whole cell: the loop on its cases, then the batch left open. *)
Lemma run_cell_cases_ok (st : Slurm.sched) :
  ok st ->
  NoDup cell ->
  (forall c, In c cell -> ~ In c (all_cases (Slurm.submitted st))) ->
  incl (all_cases (Slurm.submitted st)) old ->
  exists st',
    run_cell_cases size level nproc cell st = Ok st' /\
    ok st' /\
    all_cases (Slurm.submitted st') =
      all_cases (Slurm.submitted st) ++ filter (eligible s0) cell /\
    Slurm.cases_list (Slurm.sc_batch st') = [].
Proof.
  intros Hok Hnd Hnew Hold. unfold Slurm.run_cell_cases.
  pose proof (ok_reset st Hok) as Hok0.
  set (st0 := Slurm.mkSched _ _ _ _ _) in *.
  destruct (cases_loop_ok cell st0 Hok0 Hnd (incl_refl _))
    as [st1 [E1 [Hok1 [Hd1 Hin1]]]].
  - intros c Hc. unfold st0. cbn. rewrite app_nil_r. now apply Hnew.
  - unfold st0. cbn. rewrite app_nil_r. intros x Hx.
    apply in_or_app. left. now apply Hold.
  - unfold st0. cbn. intros x [].
  - rewrite E1. cbn [bind].
    assert (Hd0 : all_cases (Slurm.submitted st0)
                  ++ Slurm.cases_list (Slurm.sc_batch st0)
                  = all_cases (Slurm.submitted st)).
    { unfold st0. cbn. now rewrite app_nil_r. }
    rewrite Hd0 in Hd1.
    destruct (Z.ltb_spec 0 (Slurm.cur_batch_size (Slurm.sc_batch st1)))
      as [Hs|Hs].
    + destruct (submit_in_cell false st1 Hok1) as [st2 [E2 [Hok2 [Hd2 Hl2]]]].
      * intros x Hx. rewrite Hd1 in Hx. apply in_app_or in Hx as [Hx|Hx].
        -- apply in_or_app. left. now apply Hold.
        -- apply in_or_app. right. now apply filter_In in Hx as [Hx _].
      * exact Hin1.
      * exists st2. split; [exact E2|]. split; [exact Hok2|].
        split; [|exact Hl2]. rewrite Hl2, app_nil_r in Hd2.
        now rewrite Hd2, Hd1.
    + assert (Hnil : Slurm.cases_list (Slurm.sc_batch st1) = []).
      { apply length_zero_nil. rewrite <- (so_size _ _ _ _ Hok1).
        pose proof (so_size _ _ _ _ Hok1). lia. }
      exists st1. split; [reflexivity|]. split; [exact Hok1|].
      split; [|exact Hnil]. now rewrite Hnil, app_nil_r in Hd1.
Qed.

End Cell.

(** *** The loops on the levels and on the numbers of processes *)

Variable n_study : Z.
Variable final_batch : string.
Variable size : Z.

Hypothesis Hwf : well_formed graph s0.
Hypothesis Hedges : edges_ok graph s0.

Local Abbreviation run_cell :=
  (Slurm.run_cell os_path_join bindir exe sbatch_job_id slurm_batch_wtime
     slurm_batch_args mem_log graph).
Local Abbreviation run_nproc_loop :=
  (Slurm.run_nproc_loop os_path_join bindir exe sbatch_job_id
     slurm_batch_wtime slurm_batch_args mem_log graph).
Local Abbreviation run_level_loop :=
  (Slurm.run_level_loop os_path_join bindir exe sbatch_job_id
     slurm_batch_wtime slurm_batch_args mem_log graph).
Local Abbreviation run_slurm_batches :=
  (Slurm.run_slurm_batches os_path_join bindir exe sbatch_job_id
     slurm_batch_wtime slurm_batch_args mem_log n_study final_batch graph).

Lemma frame_keep (s s' : store) (fl fp : option Z) (x : ref) :
  frame s s' -> keep s' fl fp x = keep s fl fp x.
Proof.
  intros H. unfold keep. destruct (H x) as [-> [-> _]]. reflexivity.
Qed.

(** The node that an edge leads to is one level below. *)
Lemma parent_level (c q : ref) :
  In c (nodes graph) -> edge c = Some (Some q) ->
  In q (nodes graph) /\
  exists l, level (s0 q) = Some l /\ level (s0 c) = Some (l + 1) /\ 0 <= l.
Proof.
  intros Hc Hq. pose proof (Hedges c Hc) as He. rewrite Hq in He.
  destruct He as [Hin [_ [_ [l [Hl1 Hl2]]]]].
  assert (Hqn : In q (nodes graph)) by (eapply upto_incl; exact Hin).
  split; [exact Hqn|]. exists l. split; [exact Hl1|]. split; [exact Hl2|].
  destruct (wf_level _ _ Hwf q Hqn) as [l' [El' Hl']].
  rewrite Hl1 in El'. inversion El'. lia.
Qed.

Lemma edge_above (c : ref) (l : Z) :
  In c (nodes graph) -> level (s0 c) = Some l -> 0 < l ->
  exists q, edge c = Some (Some q).
Proof.
  intros Hc Hl Hpos. pose proof (Hedges c Hc) as He.
  destruct (edge c) as [[q|]|]; [now exists q| |contradiction].
  rewrite Hl in He. inversion He. lia.
Qed.

Lemma run_cell_ok (L p : Z) (st : Slurm.sched) :
  ok st ->
  (forall c, In c (all_cases (Slurm.submitted st)) ->
     In c (nodes graph) /\
     exists l, level (s0 c) = Some l /\
               (l < L \/ (l = L /\ n_procs (s0 c) <> p + 1))) ->
  exists st',
    run_cell size L p st = Ok st' /\
    ok st' /\
    all_cases (Slurm.submitted st') =
      all_cases (Slurm.submitted st)
      ++ filter (eligible s0)
           (filter (keep s0 (Some L) (Some (p + 1))) (nodes graph)).
Proof.
  intros Hok Hold. unfold Slurm.run_cell.
  pose proof (frame_well_formed _ _ _ (so_frame _ _ _ _ Hok) Hwf) as Hwf'.
  destruct (extract_cell graph (Slurm.sc_store st) L (p + 1) Hwf')
    as [sub [E Hn]].
  rewrite E. cbn [bind].
  assert (Hcell : nodes sub = filter (keep s0 (Some L) (Some (p + 1)))
                                (nodes graph)).
  { rewrite Hn. apply filter_ext. intros x.
    apply frame_keep, (so_frame _ _ _ _ Hok). }
  assert (Hst : Slurm.mkSched (Slurm.sc_store st) (Slurm.sc_batch st)
                  (Slurm.cur_batch_id st) (Slurm.tot_job_id_list st)
                  (Slurm.submitted st) = st) by now destruct st.
  rewrite Hst.
  assert (Hin : forall c, In c (nodes sub) ->
            In c (nodes graph) /\ level (s0 c) = Some L /\
            n_procs (s0 c) = p + 1).
  { intros c Hc. rewrite Hcell in Hc. apply filter_In in Hc as [Hc Hk].
    apply keep_cell in Hk. now split. }
  destruct (run_cell_cases_ok L p size (all_cases (Slurm.submitted st))
              (nodes sub)) with (st := st) as [st' [E' [Hok' [Ha _]]]].
  - intros Hl c Hc. destruct (Hin c Hc) as [Hg [Hlev _]].
    now apply (edge_above c L).
  - intros Hl c q Hc Hq. destruct (Hin c Hc) as [Hg [Hlev _]].
    destruct (parent_level c q Hg Hq) as [_ [l [_ [Hl2 Hl0]]]].
    rewrite Hlev in Hl2. inversion Hl2. lia.
  - intros c q Hc Hq Hqc.
    destruct (Hin q Hqc) as [_ [Hql _]].
    assert (Hcl : In c (nodes graph) /\
                  exists l, level (s0 c) = Some l /\ l <= L).
    { apply in_app_or in Hc as [Hc|Hc].
      - destruct (Hold c Hc) as [Hg [l [Hl Hcase]]]. split; [exact Hg|].
        exists l. split; [exact Hl|]. lia.
      - destruct (Hin c Hc) as [Hg [Hl _]]. split; [exact Hg|].
        exists L. split; [exact Hl|]. lia. }
    destruct Hcl as [Hg [l [Hl HlL]]].
    destruct (parent_level c q Hg Hq) as [_ [lq [Hlq [Hlc _]]]].
    rewrite Hl in Hlc. inversion Hlc. rewrite Hql in Hlq. inversion Hlq.
    lia.
  - intros c Hc. now destruct (Hin c Hc) as [_ [_ H]].
  - exact Hok.
  - rewrite Hcell. apply NoDup_filter, (wf_nodup _ _ Hwf).
  - intros c Hc Hc'. destruct (Hin c Hc) as [_ [Hl Hp]].
    destruct (Hold c Hc') as [_ [l [Hl' Hcase]]].
    rewrite Hl in Hl'. inversion Hl'. subst l.
    destruct Hcase as [H|[_ H]]; [lia|contradiction].
  - apply incl_refl.
  - exists st'. split; [exact E'|]. split; [exact Hok'|].
    now rewrite Ha, Hcell.
Qed.

Lemma run_nproc_loop_ok (L : Z) (nprocs : list Z) :
  forall st,
  ok st ->
  NoDup nprocs ->
  (forall c, In c (all_cases (Slurm.submitted st)) ->
     In c (nodes graph) /\ eligible s0 c = true /\
     exists l, level (s0 c) = Some l /\
               (l < L \/ (l = L /\ ~ In (n_procs (s0 c) - 1) nprocs))) ->
  exists st',
    run_nproc_loop size L nprocs st = Ok st' /\
    ok st' /\
    (forall c, In c (all_cases (Slurm.submitted st')) <->
       In c (all_cases (Slurm.submitted st)) \/
       (In c (nodes graph) /\ eligible s0 c = true /\
        level (s0 c) = Some L /\ In (n_procs (s0 c) - 1) nprocs)).
Proof.
  induction nprocs as [|p nprocs IH]; intros st Hok Hnd Hold.
  - exists st. split; [reflexivity|]. split; [exact Hok|].
    intros c. split; [now left|]. intros [H|[_ [_ [_ []]]]]. exact H.
  - inversion Hnd as [|? ? Hp Hnd']. subst.
    destruct (run_cell_ok L p st Hok) as [st1 [E1 [Hok1 Ha1]]].
    { intros c Hc. destruct (Hold c Hc) as [Hg [_ [l [Hl Hcase]]]].
      split; [exact Hg|]. exists l. split; [exact Hl|].
      destruct Hcase as [H|[H1 H2]]; [now left|right].
      split; [exact H1|]. intros Hn. apply H2. left. lia. }
    assert (Hnew : forall c,
              In c (filter (eligible s0)
                      (filter (keep s0 (Some L) (Some (p + 1)))
                         (nodes graph))) <->
              In c (nodes graph) /\ eligible s0 c = true /\
              level (s0 c) = Some L /\ n_procs (s0 c) - 1 = p).
    { intros c. rewrite !filter_In, keep_cell. split.
      - intros [[Hg [Hl Hn]] He]. repeat split; try assumption. lia.
      - intros [Hg [He [Hl Hn]]]. repeat split; try assumption. lia. }
    destruct (IH st1 Hok1 Hnd') as [st2 [E2 [Hok2 Ha2]]].
    { intros c Hc. rewrite Ha1 in Hc. apply in_app_or in Hc as [Hc|Hc].
      - destruct (Hold c Hc) as [Hg [He [l [Hl Hcase]]]].
        split; [exact Hg|]. split; [exact He|]. exists l.
        split; [exact Hl|].
        destruct Hcase as [H|[H1 H2]]; [now left|right].
        split; [exact H1|]. intros Hn. apply H2. now right.
      - apply Hnew in Hc as [Hg [He [Hl Hn]]].
        split; [exact Hg|]. split; [exact He|]. exists L.
        split; [exact Hl|]. right. split; [reflexivity|].
        now rewrite Hn. }
    cbn [Slurm.run_nproc_loop]. rewrite E1. cbn [bind].
    exists st2. split; [exact E2|]. split; [exact Hok2|].
    intros c. rewrite Ha2, Ha1, in_app_iff, Hnew. cbn [In]. split.
    + intros [[H|[Hg [He [Hl Hn]]]]|[Hg [He [Hl Hn]]]].
      * now left.
      * right. repeat split; try assumption. left. now symmetry.
      * right. repeat split; try assumption. now right.
    + intros [H|[Hg [He [Hl [Hn|Hn]]]]].
      * left. now left.
      * left. right. repeat split; try assumption. now symmetry.
      * right. repeat split; assumption.
Qed.

Lemma run_level_loop_ok (n : nat) :
  forall (a : nat) (st : Slurm.sched),
  ok st ->
  (forall c, In c (all_cases (Slurm.submitted st)) ->
     In c (nodes graph) /\ eligible s0 c = true /\
     exists l, level (s0 c) = Some l /\ l < Z.of_nat a) ->
  exists st',
    run_level_loop size (map Z.of_nat (seq a n)) st = Ok st' /\
    ok st' /\
    (forall c, In c (all_cases (Slurm.submitted st')) <->
       In c (all_cases (Slurm.submitted st)) \/
       (In c (nodes graph) /\ eligible s0 c = true /\
        exists l, level (s0 c) = Some l /\
                  Z.of_nat a <= l < Z.of_nat (a + n))).
Proof.
  induction n as [|n IH]; intros a st Hok Hold.
  - exists st. split; [reflexivity|]. split; [exact Hok|].
    intros c. split; [now left|]. intros [H|[_ [_ [l [_ Hl]]]]]; [exact H|lia].
  - cbn [seq map Slurm.run_level_loop].
    destruct (run_nproc_loop_ok (Z.of_nat a) (Slurm.range (max_proc graph))
                st Hok (range_NoDup _)) as [st1 [E1 [Hok1 Ha1]]].
    { intros c Hc. destruct (Hold c Hc) as [Hg [He [l [Hl Hlt]]]].
      split; [exact Hg|]. split; [exact He|]. exists l.
      split; [exact Hl|]. now left. }
    destruct (IH (S a) st1 Hok1) as [st2 [E2 [Hok2 Ha2]]].
    { intros c Hc. apply Ha1 in Hc as [Hc|[Hg [He [Hl _]]]].
      - destruct (Hold c Hc) as [Hg [He [l [Hl Hlt]]]].
        split; [exact Hg|]. split; [exact He|]. exists l.
        split; [exact Hl|]. lia.
      - split; [exact Hg|]. split; [exact He|]. exists (Z.of_nat a).
        split; [exact Hl|]. lia. }
    rewrite E1. cbn [bind]. exists st2. split; [exact E2|].
    split; [exact Hok2|].
    intros c. rewrite Ha2, Ha1. split.
    + intros [[H|[Hg [He [Hl _]]]]|[Hg [He [l [Hl Hr]]]]].
      * now left.
      * right. split; [exact Hg|]. split; [exact He|]. exists (Z.of_nat a).
        split; [exact Hl|]. lia.
      * right. split; [exact Hg|]. split; [exact He|]. exists l.
        split; [exact Hl|]. lia.
    + intros [H|[Hg [He [l [Hl Hr]]]]]; [left; now left|].
      destruct (Z.eq_dec l (Z.of_nat a)) as [->|Hne].
      * left. right. split; [exact Hg|]. split; [exact He|].
        split; [exact Hl|]. apply range_In.
        pose proof (wf_procs _ _ Hwf c Hg). lia.
      * right. split; [exact Hg|]. split; [exact He|]. exists l.
        split; [exact Hl|]. lia.
Qed.

(** The whole of [run_slurm_batches] on a well-formed graph with at least
    one node. *)
Lemma run_slurm_batches_ok :
  nodes graph <> [] ->
  exists st subs final,
    run_slurm_batches size s0 = Ok st /\
    Slurm.submitted st = subs ++ [final] /\
    ok (Slurm.mkSched (Slurm.sc_store st) (Slurm.sc_batch st)
          (Slurm.cur_batch_id st) (Slurm.tot_job_id_list st) subs) /\
    (forall c, In c (all_cases subs) <->
       In c (nodes graph) /\ eligible s0 c = true) /\
    final = Slurm.mkSubmission (Z.of_nat (List.length subs)) 1
              (n_study * 10 / 60) ((n_study * 10) mod 60)
              (map (fun p => "#SBATCH " ^^ p) slurm_batch_args)
              (map (job_of sbatch_job_id) subs)
              (Slurm.batch_cmd (Slurm.sc_batch st) ^^ final_batch)
              (n_study * 10) [].
Proof.
  intros Hne. unfold Slurm.run_slurm_batches.
  set (st0 := Slurm.mkSched s0 Slurm.empty_batch 0 [] []).
  assert (Hok0 : ok st0).
  { split; cbn; try reflexivity; try (intros; contradiction).
    - apply frame_refl.
    - constructor. }
  pose proof (wf_max _ _ Hwf) as Hmax.
  assert (Hrange : Slurm.range (max_level graph + 1) =
                   map Z.of_nat (seq 0 (Z.to_nat (max_level graph + 1))))
    by reflexivity.
  rewrite Hrange.
  destruct (run_level_loop_ok (Z.to_nat (max_level graph + 1)) 0%nat st0 Hok0)
    as [st [E [Hok Ha]]].
  { intros c []. }
  rewrite E. cbn [bind].
  assert (Hproc : 0 < max_proc graph).
  { destruct (nodes graph) as [|x l] eqn:En; [now contradiction Hne|].
    assert (Hx : In x (nodes graph)) by (rewrite En; now left).
    pose proof (wf_procs _ _ Hwf x Hx). lia. }
  assert (E1 : (max_proc graph <=? 0) = false) by (apply Z.leb_gt; lia).
  assert (E2 : (max_level graph + 1 <=? 0) = false) by (apply Z.leb_gt; lia).
  rewrite E1, E2. cbn [orb].
  eexists _, (Slurm.submitted st), _. split; [reflexivity|].
  cbn [Slurm.submitted Slurm.sc_store Slurm.sc_batch Slurm.cur_batch_id
       Slurm.tot_job_id_list].
  split; [reflexivity|]. split.
  { now destruct st. }
  split.
  { intros c. rewrite Ha. split.
    - intros [[]|[Hg [He _]]]. now split.
    - intros [Hg He]. right. split; [exact Hg|]. split; [exact He|].
      destruct (wf_level _ _ Hwf c Hg) as [l [Hl Hr]].
      exists l. split; [exact Hl|]. lia. }
  rewrite (so_next _ _ _ _ Hok), (so_jobs _ _ _ _ Hok). reflexivity.
Qed.

End ScheduleFacts.

Lemma chain_edges_ok : edges_ok Examples.chain_graph Examples.chain_built.
Proof.
  intros x Hx. simpl in Hx.
  destruct Hx as [<-|[<-|[<-|[]]]]; cbn.
  - reflexivity.
  - split; [now left|]. split; [discriminate|]. split; [reflexivity|].
    exists 0. now split.
  - split; [right; now left|]. split; [discriminate|].
    split; [reflexivity|]. exists 1. now split.
Qed.

(** X19. [run_slurm_batches] on a well-formed graph with at least one
    node, when every [sbatch] call prints a job identifier: it raises
    nothing; the batches it submits before the final one hold every node
    that is computed and whose compilation has not failed, each in one batch
    and once, and nothing else; every batch asks for as many tasks as each
    of its cases has processes; and no attribute that the graph or the
    packing reads is written. *)
Theorem slurm_batches_cover_graph
    (os_path_join : list string -> string) (bindir exe : string)
    (sbatch_job_id : Z -> option string) (slurm_batch_wtime : Z)
    (slurm_batch_args : list string) (mem_log : bool) (n_study : Z)
    (final_batch : string) (graph : dependency_graph) (s : store)
    (slurm_batch_size : Z) :
  (forall batch_id, sbatch_job_id batch_id <> None) ->
  well_formed graph s -> edges_ok graph s -> nodes graph <> [] ->
  exists st subs final,
    Slurm.run_slurm_batches os_path_join bindir exe sbatch_job_id
      slurm_batch_wtime slurm_batch_args mem_log n_study final_batch graph
      slurm_batch_size s = Ok st /\
    Slurm.submitted st = subs ++ [final] /\
    NoDup (all_cases subs) /\
    (forall c, In c (all_cases subs) <->
       In c (nodes graph) /\ eligible s c = true) /\
    (forall sb c, In sb subs -> In c (Slurm.sub_cases sb) ->
       n_procs (s c) = Slurm.sub_ntasks sb) /\
    frame s (Slurm.sc_store st).
Proof.
  intros Hjob Hwf Hedges Hne.
  destruct (run_slurm_batches_ok os_path_join bindir exe sbatch_job_id
              slurm_batch_wtime slurm_batch_args mem_log graph s Hjob
              n_study final_batch slurm_batch_size Hwf Hedges Hne)
    as [st [subs [final [E [Hs [Hok [Hcov _]]]]]]].
  exists st, subs, final. split; [exact E|]. split; [exact Hs|].
  split; [apply (NoDup_app_l _ _ (so_nodup _ _ _ _ Hok))|].
  split; [exact Hcov|]. split; [apply (so_tasks _ _ _ _ Hok)|].
  apply (so_frame _ _ _ _ Hok).
Qed.

(** The chain: its three cases are submitted. *)
Lemma slurm_batches_cover_graph_witness :
  exists st subs final,
    Slurm.run_slurm_batches Examples.join "bin" "code_saturne"
      Examples.job_numbers 10 [] false 1 "cd /dest" Examples.chain_graph
      1 Examples.chain_built = Ok st /\
    Slurm.submitted st = subs ++ [final] /\
    NoDup (all_cases subs) /\
    (forall c, In c (all_cases subs) <->
       In c [0%nat; 1%nat; 2%nat] /\ eligible Examples.chain_built c = true).
Proof.
  destruct (slurm_batches_cover_graph Examples.join "bin" "code_saturne"
              Examples.job_numbers 10 [] false 1 "cd /dest"
              Examples.chain_graph Examples.chain_built 1)
    as [st [subs [final [E [Hs [Hnd [Hcov _]]]]]]].
  - intros batch_id. discriminate.
  - exact chain_well_formed.
  - exact chain_edges_ok.
  - discriminate.
  - exists st, subs, final. split; [exact E|]. split; [exact Hs|].
    split; [exact Hnd|exact Hcov].
Defined.

(** X20. Under the same conditions, for every case of a batch and the node
    [q] that the edge of the case leads to, the node whose key is the
    dependency of the case: when [q] is computed and its compilation has not
    failed, [q] is in a batch whose job is in the dependency list of the
    batch of the case; otherwise the dependency list holds the [job_id] that
    [q] had, [None] for a case that was never submitted. *)
Theorem slurm_batches_follow_dependencies
    (os_path_join : list string -> string) (bindir exe : string)
    (sbatch_job_id : Z -> option string) (slurm_batch_wtime : Z)
    (slurm_batch_args : list string) (mem_log : bool) (n_study : Z)
    (final_batch : string) (graph : dependency_graph) (s : store)
    (slurm_batch_size : Z) :
  (forall batch_id, sbatch_job_id batch_id <> None) ->
  well_formed graph s -> edges_ok graph s -> nodes graph <> [] ->
  exists st subs final,
    Slurm.run_slurm_batches os_path_join bindir exe sbatch_job_id
      slurm_batch_wtime slurm_batch_args mem_log n_study final_batch graph
      slurm_batch_size s = Ok st /\
    Slurm.submitted st = subs ++ [final] /\
    forall sb c q,
      In sb subs -> In c (Slurm.sub_cases sb) ->
      dict_get (graph_dict graph) c = Some (Some q) ->
      depends (s c) = Some (neighbor_name (s q)) /\
      (eligible s q = true ->
       exists sb', In sb' subs /\ In q (Slurm.sub_cases sb') /\
                   In (job_of sbatch_job_id sb') (Slurm.sub_dependency sb)) /\
      (eligible s q = false ->
       In (job_id (s q)) (Slurm.sub_dependency sb)).
Proof.
  intros Hjob Hwf Hedges Hne.
  destruct (run_slurm_batches_ok os_path_join bindir exe sbatch_job_id
              slurm_batch_wtime slurm_batch_args mem_log graph s Hjob
              n_study final_batch slurm_batch_size Hwf Hedges Hne)
    as [st [subs [final [E [Hs [Hok [Hcov _]]]]]]].
  exists st, subs, final. split; [exact E|]. split; [exact Hs|].
  intros sb c q Hsb Hc Hq.
  assert (Hcg : In c (nodes graph)).
  { apply (Hcov c). apply all_cases_In. now exists sb. }
  pose proof (Hedges c Hcg) as He. rewrite Hq in He.
  destruct He as [Hup [_ [Hd _]]].
  assert (Hqg : In q (nodes graph)) by (eapply upto_incl; exact Hup).
  pose proof (so_deps _ _ _ _ Hok sb c q Hsb Hc Hq) as Hdep.
  cbn [Slurm.sc_store Slurm.submitted] in Hdep.
  split; [exact Hd|]. split.
  - intros Hel.
    assert (Hqa : In q (all_cases subs)) by (apply Hcov; now split).
    apply all_cases_In in Hqa as [sb' [Hsb' Hq']].
    exists sb'. split; [exact Hsb'|]. split; [exact Hq'|].
    rewrite <- (so_stamped _ _ _ _ Hok sb' q Hsb' Hq'). exact Hdep.
  - intros Hel.
    assert (Hqa : ~ In q (all_cases subs)).
    { intros H. apply Hcov in H as [_ H]. congruence. }
    rewrite <- (so_unstamped _ _ _ _ Hok q Hqa). exact Hdep.
Qed.

(** The chain: the batch of [S/B/RESU/run1] waits for the job of the batch
    of [S/A/RESU/run1]. *)
Lemma slurm_batches_follow_dependencies_witness :
  exists st subs final,
    Slurm.run_slurm_batches Examples.join "bin" "code_saturne"
      Examples.job_numbers 10 [] false 1 "cd /dest" Examples.chain_graph
      1 Examples.chain_built = Ok st /\
    Slurm.submitted st = subs ++ [final] /\
    forall sb, In sb subs -> In 1%nat (Slurm.sub_cases sb) ->
      exists sb', In sb' subs /\ In 0%nat (Slurm.sub_cases sb') /\
                  In (job_of Examples.job_numbers sb')
                     (Slurm.sub_dependency sb).
Proof.
  destruct (slurm_batches_follow_dependencies Examples.join "bin"
              "code_saturne" Examples.job_numbers 10 [] false 1 "cd /dest"
              Examples.chain_graph Examples.chain_built 1)
    as [st [subs [final [E [Hs Hdep]]]]].
  - intros batch_id. discriminate.
  - exact chain_well_formed.
  - exact chain_edges_ok.
  - discriminate.
  - exists st, subs, final. split; [exact E|]. split; [exact Hs|].
    intros sb Hsb Hc.
    destruct (Hdep sb 1%nat 0%nat Hsb Hc eq_refl) as [_ [H _]].
    apply H. reflexivity.
Defined.

(** X21. Under the same conditions the batches are numbered from 0 in the
    order of their submission; [tot_job_id_list] holds the job of each batch
    of cases, in that order, and the final batch, which has no case, waits
    for all of them; every case submitted bears the job of its batch in
    [job_id], and the other cases keep the [job_id] they had. *)
Theorem slurm_jobs_recorded
    (os_path_join : list string -> string) (bindir exe : string)
    (sbatch_job_id : Z -> option string) (slurm_batch_wtime : Z)
    (slurm_batch_args : list string) (mem_log : bool) (n_study : Z)
    (final_batch : string) (graph : dependency_graph) (s : store)
    (slurm_batch_size : Z) :
  (forall batch_id, sbatch_job_id batch_id <> None) ->
  well_formed graph s -> edges_ok graph s -> nodes graph <> [] ->
  exists st subs final,
    Slurm.run_slurm_batches os_path_join bindir exe sbatch_job_id
      slurm_batch_wtime slurm_batch_args mem_log n_study final_batch graph
      slurm_batch_size s = Ok st /\
    Slurm.submitted st = subs ++ [final] /\
    map Slurm.sub_batch_id (Slurm.submitted st) =
      map Z.of_nat (seq 0 (List.length (Slurm.submitted st))) /\
    map Some (Slurm.tot_job_id_list st) = map (job_of sbatch_job_id) subs /\
    Slurm.sub_cases final = [] /\
    Slurm.sub_dependency final = map Some (Slurm.tot_job_id_list st) /\
    (forall sb c, In sb subs -> In c (Slurm.sub_cases sb) ->
       job_id (Slurm.sc_store st c) = job_of sbatch_job_id sb) /\
    (forall c, ~ In c (all_cases subs) ->
       job_id (Slurm.sc_store st c) = job_id (s c)).
Proof.
  intros Hjob Hwf Hedges Hne.
  destruct (run_slurm_batches_ok os_path_join bindir exe sbatch_job_id
              slurm_batch_wtime slurm_batch_args mem_log graph s Hjob
              n_study final_batch slurm_batch_size Hwf Hedges Hne)
    as [st [subs [final [E [Hs [Hok [_ Hfinal]]]]]]].
  exists st, subs, final. split; [exact E|]. split; [exact Hs|].
  pose proof (so_ids _ _ _ _ Hok) as Hids.
  pose proof (so_jobs _ _ _ _ Hok) as Hjobs.
  cbn [Slurm.submitted Slurm.tot_job_id_list] in Hids, Hjobs.
  split.
  { rewrite Hs, length_app, map_app. cbn [List.length].
    rewrite Nat.add_1_r, seq_S, map_app, Hids, Hfinal. reflexivity. }
  split; [exact Hjobs|]. split; [now rewrite Hfinal|].
  split; [rewrite Hfinal, Hjobs; reflexivity|]. split.
  - apply (so_stamped _ _ _ _ Hok).
  - apply (so_unstamped _ _ _ _ Hok).
Qed.

(** The chain: the final batch has no case and waits for the jobs of all
    the others. *)
Lemma slurm_jobs_recorded_witness :
  exists st subs final,
    Slurm.run_slurm_batches Examples.join "bin" "code_saturne"
      Examples.job_numbers 10 [] false 1 "cd /dest" Examples.chain_graph
      1 Examples.chain_built = Ok st /\
    Slurm.submitted st = subs ++ [final] /\
    Slurm.sub_cases final = [] /\
    Slurm.sub_dependency final = map (job_of Examples.job_numbers) subs.
Proof.
  destruct (slurm_jobs_recorded Examples.join "bin" "code_saturne"
              Examples.job_numbers 10 [] false 1 "cd /dest"
              Examples.chain_graph Examples.chain_built 1)
    as [st [subs [final [E [Hs [_ [Hj [Hc [Hd _]]]]]]]]].
  - intros batch_id. discriminate.
  - exact chain_well_formed.
  - exact chain_edges_ok.
  - discriminate.
  - exists st, subs, final. split; [exact E|]. split; [exact Hs|].
    split; [exact Hc|]. now rewrite Hd, Hj.
Defined.

(** X22. On a graph whose [max_proc] is not positive, as the graph without
    node, [run_slurm_batches] visits no cell and raises
    [UnboundLocalError]: the final batch reads a command that no cell has
    set. *)
Theorem slurm_no_cell_raises
    (os_path_join : list string -> string) (bindir exe : string)
    (sbatch_job_id : Z -> option string) (slurm_batch_wtime : Z)
    (slurm_batch_args : list string) (mem_log : bool) (n_study : Z)
    (final_batch : string) (graph : dependency_graph) (s : store)
    (slurm_batch_size : Z) :
  max_proc graph <= 0 ->
  Slurm.run_slurm_batches os_path_join bindir exe sbatch_job_id
    slurm_batch_wtime slurm_batch_args mem_log n_study final_batch graph
    slurm_batch_size s = Raise UnboundLocalError.
Proof.
  intros Hp. unfold Slurm.run_slurm_batches.
  assert (Hr : Slurm.range (max_proc graph) = []).
  { unfold Slurm.range. replace (Z.to_nat (max_proc graph)) with 0%nat by lia.
    reflexivity. }
  assert (Hloop : forall levels st,
            Slurm.run_level_loop os_path_join bindir exe sbatch_job_id
              slurm_batch_wtime slurm_batch_args mem_log graph
              slurm_batch_size levels st = Ok st).
  { induction levels as [|L levels IH]; intros st; [reflexivity|].
    cbn [Slurm.run_level_loop]. rewrite Hr. cbn [Slurm.run_nproc_loop bind].
    apply IH. }
  rewrite Hloop. cbn [bind].
  assert (E : (max_proc graph <=? 0) = true) by (apply Z.leb_le; lia).
  now rewrite E.
Qed.

(** The graph without node. *)
Lemma slurm_no_cell_raises_witness :
  Slurm.run_slurm_batches Examples.join "bin" "code_saturne"
    Examples.job_numbers 10 [] false 1 "cd /dest" init 1 Examples.chain
  = Raise UnboundLocalError.
Proof.
  apply (slurm_no_cell_raises Examples.join "bin" "code_saturne"
           Examples.job_numbers 10 [] false 1 "cd /dest" init
           Examples.chain 1).
  simpl. lia.
Defined.

(** ** From the cases to the batches *)

(** The first loop of [dump_graph] keeps the invariants of the graph, adds
    the cases with a step on and changes nothing but their levels. *)
Lemma global_graph_invariants (cases : list ref) :
  forall (g : dependency_graph) (s : store),
  well_formed g s -> edges_ok g s -> maxima_ok g s ->
  NoDup (nodes g ++ cases) ->
  (forall x, In x cases -> fresh s x) ->
  unique_names s (nodes g ++ cases) ->
  (forall x, In x cases -> no_restart (s x) = true -> depends (s x) <> None) ->
  exists g' s' lines,
    StudiesM.global_graph cases g s = Ok (g', s', lines) /\
    nodes g' = nodes g ++ filter (fun r => StudiesM.active (s r)) cases /\
    well_formed g' s' /\ edges_ok g' s' /\ maxima_ok g' s' /\
    (forall x, s' x = set_level (s x) (level (s' x))) /\
    (forall x, ~ In x (filter (fun r => StudiesM.active (s r)) cases) ->
       s' x = s x).
Proof.
  induction cases as [|x cases IH];
    intros g s Hwf Hedges Hmaxima Hnd Hfresh Huniq Hrestart.
  - exists g, s, []. cbn [filter]. rewrite app_nil_r.
    split; [reflexivity|]. split; [reflexivity|]. split; [exact Hwf|].
    split; [exact Hedges|]. split; [exact Hmaxima|].
    split; [intros y; now rewrite set_level_id|reflexivity].
  - assert (Hx : ~ In x (nodes g)).
    { apply NoDup_remove_2 in Hnd. intros H. apply Hnd.
      apply in_or_app. now left. }
    assert (Hxc : ~ In x cases).
    { apply NoDup_remove_2 in Hnd. intros H. apply Hnd.
      apply in_or_app. now right. }
    assert (Hnd' : NoDup (nodes g ++ cases)).
    { now apply NoDup_remove_1 in Hnd. }
    assert (Hlines : forall c : Case,
              no_restart c = no_restart (s x) -> depends c = depends (s x) ->
              exists l2,
                (if no_restart c then
                   match depends c with
                   | Some d =>
                       Ok [" WARNING: " ^^ title c ^^ " was cancelled.";
                           " The restart folder seems problematic. See " ^^ d]
                   | None => Raise TypeError
                   end
                 else Ok []) = Ok l2).
    { intros c Hr Hd. rewrite Hr, Hd.
      destruct (no_restart (s x)) eqn:Er; [|now eexists].
      destruct (depends (s x)) as [d|] eqn:Ed; [now eexists|].
      exfalso. apply (Hrestart x); [now left|exact Er|exact Ed]. }
    cbn [StudiesM.global_graph filter].
    destruct (StudiesM.active (s x)) eqn:Ea.
    + destruct (add_node_fresh_step g s x Hwf Hedges Hmaxima Hx)
        as [g1 [lv [msg [E [Hn [Hwf1 [He1 Hm1]]]]]]].
      { apply Hfresh. now left. }
      { intros a b Ha Hb. apply Huniq.
        - apply in_app_or in Ha as [Ha|[<-|[]]]; apply in_or_app;
            [now left|right; now left].
        - apply in_app_or in Hb as [Hb|[<-|[]]]; apply in_or_app;
            [now left|right; now left]. }
      set (s1 := upd s x (set_level (s x) (Some lv))) in *.
      assert (Hs1 : forall y, y <> x -> s1 y = s y).
      { intros y Hy. unfold s1. now apply upd_other. }
      assert (Hs1x : s1 x = set_level (s x) (Some lv)) by apply upd_same.
      assert (Hact : filter (fun r => StudiesM.active (s1 r)) cases
                     = filter (fun r => StudiesM.active (s r)) cases).
      { apply filter_ext_in. intros y Hy. rewrite Hs1; [reflexivity|].
        intros ->. contradiction. }
      destruct (IH g1 s1 Hwf1 He1 Hm1)
        as [g2 [s2 [lines [E2 [Hn2 [Hwf2 [He2 [Hm2 [Hlv2 Hout2]]]]]]]]].
      * rewrite Hn, <- app_assoc. exact Hnd.
      * intros y Hy. apply fresh_upd.
        -- intros ->. contradiction.
        -- apply Hfresh. now right.
      * rewrite Hn, <- app_assoc. now apply unique_names_upd.
      * intros y Hy. rewrite Hs1 by (intros ->; contradiction).
        apply Hrestart. now right.
      * rewrite E. cbn [bind].
        destruct (Hlines (s1 x)) as [l2 El2];
          [now rewrite Hs1x|now rewrite Hs1x|].
        rewrite El2. cbn [bind]. rewrite E2. cbn [bind].
        eexists _, _, _. split; [reflexivity|].
        split; [now rewrite Hn2, Hn, Hact, <- app_assoc|].
        split; [exact Hwf2|]. split; [exact He2|]. split; [exact Hm2|].
        split.
        -- intros y. rewrite (Hlv2 y).
           destruct (Nat.eq_dec y x) as [->|Hy].
           ++ now rewrite Hs1x.
           ++ now rewrite (Hs1 y Hy).
        -- intros y Hy. rewrite Hout2.
           ++ apply Hs1. intros ->. apply Hy. now left.
           ++ rewrite Hact. intros H. apply Hy. now right.
    + destruct (IH g s Hwf Hedges Hmaxima Hnd')
        as [g2 [s2 [lines [E2 [Hn2 [Hwf2 [He2 [Hm2 [Hlv2 Hout2]]]]]]]]].
      * intros y Hy. apply Hfresh. now right.
      * intros a b Ha Hb. apply Huniq.
        -- apply in_app_or in Ha as [Ha|Ha]; apply in_or_app;
             [now left|right; now right].
        -- apply in_app_or in Hb as [Hb|Hb]; apply in_or_app;
             [now left|right; now right].
      * intros y Hy. apply Hrestart. now right.
      * cbn [bind]. destruct (Hlines (s x) eq_refl eq_refl) as [l2 El2].
        rewrite El2. cbn [bind]. rewrite E2. cbn [bind].
        eexists _, _, _. split; [reflexivity|]. split; [exact Hn2|].
        split; [exact Hwf2|]. split; [exact He2|]. split; [exact Hm2|].
        split; [exact Hlv2|exact Hout2].
Qed.

(** X23. The first loop of [dump_graph] on distinct cases as [__init__]
    leaves them, with distinct keys and a dependency wherever [no_restart]
    is on: it raises nothing; the nodes of the global graph are the cases
    with one of the steps on, in the order of the studies; the graph is well
    formed and its edges agree with the levels; and the loop writes nothing
    but the level of the cases it adds. *)
Theorem global_graph_of_cases (s : store) (cases : list ref) :
  NoDup cases ->
  (forall x, In x cases -> fresh s x) ->
  unique_names s cases ->
  (forall x, In x cases -> no_restart (s x) = true -> depends (s x) <> None) ->
  exists g s' lines,
    StudiesM.global_graph cases init s = Ok (g, s', lines) /\
    nodes g = filter (fun r => StudiesM.active (s r)) cases /\
    well_formed g s' /\ edges_ok g s' /\
    (forall x, s' x = set_level (s x) (level (s' x))) /\
    (forall x, In x cases -> StudiesM.active (s x) = false -> s' x = s x).
Proof.
  intros Hnd Hfresh Huniq Hrestart.
  destruct (global_graph_invariants cases init s (init_well_formed s)
              (init_edges_ok s) (init_maxima_ok s) Hnd Hfresh Huniq Hrestart)
    as [g [s' [lines [E [Hn [Hwf [He [_ [Hlv Hout]]]]]]]]].
  change (nodes init) with (@nil ref) in Hn. cbn [app] in Hn.
  exists g, s', lines. split; [exact E|]. split; [exact Hn|].
  split; [exact Hwf|]. split; [exact He|]. split; [exact Hlv|].
  intros x Hx Ha. apply Hout. intros H. apply filter_In in H as [_ H].
  congruence.
Qed.

(** The chain, whose three cases have every step on. *)
Lemma global_graph_of_cases_witness :
  exists g s' lines,
    StudiesM.global_graph [0%nat; 1%nat; 2%nat] init Examples.chain
      = Ok (g, s', lines) /\
    nodes g = [0%nat; 1%nat; 2%nat] /\
    well_formed g s' /\ edges_ok g s'.
Proof.
  destruct (global_graph_of_cases Examples.chain [0%nat; 1%nat; 2%nat]
              chain_NoDup chain_fresh chain_unique_names)
    as [g [s' [lines [E [Hn [Hwf [He _]]]]]]].
  - intros x Hx Hr. simpl in Hx.
    destruct Hx as [<-|[<-|[<-|[]]]]; discriminate Hr.
  - exists g, s', lines. split; [exact E|]. split; [exact Hn|].
    split; [exact Hwf|exact He].
Defined.

(** X24. From the cases to the batches: on such cases, one of which has a
    step on, and when every [sbatch] call prints a job identifier, the
    global graph of [dump_graph] followed by [run_slurm_batches] raises
    nothing, and the batches submitted before the final one hold, each in
    one batch and once, the cases whose [compute] is on and whose
    compilation has not failed, and no other case. *)
Theorem computed_cases_are_submitted
    (os_path_join : list string -> string) (bindir exe : string)
    (sbatch_job_id : Z -> option string) (slurm_batch_wtime : Z)
    (slurm_batch_args : list string) (mem_log : bool) (n_study : Z)
    (final_batch : string) (slurm_batch_size : Z)
    (s : store) (cases : list ref) :
  (forall batch_id, sbatch_job_id batch_id <> None) ->
  NoDup cases ->
  (forall x, In x cases -> fresh s x) ->
  unique_names s cases ->
  (forall x, In x cases -> no_restart (s x) = true -> depends (s x) <> None) ->
  (exists x, In x cases /\ StudiesM.active (s x) = true) ->
  exists g s' lines st subs final,
    StudiesM.global_graph cases init s = Ok (g, s', lines) /\
    Slurm.run_slurm_batches os_path_join bindir exe sbatch_job_id
      slurm_batch_wtime slurm_batch_args mem_log n_study final_batch g
      slurm_batch_size s' = Ok st /\
    Slurm.submitted st = subs ++ [final] /\
    NoDup (all_cases subs) /\
    (forall c, In c (all_cases subs) <->
       In c cases /\ compute (s c) = true /\
       is_compiled (s c) <> Some "KO"%string).
Proof.
  intros Hjob Hnd Hfresh Huniq Hrestart [x0 [Hx0 Ha0]].
  destruct (global_graph_invariants cases init s (init_well_formed s)
              (init_edges_ok s) (init_maxima_ok s) Hnd Hfresh Huniq Hrestart)
    as [g [s' [lines [E [Hn [Hwf [He [_ [Hlv _]]]]]]]]].
  change (nodes init) with (@nil ref) in Hn. cbn [app] in Hn.
  assert (Hne : nodes g <> []).
  { intros H. rewrite Hn in H.
    assert (Hin : In x0 (filter (fun r => StudiesM.active (s r)) cases)).
    { apply filter_In. now split. }
    rewrite H in Hin. contradiction. }
  destruct (run_slurm_batches_ok os_path_join bindir exe sbatch_job_id
              slurm_batch_wtime slurm_batch_args mem_log g s' Hjob
              n_study final_batch slurm_batch_size Hwf He Hne)
    as [st [subs [final [Er [Hs [Hok [Hcov _]]]]]]].
  exists g, s', lines, st, subs, final.
  split; [exact E|]. split; [exact Er|]. split; [exact Hs|].
  split; [apply (NoDup_app_l _ _ (so_nodup _ _ _ _ Hok))|].
  intros c. rewrite Hcov, Hn, filter_In. unfold eligible.
  rewrite (Hlv c). cbn [compute is_compiled set_level].
  unfold StudiesM.active. split.
  - intros [[Hc _] Hel]. apply andb_true_iff in Hel as [H1 H2].
    split; [exact Hc|]. split; [exact H1|].
    intros H. rewrite H in H2. discriminate H2.
  - intros [Hc [H1 H2]]. rewrite H1. cbn [orb andb].
    split; [now split|].
    apply negb_true_iff.
    destruct (Slurm.opt_str_eqb (is_compiled (s c)) (Some "KO"%string)) eqn:Ek;
      [|reflexivity].
    apply opt_str_eqb_eq in Ek. contradiction.
Qed.

(** The chain: its three cases are submitted. *)
Lemma computed_cases_are_submitted_witness :
  exists g s' lines st subs final,
    StudiesM.global_graph [0%nat; 1%nat; 2%nat] init Examples.chain
      = Ok (g, s', lines) /\
    Slurm.run_slurm_batches Examples.join "bin" "code_saturne"
      Examples.job_numbers 10 [] false 1 "cd /dest" g 1 s' = Ok st /\
    Slurm.submitted st = subs ++ [final] /\
    (forall c, In c [0%nat; 1%nat; 2%nat] -> In c (all_cases subs)).
Proof.
  destruct (computed_cases_are_submitted Examples.join "bin" "code_saturne"
              Examples.job_numbers 10 [] false 1 "cd /dest" 1
              Examples.chain [0%nat; 1%nat; 2%nat])
    as [g [s' [lines [st [subs [final [E [Er [Hs [_ Hcov]]]]]]]]]].
  - intros batch_id. discriminate.
  - exact chain_NoDup.
  - exact chain_fresh.
  - exact chain_unique_names.
  - intros x Hx Hr. simpl in Hx.
    destruct Hx as [<-|[<-|[<-|[]]]]; discriminate Hr.
  - exists 0%nat. split; [now left|reflexivity].
  - exists g, s', lines, st, subs, final.
    split; [exact E|]. split; [exact Er|]. split; [exact Hs|].
    intros c Hc. apply Hcov. split; [exact Hc|].
    simpl in Hc. destruct Hc as [<-|[<-|[<-|[]]]];
      (split; [reflexivity|discriminate]).
Defined.

(** ** The section and the expected time of [__query_config__] *)

Section QueryConfigFacts.

Variable lower : string -> string.
Variable sections : list string.

Local Abbreviation rid := (QueryConfig.specific_resource_name_rid lower).
Local Abbreviation tag_names := (QueryConfig.specific_resource_name_tag lower).
Local Abbreviation common_tag := (QueryConfig.common_tag sections).
Local Abbreviation rejected := (QueryConfig.rejected lower sections).
Local Abbreviation resource_base := (QueryConfig.resource_base lower sections).
Local Abbreviation resource_section :=
  (QueryConfig.resource_section lower sections).

Lemma common_tag_first (name : string) (pre post : list string)
    (tag : string) :
  (forall t, In t pre ->
     str_in (name ^^ "/tag=" ^^ lower t) sections = false) ->
  str_in (name ^^ "/tag=" ^^ lower tag) sections = true ->
  exists rest,
    common_tag (tag_names name (pre ++ tag :: post))
    = (name ^^ "/tag=" ^^ lower tag) :: rest.
Proof.
  intros Hpre Htag.
  unfold QueryConfig.common_tag, QueryConfig.specific_resource_name_tag.
  induction pre as [|t pre IH]; cbn [app map filter].
  - rewrite Htag. now eexists.
  - rewrite (Hpre t) by now left. apply IH. intros t' Ht'. apply Hpre.
    now right.
Qed.

Lemma common_tag_none (name : string) (tags : list string) :
  (forall t, In t tags ->
     str_in (name ^^ "/tag=" ^^ lower t) sections = false) ->
  common_tag (tag_names name tags) = [].
Proof.
  unfold QueryConfig.common_tag, QueryConfig.specific_resource_name_tag.
  induction tags as [|t tags IH]; intros Hnone; [reflexivity|].
  cbn [map filter]. rewrite (Hnone t) by now left.
  apply IH. intros t' Ht'. apply Hnone. now right.
Qed.

Lemma rejected_false (name : option string) (run_id : string)
    (tags : list string) :
  rejected name run_id tags = false ->
  exists n, name = Some n /\ n <> EmptyString /\
    (str_in n sections = true \/
     common_tag (tag_names n tags) <> [] \/
     str_in (rid n run_id) sections = true).
Proof.
  unfold QueryConfig.rejected. destruct name as [n|]; [|discriminate].
  intros H. apply orb_false_iff in H as [H1 H2].
  exists n. split; [reflexivity|]. split.
  { intros ->. discriminate H1. }
  destruct (str_in n sections); [now left|].
  destruct (common_tag (tag_names n tags)); [|right; left; discriminate].
  destruct (str_in (rid n run_id) sections); [right; now right|].
  discriminate H2.
Qed.

Lemma common_tag_existsb (name : string) (tags : list string) :
  match common_tag (tag_names name tags) with
  | [] => true
  | _ :: _ => false
  end =
  negb (existsb (fun tag => str_in (name ^^ "/tag=" ^^ lower tag) sections)
          tags).
Proof.
  unfold QueryConfig.common_tag, QueryConfig.specific_resource_name_tag.
  induction tags as [|t tags IH]; [reflexivity|].
  cbn [map filter existsb].
  destruct (str_in (name ^^ "/tag=" ^^ lower t) sections); [reflexivity|].
  exact IH.
Qed.

Lemma rejected_usable (name : option string) (run_id : string)
    (tags : list string) :
  rejected name run_id tags = negb (usable lower sections name run_id tags).
Proof.
  unfold QueryConfig.rejected, usable. destruct name as [n|]; [|reflexivity].
  rewrite common_tag_existsb.
  unfold QueryConfig.specific_resource_name_rid. cbn [truthy_str].
  destruct (negb (String.eqb n EmptyString)), (str_in n sections),
    (existsb _ tags), (str_in (n ^^ "/run_id=" ^^ lower run_id) sections);
    reflexivity.
Qed.

(** X25. The section that [__query_config__] reads.  Its base name is the
    first usable name among the resource name in lower case, the batch name
    as it is and [job_defaults]: the resource name when it is not empty and
    has a section of its own, for the run id or for a tag of the case;
    otherwise the batch name under the same test; otherwise [job_defaults].
    The section for the run id of the case dominates; without it, the
    section of the first tag of the case that has one; without any, the base
    name.  The section read is a section of the run configuration unless it
    is [job_defaults]. *)
Theorem resource_section_found (resource_name batch_name : option string)
    (run_id : string) (tags : list string) :
  let base := resource_base resource_name batch_name run_id tags in
  let section := resource_section resource_name batch_name run_id tags in
  let lowered :=
    match resource_name with
    | Some n => if String.eqb n EmptyString then None else Some (lower n)
    | None => None
    end in
  base =
    (if usable lower sections lowered run_id tags then
       match lowered with Some n => n | None => EmptyString end
     else if usable lower sections batch_name run_id tags then
       match batch_name with Some n => n | None => EmptyString end
     else "job_defaults"%string) /\
  (str_in section sections = true \/ section = "job_defaults"%string) /\
  (str_in (rid base run_id) sections = true -> section = rid base run_id) /\
  (str_in (rid base run_id) sections = false ->
   forall pre tag post,
     tags = pre ++ tag :: post ->
     (forall t, In t pre ->
        str_in (base ^^ "/tag=" ^^ lower t) sections = false) ->
     str_in (base ^^ "/tag=" ^^ lower tag) sections = true ->
     section = base ^^ "/tag=" ^^ lower tag) /\
  (str_in (rid base run_id) sections = false ->
   (forall t, In t tags ->
      str_in (base ^^ "/tag=" ^^ lower t) sections = false) ->
   section = base) /\
  ((exists n, resource_name = Some n /\ n <> EmptyString /\ base = lower n) \/
   (batch_name = Some base /\ base <> EmptyString) \/
   base = "job_defaults"%string).
Proof.
  cbn zeta. unfold QueryConfig.resource_section.
  set (base := resource_base resource_name batch_name run_id tags).
  assert (Hbase :
    (exists n, resource_name = Some n /\ n <> EmptyString /\ base = lower n /\
       rejected (Some base) run_id tags = false) \/
    (batch_name = Some base /\ base <> EmptyString /\
       rejected (Some base) run_id tags = false) \/
    base = "job_defaults"%string).
  { unfold base, QueryConfig.resource_base.
    destruct (rejected (if truthy_str resource_name
                        then option_map lower resource_name
                        else resource_name) run_id tags) eqn:E1.
    - destruct (rejected batch_name run_id tags) eqn:E2; [now right; right|].
      right. left. destruct (rejected_false _ _ _ E2) as [n [-> [Hn _]]].
      now repeat split.
    - left. destruct (rejected_false _ _ _ E1) as [n [En [Hn _]]].
      destruct resource_name as [m|]; [|discriminate En].
      destruct (truthy_str (Some m)) eqn:Et.
      + cbn [option_map] in En, E1. inversion En. subst n.
        exists m. split; [reflexivity|]. split.
        * intros ->. discriminate Et.
        * now split.
      + inversion En. subst m. exfalso. simpl in Et.
        apply negb_false_iff, String.eqb_eq in Et. contradiction. }
  split.
  { unfold base, QueryConfig.resource_base. rewrite !rejected_usable.
    destruct resource_name as [m|]; cbn [truthy_str option_map].
    - destruct (String.eqb m EmptyString) eqn:Em; cbn [negb].
      + apply String.eqb_eq in Em. subst m.
        destruct (usable lower sections batch_name run_id tags); reflexivity.
      + destruct (usable lower sections (Some (lower m)) run_id tags);
          cbn [negb]; [reflexivity|].
        destruct (usable lower sections batch_name run_id tags); reflexivity.
    - cbn [usable negb].
      destruct (usable lower sections batch_name run_id tags); reflexivity. }
  split.
  { destruct (str_in (rid base run_id) sections) eqn:Er; [now left|].
    destruct (common_tag (tag_names base tags)) as [|first rest] eqn:Ec.
    - destruct Hbase as [[n [_ [_ [_ Hrej]]]]|[[_ [_ Hrej]]|Hjob]];
        [| |now right];
        destruct (rejected_false _ _ _ Hrej) as [n' [En' [_ Hcase]]];
        inversion En'; subst n';
        (destruct Hcase as [H|[H|H]];
         [now left|now rewrite Ec in H|congruence]).
    - left. assert (Hin : In first (common_tag (tag_names base tags))).
      { rewrite Ec. now left. }
      unfold QueryConfig.common_tag in Hin.
      now apply filter_In in Hin as [_ Hin]. }
  split; [intros Hr; now rewrite Hr|]. split.
  { intros Hr pre tag post Htags Hpre Htag. rewrite Hr, Htags.
    destruct (common_tag_first base pre post tag Hpre Htag) as [rest ->].
    reflexivity. }
  split.
  { intros Hr Hnone. rewrite Hr.
    now rewrite (common_tag_none base tags Hnone). }
  destruct Hbase as [[n [H1 [H2 [H3 _]]]]|[[H1 [H2 _]]|H]].
  - left. now exists n.
  - right. left. now split.
  - right. now right.
Qed.

End QueryConfigFacts.

Lemma length_append (a b : string) :
  String.length (a ^^ b) = (String.length a + String.length b)%nat.
Proof. induction a as [|c a IH]; simpl; [reflexivity|now rewrite IH]. Qed.

Lemma substring_all (a : string) :
  String.substring 0 (String.length a) a = a.
Proof. induction a as [|c a IH]; simpl; [reflexivity|now rewrite IH]. Qed.

Lemma substring_prefix (a b : string) :
  String.substring 0 (String.length a) (a ^^ b) = a.
Proof.
  induction a as [|c a IH]; simpl.
  - now destruct b.
  - now rewrite IH.
Qed.

Lemma substring_skip (a b : string) (n : nat) :
  String.substring (String.length a) n (a ^^ b) = String.substring 0 n b.
Proof. induction a as [|c a IH]; simpl; [reflexivity|exact IH]. Qed.

Lemma index_colon (a b : string) :
  has_char ":" a = false ->
  String.index 0 ":" (a ^^ String ":" b) = Some (String.length a).
Proof.
  induction a as [|c a IH]; cbn [has_char String.append String.length];
    intros H.
  - cbn [String.index String.prefix].
    destruct (ascii_dec ":" ":") as [_|E]; [|now contradiction E].
    now destruct b.
  - apply orb_false_iff in H as [Hc Ha]. cbn [String.index String.prefix].
    destruct (ascii_dec ":" c) as [E|_].
    { subst c. discriminate Hc. }
    now rewrite (IH Ha).
Qed.

Lemma index_no_colon (a : string) :
  has_char ":" a = false -> String.index 0 ":" a = None.
Proof.
  induction a as [|c a IH]; cbn [has_char]; intros H; [reflexivity|].
  apply orb_false_iff in H as [Hc Ha]. cbn [String.index String.prefix].
  destruct (ascii_dec ":" c) as [E|_].
  { subst c. discriminate Hc. }
  now rewrite (IH Ha).
Qed.

Section ExpectedTimeFacts.

Variable py_int : string -> result Z.

Local Abbreviation expected_time_minutes :=
  (QueryConfig.expected_time_minutes py_int).

(** X26. The conversion of the expected time.  For a value [HH:MM] with two
    characters after the only colon, the result is 60 times the integer
    before the colon plus the integer after it.  A value without colon loses
    its last character for the hours and gives its last two characters for
    the minutes, so that its last character but one is read twice.  Without
    value, the expected time is the one of the resource configuration. *)
Theorem expected_time_conversion (resource_exp_time : Z) :
  (forall hh mm,
     has_char ":" hh = false -> String.length mm = 2%nat ->
     expected_time_minutes (Some (hh ^^ ":" ^^ mm)) resource_exp_time =
       (hours <- py_int hh ;; minutes <- py_int mm ;;
        Ok (hours * 60 + minutes))) /\
  (forall body a b,
     has_char ":" (body ^^ String a (String b EmptyString)) = false ->
     expected_time_minutes (Some (body ^^ String a (String b EmptyString)))
       resource_exp_time =
       (hours <- py_int (body ^^ String a EmptyString) ;;
        minutes <- py_int (String a (String b EmptyString)) ;;
        Ok (hours * 60 + minutes))) /\
  expected_time_minutes None resource_exp_time = Ok resource_exp_time /\
  expected_time_minutes (Some EmptyString) resource_exp_time
    = Ok resource_exp_time.
Proof.
  split; [|split; [|split; reflexivity]].
  - intros hh mm Hh Hm. unfold QueryConfig.expected_time_minutes.
    assert (Ht : truthy_str (Some (hh ^^ ":" ^^ mm)) = true).
    { destruct hh; reflexivity. }
    rewrite Ht.
    change (hh ^^ ":" ^^ mm) with (hh ^^ String ":" mm).
    assert (E1 : QueryConfig.before_colon (hh ^^ String ":" mm) = hh).
    { unfold QueryConfig.before_colon. rewrite (index_colon hh mm Hh).
      apply substring_prefix. }
    assert (E2 : QueryConfig.last_two (hh ^^ String ":" mm) = mm).
    { unfold QueryConfig.last_two.
      assert (Hassoc : hh ^^ String ":" mm = (hh ^^ ":") ^^ mm).
      { clear. induction hh as [|c hh IH]; simpl; [reflexivity|].
        now rewrite IH. }
      rewrite Hassoc, length_append, Hm.
      replace (String.length (hh ^^ ":") + 2 - 2)%nat
        with (String.length (hh ^^ ":")) by lia.
      assert (Hle : (2 <=? String.length (hh ^^ ":") + 2)%nat = true)
        by (apply Nat.leb_le; lia).
      rewrite Hle, substring_skip, <- Hm. apply substring_all. }
    now rewrite E1, E2.
  - intros body a b Hc. unfold QueryConfig.expected_time_minutes.
    set (tmp := body ^^ String a (String b EmptyString)) in *.
    assert (Ht : truthy_str (Some tmp) = true).
    { unfold tmp. destruct body; reflexivity. }
    rewrite Ht.
    assert (Hassoc : tmp = (body ^^ String a EmptyString)
                           ^^ String b EmptyString).
    { unfold tmp. clear. induction body as [|c body IH]; simpl;
        [reflexivity|]. now rewrite IH. }
    assert (E1 : QueryConfig.before_colon tmp = body ^^ String a EmptyString).
    { unfold QueryConfig.before_colon. rewrite (index_no_colon tmp Hc).
      rewrite Hassoc, length_append. cbn [String.length].
      replace (String.length (body ^^ String a EmptyString) + 1 - 1)%nat
        with (String.length (body ^^ String a EmptyString)) by lia.
      apply substring_prefix. }
    assert (E2 : QueryConfig.last_two tmp = String a (String b EmptyString)).
    { unfold QueryConfig.last_two, tmp. rewrite length_append.
      cbn [String.length].
      replace (String.length body + 2 - 2)%nat with (String.length body)
        by lia.
      assert (Hle : (2 <=? String.length body + 2)%nat = true)
        by (apply Nat.leb_le; lia).
      rewrite Hle, substring_skip. reflexivity. }
    now rewrite E1, E2.
Qed.

End ExpectedTimeFacts.

(** ** From the cases to the direct runs *)

(** X27. The global graph of [dump_graph] followed by [Studies.run], on
    distinct cases as [__init__] leaves them, with distinct keys and a
    dependency wherever [no_restart] is on: nothing is raised, one run
    command is issued for each case whose [compute] is on and whose
    compilation has not failed, and a case that is not run is as the graph
    left it. *)
Theorem computed_cases_are_run
    (os_path_join : list string -> string) (bindir exe : string)
    (run_studymanager_command : nat -> string -> Z * Z)
    (resource_name : option string) (mem_log : bool)
    (s : store) (cases : list ref) :
  NoDup cases ->
  (forall x, In x cases -> fresh s x) ->
  unique_names s cases ->
  (forall x, In x cases -> no_restart (s x) = true -> depends (s x) <> None) ->
  exists g s' lines,
    StudiesM.global_graph cases init s = Ok (g, s', lines) /\
    fst (StudiesM.run os_path_join bindir exe run_studymanager_command
           resource_name mem_log g s')
      = List.length (filter (eligible s) cases) /\
    (forall r, eligible s r = false ->
       snd (StudiesM.run os_path_join bindir exe run_studymanager_command
              resource_name mem_log g s') r = s' r).
Proof.
  intros Hnd Hfresh Huniq Hrestart.
  destruct (global_graph_invariants cases init s (init_well_formed s)
              (init_edges_ok s) (init_maxima_ok s) Hnd Hfresh Huniq Hrestart)
    as [g [s' [lines [E [Hn [_ [_ [_ [Hlv _]]]]]]]]].
  change (nodes init) with (@nil ref) in Hn. cbn [app] in Hn.
  assert (Hel : forall r, eligible s' r = eligible s r).
  { intros r. unfold eligible. now rewrite (Hlv r). }
  exists g, s', lines. split; [exact E|]. unfold StudiesM.run.
  destruct (run_loop_spec os_path_join bindir exe run_studymanager_command
              resource_name mem_log (nodes g) 0 s') as [H1 [_ [H3 _]]].
  split.
  - rewrite H1, Hn. cbn [Nat.add]. f_equal.
    rewrite (filter_ext _ _ Hel).
    clear. induction cases as [|c cases IH]; [reflexivity|].
    cbn [filter]. unfold StudiesM.active at 1. unfold eligible at 2 4.
    destruct (compute (s c)) eqn:Ec; cbn [orb andb filter].
    + unfold eligible at 1. rewrite Ec. cbn [andb].
      destruct (negb _); [now rewrite IH|exact IH].
    + destruct (_ || _)%bool; cbn [filter]; [|exact IH].
      unfold eligible at 1. rewrite Ec. exact IH.
  - intros r Hr. apply H3. right. now rewrite Hel.
Qed.

(** The chain: three run commands. *)
Lemma computed_cases_are_run_witness :
  exists g s' lines,
    StudiesM.global_graph [0%nat; 1%nat; 2%nat] init Examples.chain
      = Ok (g, s', lines) /\
    fst (StudiesM.run Examples.join "bin" "code_saturne"
           Examples.first_call_only None false g s') = 3%nat.
Proof.
  destruct (computed_cases_are_run Examples.join "bin" "code_saturne"
              Examples.first_call_only None false Examples.chain
              [0%nat; 1%nat; 2%nat] chain_NoDup chain_fresh
              chain_unique_names)
    as [g [s' [lines [E [Hr _]]]]].
  - intros x Hx Hr. simpl in Hx.
    destruct Hx as [<-|[<-|[<-|[]]]]; discriminate Hr.
  - exists g, s', lines. split; [exact E|]. rewrite Hr. reflexivity.
Defined.
